(** * pynet.augmentation.spatial: random affine warp, mirror flip and elastic
    deformation of n-dimensional arrays.

    The development embeds [src/pynet/augmentation/spatial.py].  Arrays are
    numpy arrays (a shape and a C-ordered buffer of binary64 numbers), the
    process-wide numpy generator and the Python object store are threaded
    explicitly, and Python exceptions are values. *)

From Stdlib Require Import ZArith List String Floats Lia Bool PeanoNat.
From stdpp Require Import base list.
Import ListNotations.

(** ** Python exceptions and results *)

Inductive exn : Type :=
| ValueError (msg : string)
| RuntimeError (msg : string)
| IndexError (msg : string)
| OverflowError (msg : string)
| TypeError (msg : string).

Inductive result (A : Type) : Type :=
| Ok (a : A)
| Raise (e : exn).

Arguments Ok {A} a.
Arguments Raise {A} e.

Definition result_bind {A B} (r : result A) (f : A -> result B) : result B :=
  match r with
  | Ok a => f a
  | Raise e => Raise e
  end.

Definition result_map {A B} (f : A -> B) (r : result A) : result B :=
  result_bind r (fun a => Ok (f a)).

(** ** Binary64 helpers *)

(** [x] and [y] differ by at most [tol]. *)
Definition within (tol x y : float) : Prop :=
  PrimFloat.leb (PrimFloat.abs (x - y)) tol = true.

#[global] Instance float_inhabited : Inhabited float := populate 0%float.

(** [int -> float64] conversion, as done by [astype(float)]. *)
Definition float_of_Z (z : Z) : float :=
  match z with
  | Z0 => 0%float
  | Zpos _ => PrimFloat.of_uint63 (Uint63.of_Z z)
  | Zneg _ => (- PrimFloat.of_uint63 (Uint63.of_Z (- z)))%float
  end.

Definition float_of_nat (n : nat) : float := float_of_Z (Z.of_nat n).

(** numpy's [maximum]: a NaN operand wins. *)
Definition fmaximum (x y : float) : float :=
  if PrimFloat.is_nan x then x
  else if PrimFloat.is_nan y then y
  else if PrimFloat.ltb x y then y else x.

(** ** Index arithmetic of C-ordered buffers *)

Definition prod (sh : list nat) : nat := fold_right Nat.mul 1 sh.

Fixpoint ravel (sh idx : list nat) : nat :=
  match sh, idx with
  | _ :: sh', i :: idx' => i * prod sh' + ravel sh' idx'
  | _, _ => 0
  end.

Fixpoint unravel (sh : list nat) (n : nat) : list nat :=
  match sh with
  | [] => []
  | _ :: sh' => (n / prod sh') :: unravel sh' (n mod prod sh')
  end.

(** [in_range sh idx]: [idx] is a valid multi-index of an array of shape [sh]. *)
Definition in_range (sh idx : list nat) : Prop := Forall2 lt idx sh.

(** ** numpy arrays *)

Record ndarray (A : Type) : Type := mk_array {
  shape : list nat;
  data : list A
}.

Arguments mk_array {A} shape data.
Arguments shape {A} _.
Arguments data {A} _.

Definition ndim {A} (a : ndarray A) : nat := length (shape a).

(** Every array numpy builds owns one buffer cell per index. *)
Definition well_formed {A} (a : ndarray A) : Prop :=
  length (data a) = prod (shape a).

Definition tabulate {A} (sh : list nat) (f : list nat -> A) : ndarray A :=
  mk_array sh (map (fun n => f (unravel sh n)) (seq 0 (prod sh))).

Definition getitem {A} `{Inhabited A} (a : ndarray A) (idx : list nat) : A :=
  nth (ravel (shape a) idx) (data a) inhabitant.

Definition array_map {A B} (f : A -> B) (a : ndarray A) : ndarray B :=
  mk_array (shape a) (map f (data a)).

Module np.

(** [ndarray.reshape(shape)] with every extent given. *)
Definition reshape {A} (a : ndarray A) (sh : list nat) : result (ndarray A) :=
  if length (data a) =? prod sh then Ok (mk_array sh (data a))
  else Raise (ValueError "cannot reshape array").

(** [ndarray.reshape(n, -1)]: the second extent is inferred. *)
Definition reshape_rows {A} (a : ndarray A) (n : nat) : result (ndarray A) :=
  if (n =? 0) || negb (length (data a) mod n =? 0)
  then Raise (ValueError "cannot reshape array")
  else Ok (mk_array [n; length (data a) / n] (data a)).

(** [numpy.core.multiarray.normalize_axis_index]. *)
Definition normalize_axis_index (axis : Z) (nd : nat) : result nat :=
  if ((- Z.of_nat nd <=? axis) && (axis <? Z.of_nat nd))%Z
  then Ok (Z.to_nat (axis mod Z.of_nat nd))
  else Raise (ValueError "axis is out of bounds for array").

(** The index read by a view reversed along axis [k]. *)
Fixpoint mirror (sh idx : list nat) (k : nat) : list nat :=
  match sh, idx with
  | d :: sh', i :: idx' =>
      match k with
      | 0 => (d - 1 - i) :: idx'
      | S k' => i :: mirror sh' idx' k'
      end
  | _, _ => idx
  end.

(** [np.flip(m, axis)] is [m[..., ::-1, ...]]: the same cells read through a
    negative stride along [axis]. *)
Definition flip {A} `{Inhabited A} (m : ndarray A) (axis : Z) : result (ndarray A) :=
  result_map
    (fun k => tabulate (shape m) (fun idx => getitem m (mirror (shape m) idx k)))
    (normalize_axis_index axis (ndim m)).

(** [np.arange(size)]. *)
Definition arange (size : nat) : ndarray Z :=
  mk_array [size] (map Z.of_nat (seq 0 size)).

(** [np.asarray([a_0, ..., a_{n-1}])] of arrays of one common shape. *)
Definition asarray {A} (l : list (ndarray A)) : result (ndarray A) :=
  match l with
  | [] => Ok (mk_array [0] [])
  | a :: _ =>
      if forallb (fun b => bool_decide (shape b = shape a)) l
      then Ok (mk_array (length l :: shape a) (concat (map data l)))
      else Raise (ValueError "setting an array element with a sequence")
  end.

Fixpoint index_of (d : nat) (axes : list nat) : nat :=
  match axes with
  | [] => 0
  | x :: axes' => if x =? d then 0 else S (index_of d axes')
  end.

(** The source index of output index [j] under [transpose] by [axes]:
    [i[axes[m]] = j[m]]. *)
Definition scatter (axes j : list nat) : list nat :=
  map (fun d => nth (index_of d axes) j 0) (seq 0 (length axes)).

Definition is_permutation (axes : list nat) : bool :=
  forallb (fun d => existsb (Nat.eqb d) axes) (seq 0 (length axes)).

(** [ndarray.transpose] along the permutation [axes]. *)
Definition transpose {A} `{Inhabited A} (a : ndarray A) (axes : list nat)
  : result (ndarray A) :=
  if (length axes =? ndim a) && is_permutation axes
  then Ok (tabulate (map (fun ax => nth ax (shape a) 0) axes)
                    (fun j => getitem a (scatter axes j)))
  else Raise (ValueError "axes don't match array").

Definition swap01 {A} (l : list A) : list A :=
  match l with
  | x :: y :: l' => y :: x :: l'
  | _ => l
  end.

(** [np.meshgrid] of the 1-D arrays [xi], with the default [indexing='xy']: the k-th output
    holds [xi[k]] along axis [k], the first two axes exchanged. *)
Definition meshgrid (xi : list (ndarray Z)) : list (ndarray Z) :=
  let sh := swap01 (map (fun x => length (data x)) xi) in
  map (fun x => tabulate sh (fun idx => nth (nth (fst x) (swap01 idx) 0) (data (snd x)) 0%Z))
      (combine (seq 0 (length xi)) xi).

(** [ndarray.max()]. *)
Definition max (a : ndarray float) : result float :=
  match data a with
  | [] => Raise (ValueError "zero-size array to reduction operation maximum which has no identity")
  | x :: l => Ok (fold_left fmaximum l x)
  end.

(** Element-wise sum of two arrays of one shape.  [deformation] adds a
    field to a grid of the same shape; operands of other shapes, which numpy
    would try to broadcast, are refused here. *)
Definition add (a b : ndarray float) : result (ndarray float) :=
  if bool_decide (shape a = shape b)
  then Ok (mk_array (shape a) (zip_with PrimFloat.add (data a) (data b)))
  else Raise (ValueError "operands could not be broadcast together").

End np.

(** ** External libraries

    numpy's generator, the C library and scipy are not part of the
    repository: they are interfaces here, and every statement below holds
    for each of their implementations. *)

(** The legacy generator behind [numpy.random] ([mtrand]'s [rk_*] routines). *)
Class RandomSource : Type := {
  rk_state : Type;
  (** [init_by_array] from an integer seed in [0, 2**32) *)
  rk_seed : Z -> rk_state;
  (** initialisation from operating-system entropy *)
  rk_randomseed : Z -> rk_state;
  (** next double in [0, 1) *)
  rk_double : rk_state -> float * rk_state;
  (** next integer in [0, rng] *)
  rk_bounded : Z -> rk_state -> Z * rk_state;
  (** next standard normal deviate *)
  rk_gauss : rk_state -> float * rk_state
}.

Class Libm : Type := {
  exp : float -> float
}.

Class Scipy : Type := {
  (** value at one point of the order-[order] spline through the input,
      [mode='constant'] with fill value [cval] *)
  spline_value : ndarray float -> Z -> float -> list float -> float;
  (** entry [(i, j)] of the rotation matrix of the Euler angles (degrees),
      sequence "xyz" *)
  euler_xyz_entry : float -> float -> float -> nat -> nat -> float
}.

(** What [map_coordinates] raises for an order outside [0, 5]. *)
Definition SplineOrderError : exn := RuntimeError "spline order not supported".

(** What [Rotation.from_euler] raises when the angles do not come in threes. *)
Definition EulerAnglesError : exn :=
  ValueError "Expected `angles` to be at most 2-dimensional with width equal to number of axes specified".

(** [scipy.ndimage.map_coordinates(input, coordinates, order=order, cval=cval)]:
    one interpolated value per column of [coordinates]. *)
Definition map_coordinates `{Scipy} (input coordinates : ndarray float)
  (order : Z) (cval : float) : result (ndarray float) :=
  if ((order <? 0) || (5 <? order))%Z
  then Raise SplineOrderError
  else
    let output_shape := tail (shape coordinates) in
    if (ndim input <? 1) || (length output_shape <? 1)
    then Raise (RuntimeError "input and output rank must be > 0")
    else if negb (hd 0 (shape coordinates) =? ndim input)
    then Raise (RuntimeError "invalid shape for coordinate array")
    else
      let npoints := prod output_shape in
      Ok (mk_array output_shape
            (map (fun m => spline_value input order cval
                             (map (fun k => nth (k * npoints + m) (data coordinates) 0%float)
                                  (seq 0 (ndim input))))
                 (seq 0 npoints))).

(** [Rotation.from_euler("xyz", angles, degrees=True).as_matrix()]. *)
Definition from_euler_xyz `{Scipy} (angles : ndarray float) : result (ndarray float) :=
  match shape angles with
  | [3] =>
      let a k := nth k (data angles) 0%float in
      Ok (tabulate [3; 3]
            (fun ij => euler_xyz_entry (a 0) (a 1) (a 2) (nth 0 ij 0) (nth 1 ij 0)))
  | [n; 3] =>
      let a r k := nth (r * 3 + k) (data angles) 0%float in
      Ok (tabulate [n; 3; 3]
            (fun rij => let r := nth 0 rij 0 in
                        euler_xyz_entry (a r 0) (a r 1) (a r 2) (nth 1 rij 0) (nth 2 rij 0)))
  | _ => Raise EulerAnglesError
  end.

(** ** Functions of the repository that [spatial.py] imports

    [pynet.augmentation.transform] and [pynet.augmentation.utils] are not
    part of the sources at hand; what [spatial.py] calls from them is an
    interface as well. *)

(** A magnitude given as a number or as a 2-uplet. *)
Inductive magnitude : Type :=
| Scalar (v : float)
| Bounds (low high : float).

Class Transform `{RandomSource} : Type := {
  (** [utils.interval]: the pair (low, high) of a magnitude *)
  interval : magnitude -> result (float * float);
  (** [transform.compose(T, R, Z)]: the affine matrix *)
  compose : ndarray float -> ndarray float -> ndarray float -> result (ndarray float);
  (** [transform.affine_flow(affine, shape)]: the dense coordinate field *)
  affine_flow : ndarray float -> list nat -> result (ndarray float);
  (** the power-law field synthesised by [transform.gaussian_random_field]
      from the draws of the generator *)
  power_law_field : list nat -> float -> bool -> rk_state -> result (ndarray float) * rk_state
}.

(** ** The state of the process *)

(** Arrays are Python objects.  [Caller i] names an array that exists when
    a transform is entered, [Local i] one created since. *)
Inductive ref : Type :=
| Caller (i : nat)
| Local (i : nat).

Record world `{RandomSource} : Type := mk_world {
  (** the global [RandomState] of [numpy.random] *)
  generator : rk_state;
  (** what the operating system answers to successive entropy requests *)
  urandom : nat -> Z;
  entropy_reads : nat;
  (** the arrays of the caller *)
  heap : list (ndarray float);
  (** the arrays created by the running call *)
  frame : list (ndarray float)
}.

Arguments mk_world {_} generator urandom entropy_reads heap frame.

Section Process.

Context `{RS : RandomSource}.

Definition M (A : Type) : Type := world -> result A * world.

#[global] Instance M_ret : MRet M := fun A a w => (Ok a, w).

#[global] Instance M_bind : MBind M := fun A B f m w =>
  match m w with
  | (Ok a, w') => f a w'
  | (Raise e, w') => (Raise e, w')
  end.

Definition raise {A} (e : exn) : M A := fun w => (Raise e, w).

Definition lift {A} (r : result A) : M A := fun w => (r, w).

Definition set_generator (g : rk_state) (w : world) : world :=
  mk_world g (urandom w) (entropy_reads w) (heap w) (frame w).

Definition set_heap (h : list (ndarray float)) (w : world) : world :=
  mk_world (generator w) (urandom w) (entropy_reads w) h (frame w).

Definition set_frame (f : list (ndarray float)) (w : world) : world :=
  mk_world (generator w) (urandom w) (entropy_reads w) (heap w) f.

Definition lookup_ref (r : ref) (w : world) : option (ndarray float) :=
  match r with
  | Caller i => heap w !! i
  | Local i => frame w !! i
  end.

(** Reading an array through a name. *)
Definition deref (r : ref) : M (ndarray float) := fun w =>
  match lookup_ref r w with
  | Some a => (Ok a, w)
  | None => (Raise (TypeError "not an array"), w)
  end.

(** A new array object. *)
Definition alloc (a : ndarray float) : M ref := fun w =>
  (Ok (Local (length (frame w))), set_frame (frame w ++ [a]) w).

Definition new (r : result (ndarray float)) : M ref :=
  a ← lift r; alloc a.

(** An augmented assignment [x op= v]: the object named [x] is overwritten. *)
Definition inplace (r : ref) (f : ndarray float -> result (ndarray float)) : M unit := fun w =>
  match lookup_ref r w with
  | None => (Raise (TypeError "not an array"), w)
  | Some a =>
      match f a with
      | Raise e => (Raise e, w)
      | Ok a' =>
          (Ok tt, match r with
                  | Caller i => set_heap (<[i := a']> (heap w)) w
                  | Local i => set_frame (<[i := a']> (frame w)) w
                  end)
      end
  end.

(** One step of the generator. *)
Definition draw {A} (f : rk_state -> A * rk_state) : M A := fun w =>
  let (x, g) := f (generator w) in (Ok x, set_generator g w).

Fixpoint rk_fill {A} (n : nat) (f : rk_state -> A * rk_state) (g : rk_state)
  : list A * rk_state :=
  match n with
  | 0 => ([], g)
  | S n' =>
      let (x, g1) := f g in
      let (xs, g2) := rk_fill n' f g1 in
      (x :: xs, g2)
  end.

(** [np.random.seed(seed)]. *)
Definition np_random_seed (seed : option Z) : M unit := fun w =>
  match seed with
  | None =>
      (Ok tt, mk_world (rk_randomseed (urandom w (entropy_reads w))) (urandom w)
                       (S (entropy_reads w)) (heap w) (frame w))
  | Some s =>
      if ((0 <=? s) && (s <? 2 ^ 32))%Z
      then (Ok tt, set_generator (rk_seed s) w)
      else (Raise (ValueError "Seed must be between 0 and 2**32 - 1"), w)
  end.

(** [np.random.uniform(low, high, size)]: [low + (high - low) * rk_double]. *)
Definition np_random_uniform (low high : float) (size : nat) : M (ndarray float) :=
  if PrimFloat.is_finite (high - low)
  then
    us ← draw (rk_fill size rk_double);
    mret (mk_array [size] (map (fun u => low + (high - low) * u)%float us))
  else raise (OverflowError "Range exceeds valid bounds").

(** [np.random.randint(low, high, size)]. *)
Definition np_random_randint (low high : Z) (size : nat) : M (ndarray Z) :=
  if (high <=? low)%Z
  then raise (ValueError "low >= high")
  else
    vs ← draw (rk_fill size (rk_bounded (high - 1 - low)));
    mret (mk_array [size] (map (fun v => low + v)%Z vs)).

(** [np.random.lognormal(mean, sigma, size)]: [exp(mean + sigma * rk_gauss)]. *)
Definition np_random_lognormal `{Libm} (mean sigma : float) (size : nat)
  : M (ndarray float) :=
  if PrimFloat.ltb sigma 0
  then raise (ValueError "sigma < 0")
  else
    gs ← draw (rk_fill size rk_gauss);
    mret (mk_array [size] (map (fun g => exp (mean + sigma * g))%float gs)).

End Process.

(** ** [pynet/augmentation/spatial.py] *)

Section Spatial.

Context `{RS : RandomSource} `{LM : Libm} `{SP : Scipy} `{TR : !Transform}.

(** The exception of line 192. *)
Definition UnsupportedDistribution : exn :=
  ValueError "Unsupported sampling distribution.".

(** [random_generator(interval, size, dist, seed)], lines 155-193.  The two
    augmented assignments of the lognormal branch overwrite the array just
    drawn, which has no other name. *)
Definition random_generator (interval : float * float) (size : nat)
  (dist : string) (seed : option Z) : M (ndarray float) :=
  if String.eqb dist "uniform" then
    np_random_seed seed;;
    np_random_uniform (fst interval) (snd interval) size
  else if String.eqb dist "lognormal" then
    np_random_seed seed;;
    sign ← np_random_randint 0 2 size;
    let sign := array_map (fun z => z * 2 - 1)%Z sign in
    let sign := array_map float_of_Z sign in
    np_random_seed seed;;
    random_variables ← np_random_lognormal 0 1 size;
    let random_variables := array_map (fun x => x / 12.5)%float random_variables in
    mret (mk_array (shape random_variables)
            (zip_with (fun x s => x * (s * snd interval))%float
                      (data random_variables) (data sign)))
  else raise UnsupportedDistribution.

(** Lines 57-65 of [affine]: the three parameter vectors. *)
Definition affine_draws (arr : ref) (rotation translation : magnitude)
  (zoom : float) (dist : string) (seed : option Z)
  : M (ndarray float * ndarray float * ndarray float) :=
  rotation ← lift (interval rotation);
  translation ← lift (interval translation);
  a ← deref arr;
  random_rotations ← random_generator rotation (ndim a) dist seed;
  a ← deref arr;
  random_translations ← random_generator translation (ndim a) dist seed;
  np_random_seed seed;;
  a ← deref arr;
  random_zooms ← np_random_uniform (1 - zoom) (1 + zoom) (ndim a);
  mret (random_rotations, random_translations, random_zooms).

(** [affine(arr, rotation, translation, zoom, order, dist, seed)],
    lines 57-74. *)
Definition affine (arr : ref) (rotation translation : magnitude)
  (zoom : float) (order : Z) (dist : string) (seed : option Z) : M ref :=
  '(random_rotations, random_translations, random_zooms) ←
    affine_draws arr rotation translation zoom dist seed;
  random_rotations ← lift (from_euler_xyz random_rotations);
  affine ← lift (compose random_translations random_rotations random_zooms);
  a ← deref arr;
  let shape := shape a in
  flow ← lift (affine_flow affine shape);
  locs ← lift (np.reshape_rows flow (length shape));
  a ← deref arr;
  transformed ← lift (map_coordinates a locs order 0);
  new (np.reshape transformed shape).

(** Lines 57-72 of [affine], and the array read at line 73: what
    [map_coordinates] is called with. *)
Definition affine_sampling (arr : ref) (rotation translation : magnitude)
  (zoom : float) (dist : string) (seed : option Z)
  : M (ndarray float * ndarray float) :=
  '(random_rotations, random_translations, random_zooms) ←
    affine_draws arr rotation translation zoom dist seed;
  random_rotations ← lift (from_euler_xyz random_rotations);
  affine ← lift (compose random_translations random_rotations random_zooms);
  a ← deref arr;
  let shape := shape a in
  flow ← lift (affine_flow affine shape);
  locs ← lift (np.reshape_rows flow (length shape));
  a ← deref arr;
  mret (a, locs).

(** [flip(arr, axis, seed)], lines 95-98.  [np.flip] returns a view; it is
    a new object here, with the cells the view reads. *)
Definition flip (arr : ref) (axis : option Z) (seed : option Z) : M ref :=
  axis ← match axis with
         | None =>
             np_random_seed seed;;
             a ← deref arr;
             draws ← np_random_randint 0 (Z.of_nat (ndim a)) 1;
             mret (nth 0 (data draws) 0%Z)
         | Some k => mret k
         end;
  a ← deref arr;
  new (np.flip a axis).

(** Modelled from the spec: [transform.gaussian_random_field(shape, alpha,
    normalize, seed)] is not in the sources.  The spec has it reseed the
    process-wide generator with its seed before it draws, and return a new
    smooth 2-D field over the given extents. *)
Definition gaussian_random_field (shape : list nat) (alpha : float)
  (normalize : bool) (seed : option Z) : M ref :=
  np_random_seed seed;;
  field ← draw (power_law_field shape alpha normalize);
  new field.

(** [arr.shape[-1]]. *)
Definition last_extent (sh : list nat) : result nat :=
  match last sh with
  | Some n => Ok n
  | None => Raise (IndexError "tuple index out of range")
  end.

(** [len(a)]. *)
Definition len {A} (a : ndarray A) : result nat :=
  match shape a with
  | n :: _ => Ok n
  | [] => Raise (TypeError "len() of unsized object")
  end.

(** Lines 129-132 of [deformation], repeated at 135-138 and 141-144: one
    field, divided by its maximum and repeated along the last axis. *)
Definition axis_flow (arr : ref) (alpha : float) (seed : option Z) : M ref :=
  a ← deref arr;
  flow_x ← gaussian_random_field (take 2 (shape a)) alpha true seed;
  f ← deref flow_x;
  maximum ← lift (np.max f);
  inplace flow_x (fun f => Ok (array_map (fun v => v / maximum)%float f));;
  f ← deref flow_x;
  a ← deref arr;
  depth ← lift (last_extent (shape a));
  new (result_bind (np.asarray (replicate depth f))
                   (fun stacked => np.transpose stacked [1; 2; 0])).

(** Lines 128-145 of [deformation]: the field of unit displacements. *)
Definition displacement_field (arr : ref) (alpha : float) (seed : option Z) : M ref :=
  let kwargs := seed in
  flow_x ← axis_flow arr alpha kwargs;
  let kwargs := match seed with Some s => Some (s + 2)%Z | None => kwargs end in
  flow_y ← axis_flow arr alpha kwargs;
  let kwargs := match seed with Some s => Some (s + 4)%Z | None => kwargs end in
  flow_z ← axis_flow arr alpha kwargs;
  fx ← deref flow_x;
  fy ← deref flow_y;
  fz ← deref flow_z;
  new (np.asarray [fx; fy; fz]).

(** Lines 128-146 of [deformation]: the displacements, in voxels. *)
Definition displacement (arr : ref) (max_displacement alpha : float)
  (seed : option Z) : M ref :=
  flow ← displacement_field arr alpha seed;
  inplace flow (fun f => Ok (array_map (fun v => v * max_displacement)%float f));;
  mret flow.

(** Lines 147-152 of [deformation]: the array sampled at the displaced grid. *)
Definition warp (arr flow : ref) (order : Z) : M ref :=
  a ← deref arr;
  let ranges := map np.arange (shape a) in
  locs ← new (result_map (array_map float_of_Z)
                (result_bind (np.asarray (np.meshgrid ranges))
                             (fun grid => np.transpose grid [0; 2; 1; 3])));
  f ← deref flow;
  inplace locs (fun l => np.add l f);;
  l ← deref locs;
  locs ← lift (result_bind (len l) (np.reshape_rows l));
  a ← deref arr;
  transformed ← lift (map_coordinates a locs order 0);
  a ← deref arr;
  new (np.reshape transformed (shape a)).

(** [deformation(arr, max_displacement, alpha, order, seed)], lines 128-152. *)
Definition deformation (arr : ref) (max_displacement alpha : float)
  (order : Z) (seed : option Z) : M ref :=
  flow ← displacement arr max_displacement alpha seed;
  warp arr flow order.

(** Lines 147-150 of [deformation], and the array read at line 151: what
    [map_coordinates] is called with. *)
Definition warp_sampling (arr flow : ref) : M (ndarray float * ndarray float) :=
  a ← deref arr;
  let ranges := map np.arange (shape a) in
  locs ← new (result_map (array_map float_of_Z)
                (result_bind (np.asarray (np.meshgrid ranges))
                             (fun grid => np.transpose grid [0; 2; 1; 3])));
  f ← deref flow;
  inplace locs (fun l => np.add l f);;
  l ← deref locs;
  locs ← lift (result_bind (len l) (np.reshape_rows l));
  a ← deref arr;
  mret (a, locs).

(** Lines 128-150 of [deformation], and the array read at line 151. *)
Definition deformation_sampling (arr : ref) (max_displacement alpha : float)
  (seed : option Z) : M (ndarray float * ndarray float) :=
  flow ← displacement arr max_displacement alpha seed;
  warp_sampling arr flow.

(** A call from client code: the callee starts with no array of its own,
    the array it returns joins those of the caller, and its temporaries
    are garbage. *)
Definition call (body : M ref) : M ref := fun w =>
  match body (set_frame [] w) with
  | (Ok (Caller i), w') => (Ok (Caller i), set_frame (frame w) w')
  | (Ok (Local i), w') =>
      match frame w' !! i with
      | Some out =>
          (Ok (Caller (length (heap w'))),
           set_frame (frame w) (set_heap (heap w' ++ [out]) w'))
      | None => (Raise (TypeError "not an array"), set_frame (frame w) w')
      end
  | (Raise e, w') => (Raise e, set_frame (frame w) w')
  end.

(** What a caller observes of a call: the exception, or the array returned. *)
Definition outcome (m : M ref) (w : world) : result (ndarray float) :=
  match m w with
  | (Ok r, w') =>
      match lookup_ref r w' with
      | Some a => Ok a
      | None => Raise (TypeError "not an array")
      end
  | (Raise e, _) => Raise e
  end.

(** The same call made twice in a row; the two arrays it returned. *)
Definition twice (m : M ref) : M (ndarray float * ndarray float) :=
  first ← m;
  second ← m;
  a ← deref first;
  b ← deref second;
  mret (a, b).

(** [m] made twice in a row returns twice the same array, or raises at
    once. *)
Definition repeatable (m : M ref) (w : world) : Prop :=
  match fst (twice m w) with
  | Ok (a, b) => a = b
  | Raise e => outcome m w = Raise e
  end.

End Spatial.

(** ** Assertions on runs *)

Section Assertions.

Context `{RS : RandomSource}.

Definition is_local (r : ref) : Prop :=
  match r with
  | Local _ => True
  | Caller _ => False
  end.

(** [hoare P m Q E]: from a world in [P], [m] returns [a] in a world of
    [Q a], or raises in a world of [E]. *)
Definition hoare {A} (P : world -> Prop) (m : M A) (Q : A -> world -> Prop)
  (E : world -> Prop) : Prop :=
  forall w, P w ->
    match m w with
    | (Ok a, w') => Q a w'
    | (Raise _, w') => E w'
    end.

(** The arrays of the caller are [h]. *)
Definition keeps (h : list (ndarray float)) (w : world) : Prop := heap w = h.

(** [preserves h m phi]: [m] leaves the arrays [h] of the caller as they
    are, whether it returns or raises, and what it returns satisfies [phi]. *)
Definition preserves (h : list (ndarray float)) {A} (m : M A) (phi : A -> Prop) : Prop :=
  hoare (keeps h) m (fun a w => keeps h w /\ phi a) (keeps h).

(** [r] names an array of shape [sh] created by the running call. *)
Definition new_with_shape (sh : list nat) (r : ref) (w : world) : Prop :=
  exists j out, r = Local j /\ frame w !! j = Some out /\ shape out = sh.

(** What the caller of a transform of its array [i] is left with: one more
    array, of the shape of [A], next to its own arrays, which are as they
    were; or, after an exception, its own arrays as they were. *)
Definition hands_over_like (A : ndarray float) (i : nat) (w : world)
  (x : result ref * world) : Prop :=
  match x with
  | (Ok r, w') =>
      exists out, r = Caller (length (heap w))
                  /\ heap w' = heap w ++ [out]
                  /\ shape out = shape A
                  /\ heap w' !! i = Some A
                  /\ frame w' = frame w
  | (Raise _, w') => heap w' = heap w /\ frame w' = frame w
  end.

(** [r] names an array of shape [sh], one cell per index, created by the
    running call. *)
Definition new_array_with_shape (sh : list nat) (r : ref) (w : world) : Prop :=
  exists j out, r = Local j /\ frame w !! j = Some out
                /\ shape out = sh /\ well_formed out.

(** What the caller of a transform of its array [i] is left with: one more
    array, of the shape of [A] and with one cell per index, next to its own
    arrays, which are as they were; or, after an exception, its own arrays
    as they were. *)
Definition hands_over_array_like (A : ndarray float) (i : nat) (w : world)
  (x : result ref * world) : Prop :=
  match x with
  | (Ok r, w') =>
      exists out, r = Caller (length (heap w))
                  /\ heap w' = heap w ++ [out]
                  /\ shape out = shape A
                  /\ well_formed out
                  /\ heap w' !! i = Some A
                  /\ frame w' = frame w
  | (Raise _, w') => heap w' = heap w /\ frame w' = frame w
  end.

(** Two worlds in which the caller's array [i] and the arrays of the
    running call are the same. *)
Definition same_arrays (i : nat) (w1 w2 : world) : Prop :=
  heap w1 !! i = heap w2 !! i /\ frame w1 = frame w2.

(** The relation [X], and with [g] set the generators in the same state. *)
Definition with_generator (X : world -> world -> Prop) (g : bool)
  (w1 w2 : world) : Prop :=
  X w1 w2 /\ (g = true -> generator w1 = generator w2).

(** A relation that does not look at the generator or at the entropy read. *)
Definition generator_blind (X : world -> world -> Prop) : Prop :=
  forall w1 w2 g1 g2 u1 u2 n1 n2, X w1 w2 ->
    X (mk_world g1 u1 n1 (heap w1) (frame w1)) (mk_world g2 u2 n2 (heap w2) (frame w2)).

Definition related (i : nat) (g : bool) : world -> world -> Prop :=
  with_generator (same_arrays i) g.

(** [agree P m Q]: from worlds related by [P], the two runs of [m] raise
    the same exception or return the same value in worlds related by [Q]. *)
Definition agree {A} (P : world -> world -> Prop) (m : M A)
  (Q : world -> world -> Prop) : Prop :=
  forall w1 w2, P w1 w2 ->
    match m w1, m w2 with
    | (Ok a1, w1'), (Ok a2, w2') => a1 = a2 /\ Q w1' w2'
    | (Raise e1, _), (Raise e2, _) => e1 = e2
    | _, _ => False
    end.

(** [w2] is [w1] with the generator in another state. *)
Definition but_for_the_generator (w1 w2 : world) : Prop :=
  exists g, w2 = set_generator g w1.

End Assertions.

(** ** A small implementation of the interfaces

    Enough to run the functions above on concrete arrays. *)

Module Sample.

Definition next (g : Z) : Z := ((g * 5 + 3) mod 64)%Z.

#[export] Instance random_source : RandomSource := {|
  rk_state := Z;
  rk_seed := fun s => s;
  rk_randomseed := fun e => e;
  rk_double := fun g => ((float_of_Z (g mod 8) / 8)%float, next g);
  rk_bounded := fun rng g => ((g mod (rng + 1))%Z, next g);
  rk_gauss := fun g => (float_of_Z (g mod 5 - 2), next g)
|}.

#[export] Instance libm : Libm := {|
  exp := fun x => (1 + x)%float
|}.

(** The input cell whose index has exactly the given coordinates, if any. *)
Definition cell_at (input : ndarray float) (cval : float) (coords : list float) : float :=
  match
    find (fun n => forallb (fun p => PrimFloat.eqb (float_of_nat (fst p)) (snd p))
                           (combine (unravel (shape input) n) coords))
         (seq 0 (prod (shape input)))
  with
  | Some n => nth n (data input) cval
  | None => cval
  end.

#[export] Instance scipy : Scipy := {|
  spline_value := fun input _ cval coords => cell_at input cval coords;
  euler_xyz_entry := fun _ _ _ i j => if i =? j then 1%float else 0%float
|}.

(** A field of zero mean and unit variance on five cells. *)
Definition spike (sh : list nat) : ndarray float :=
  tabulate sh (fun idx => if ravel sh idx =? 0 then (-2)%float else 0.5%float).

#[export] Instance transform : Transform := {|
  interval := fun m =>
    match m with
    | Scalar v => Ok ((- v)%float, v)
    | Bounds low high => Ok (low, high)
    end;
  compose := fun T R Z => Ok R;
  affine_flow := fun _ sh =>
    Ok (tabulate (length sh :: sh)
          (fun idx => float_of_nat (nth (S (nth 0 idx 0)) idx 0)));
  power_law_field := fun sh _ _ g => (Ok (spike sh), next g)
|}.

(** The same, with a field that is zero everywhere. *)
Definition flat : Transform := {|
  interval := fun m =>
    match m with
    | Scalar v => Ok ((- v)%float, v)
    | Bounds low high => Ok (low, high)
    end;
  compose := fun T R Z => Ok R;
  affine_flow := fun _ sh =>
    Ok (tabulate (length sh :: sh)
          (fun idx => float_of_nat (nth (S (nth 0 idx 0)) idx 0)));
  power_law_field := fun sh _ _ g => (Ok (tabulate sh (fun _ => 0%float)), next g)
|}.

Definition start (h : list (ndarray float)) : world :=
  mk_world 7%Z (fun n => Z.of_nat n) 0 h [].

Definition ramp (sh : list nat) : ndarray float :=
  tabulate sh (fun idx => float_of_nat (ravel sh idx)).

(** Another state of the process around the same arrays. *)
Definition elsewhere (h : list (ndarray float)) : world :=
  mk_world 19%Z (fun _ => 5%Z) 3 h [ramp [1]].

Definition square : ndarray float := ramp [2; 2].
Definition plane : ndarray float := ramp [2; 3].
Definition cube : ndarray float := ramp [2; 2; 2].
Definition column : ndarray float := ramp [5; 1; 1].
Definition hypercube : ndarray float := ramp [2; 2; 2; 2].

(** A 4x4x4 array of zeros with a single 1 at index [pos]. *)
Definition voxel (pos : list nat) : ndarray float :=
  tabulate [4; 4; 4]
    (fun idx => if bool_decide (idx = pos) then 1%float else 0%float).

(** The unit displacements computed for [cube]. *)
Definition cube_field : ndarray float :=
  mk_array [3; 2; 2; 2]
    (concat (replicate 3 [(-4)%float; (-4)%float; 1%float; 1%float;
                          1%float; 1%float; 1%float; 1%float])).

End Sample.

(** * Properties *)

(** ** Multi-indices and buffers *)

Lemma unravel_in_range (sh : list nat) (n : nat) :
  n < prod sh -> in_range sh (unravel sh n).
Proof.
  revert n. induction sh as [|d sh IH]; intros n Hn; simpl in *.
  - constructor.
  - assert (prod sh <> 0) by (intros E; rewrite E in Hn; lia).
    constructor.
    + apply Nat.Div0.div_lt_upper_bound. lia.
    + apply IH. apply Nat.mod_upper_bound. assumption.
Qed.

Lemma ravel_unravel (sh : list nat) (n : nat) :
  n < prod sh -> ravel sh (unravel sh n) = n.
Proof.
  revert n. induction sh as [|d sh IH]; intros n Hn; simpl in *.
  - lia.
  - assert (prod sh <> 0) by (intros E; rewrite E in Hn; lia).
    rewrite IH by (apply Nat.mod_upper_bound; assumption).
    rewrite (Nat.div_mod_eq n (prod sh)) at 3. lia.
Qed.

Lemma ravel_lt (sh idx : list nat) :
  in_range sh idx -> ravel sh idx < prod sh.
Proof.
  intros H. induction H as [|i d idx sh Hi _ IH]; simpl.
  - lia.
  - nia.
Qed.

Lemma unravel_ravel (sh idx : list nat) :
  in_range sh idx -> unravel sh (ravel sh idx) = idx.
Proof.
  intros H. induction H as [|i d idx sh Hi Hr IH]; simpl.
  - reflexivity.
  - pose proof (ravel_lt _ _ Hr) as Hlt.
    assert (prod sh <> 0) by lia.
    f_equal.
    + rewrite Nat.div_add_l by assumption.
      rewrite Nat.div_small by assumption. lia.
    + rewrite Nat.add_comm, Nat.Div0.mod_add.
      rewrite Nat.mod_small by assumption. exact IH.
Qed.

Lemma tabulate_well_formed {A} (sh : list nat) (f : list nat -> A) :
  well_formed (tabulate sh f).
Proof. unfold well_formed, tabulate. simpl. now rewrite length_map, length_seq. Qed.

Lemma nth_tabulate {A} (sh : list nat) (f : list nat -> A) (n : nat) (d : A) :
  n < prod sh -> nth n (data (tabulate sh f)) d = f (unravel sh n).
Proof.
  intros Hn. unfold tabulate. simpl.
  rewrite (nth_indep _ d (f (unravel sh 0))) by now rewrite length_map, length_seq.
  rewrite (map_nth (fun n => f (unravel sh n))).
  now rewrite seq_nth.
Qed.

Lemma getitem_tabulate {A} `{Inhabited A} (sh : list nat) (f : list nat -> A)
  (idx : list nat) :
  in_range sh idx -> getitem (tabulate sh f) idx = f idx.
Proof.
  intros Hr. unfold getitem.
  rewrite nth_tabulate by (apply ravel_lt; assumption).
  simpl. now rewrite unravel_ravel.
Qed.

Lemma map_nth_seq {A} (l : list A) (d : A) :
  map (fun n => nth n l d) (seq 0 (length l)) = l.
Proof.
  induction l as [|x l IH]; simpl.
  - reflexivity.
  - f_equal. rewrite <- seq_shift, map_map. exact IH.
Qed.

Lemma tabulate_getitem {A} `{Inhabited A} (a : ndarray A) :
  well_formed a -> tabulate (shape a) (getitem a) = a.
Proof.
  intros Hwf. destruct a as [sh l]. unfold well_formed in Hwf. simpl in Hwf.
  unfold tabulate, getitem. simpl. f_equal.
  transitivity (map (fun n => nth n l inhabitant) (seq 0 (length l)));
    [|apply map_nth_seq].
  rewrite Hwf. apply map_ext_in. intros n Hn. apply in_seq in Hn.
  rewrite ravel_unravel by lia. reflexivity.
Qed.

Lemma tabulate_ext {A} (sh : list nat) (f g : list nat -> A) :
  (forall idx, in_range sh idx -> f idx = g idx) -> tabulate sh f = tabulate sh g.
Proof.
  intros Hfg. unfold tabulate. f_equal.
  apply map_ext_in. intros n Hn. apply in_seq in Hn.
  apply Hfg, unravel_in_range. lia.
Qed.

(** ** The reversed view *)

Lemma mirror_in_range (sh idx : list nat) (k : nat) :
  in_range sh idx -> in_range sh (np.mirror sh idx k).
Proof.
  intros H. revert k. induction H as [|i d idx sh Hi Hr IH]; intros k; simpl.
  - constructor.
  - destruct k; constructor; try assumption; try lia. apply IH.
Qed.

Lemma mirror_involutive (sh idx : list nat) (k : nat) :
  in_range sh idx -> np.mirror sh (np.mirror sh idx k) k = idx.
Proof.
  intros H. revert k. induction H as [|i d idx sh Hi Hr IH]; intros k; simpl.
  - reflexivity.
  - destruct k; simpl; f_equal; try lia. apply IH.
Qed.

Lemma mirror_insert (sh idx : list nat) (k : nat) :
  in_range sh idx -> k < length sh ->
  np.mirror sh idx k = <[k := nth k sh 0 - 1 - nth k idx 0]> idx.
Proof.
  intros H. revert k. induction H as [|i d idx sh Hi Hr IH]; intros k Hk; simpl in *.
  - lia.
  - destruct k; simpl; [reflexivity|]. f_equal. apply IH. lia.
Qed.

Lemma normalize_axis_index_ok (k : Z) (nd : nat) :
  (0 <= k < Z.of_nat nd)%Z -> np.normalize_axis_index k nd = Ok (Z.to_nat k).
Proof.
  intros Hk. unfold np.normalize_axis_index.
  destruct (Z.leb_spec (- Z.of_nat nd) k); [|lia].
  destruct (Z.ltb_spec k (Z.of_nat nd)); [|lia].
  simpl. now rewrite Z.mod_small.
Qed.

Lemma np_flip_ok {A} `{Inhabited A} (m : ndarray A) (k : Z) :
  (0 <= k < Z.of_nat (ndim m))%Z ->
  np.flip m k =
  Ok (tabulate (shape m) (fun idx => getitem m (np.mirror (shape m) idx (Z.to_nat k)))).
Proof.
  intros Hk. unfold np.flip. now rewrite normalize_axis_index_ok.
Qed.

Lemma np_flip_flip {A} `{Inhabited A} (m : ndarray A) (k : Z) :
  well_formed m -> (0 <= k < Z.of_nat (ndim m))%Z ->
  result_bind (np.flip m k) (fun m' => np.flip m' k) = Ok m.
Proof.
  intros Hwf Hk. rewrite np_flip_ok by assumption. simpl.
  rewrite np_flip_ok by assumption. simpl. f_equal.
  transitivity (tabulate (shape m) (getitem m));
    [|apply tabulate_getitem; assumption].
  apply tabulate_ext. intros idx Hr.
  rewrite getitem_tabulate by (apply mirror_in_range; assumption).
  now rewrite mirror_involutive.
Qed.

(** ** Running the monad *)

Section Runs.

Context `{RS : RandomSource}.

Lemma run_bind {A B} (m : M A) (f : A -> M B) (w : world) :
  (m ≫= f) w =
  match m w with
  | (Ok a, w') => f a w'
  | (Raise e, w') => (Raise e, w')
  end.
Proof. reflexivity. Qed.

Lemma run_ret {A} (a : A) (w : world) : (mret a : M A) w = (Ok a, w).
Proof. reflexivity. Qed.

Lemma run_bind_ok {A B} (m : M A) (f : A -> M B) (w w' : world) (a : A) :
  m w = (Ok a, w') -> (m ≫= f) w = f a w'.
Proof. intros E. now rewrite run_bind, E. Qed.

Lemma run_bind_raise {A B} (m : M A) (f : A -> M B) (w w' : world) (e : exn) :
  m w = (Raise e, w') -> (m ≫= f) w = (Raise e, w').
Proof. intros E. now rewrite run_bind, E. Qed.

Lemma run_bind_inv {A B} (m : M A) (f : A -> M B) (w w' : world) (b : B) :
  (m ≫= f) w = (Ok b, w') ->
  exists a w1, m w = (Ok a, w1) /\ f a w1 = (Ok b, w').
Proof.
  rewrite run_bind. destruct (m w) as [[a|e] w1]; [eauto|discriminate].
Qed.

Lemma run_lift_inv {A} (r : result A) (w w' : world) (a : A) :
  lift r w = (Ok a, w') -> r = Ok a /\ w' = w.
Proof. unfold lift. now intros [= -> ->]. Qed.

Lemma run_deref_inv (r : ref) (w w' : world) (a : ndarray float) :
  deref r w = (Ok a, w') -> lookup_ref r w = Some a /\ w' = w.
Proof.
  unfold deref. destruct (lookup_ref r w); [|discriminate]. now intros [= -> ->].
Qed.

Lemma run_deref (r : ref) (w : world) (a : ndarray float) :
  lookup_ref r w = Some a -> deref r w = (Ok a, w).
Proof. intros E. unfold deref. now rewrite E. Qed.

Lemma run_new_ok (a : ndarray float) (w : world) :
  new (Ok a) w = (Ok (Local (length (frame w))), set_frame (frame w ++ [a]) w).
Proof. reflexivity. Qed.

Lemma lookup_new (a : ndarray float) (w : world) :
  lookup_ref (Local (length (frame w))) (set_frame (frame w ++ [a]) w) = Some a.
Proof. simpl. apply list_lookup_middle. reflexivity. Qed.

(** With an explicit axis, [flip] is [np.flip] and nothing else. *)
Lemma run_flip_axis (arr : ref) (k : Z) (seed : option Z) (w : world)
  (a : ndarray float) :
  lookup_ref arr w = Some a ->
  flip arr (Some k) seed w = new (np.flip a k) w.
Proof.
  intros E. unfold flip. rewrite run_bind, run_ret, run_bind.
  now rewrite (run_deref _ _ _ E).
Qed.

End Runs.

(** The mirror image of [A] along axis [k]. *)
Lemma call_flip_axis `{RS : RandomSource} (i : nat) (k : Z) (seed : option Z)
  (w : world) (A : ndarray float) :
  heap w !! i = Some A ->
  (0 <= k < Z.of_nat (ndim A))%Z ->
  call (flip (Caller i) (Some k) seed) w =
  (Ok (Caller (length (heap w))),
   set_heap (heap w ++ [tabulate (shape A)
                          (fun idx => getitem A (np.mirror (shape A) idx (Z.to_nat k)))]) w).
Proof.
  intros E Hk. unfold call.
  rewrite (run_flip_axis _ _ _ _ A) by exact E.
  rewrite np_flip_ok by assumption. reflexivity.
Qed.


(** C10. With an explicit axis [k] in [0, A.ndim), [flip] returns the
    mirror image of [A] along [k] for every seed, [None] included: cell
    [idx] of the result is the cell of [A] whose k-th index is
    [n_k - 1 - idx_k].  The seed plays no part, the generator is neither
    reseeded nor advanced, no entropy is read, and the arrays of the caller
    are left as they were. *)
Theorem flip_explicit_axis `{RS : RandomSource} (w : world) (i : nat)
  (A : ndarray float) (k : Z) (seed : option Z) :
  heap w !! i = Some A ->
  (0 <= k < Z.of_nat (ndim A))%Z ->
  exists (r : ref) (w' : world) (B : ndarray float),
    call (flip (Caller i) (Some k) seed) w = (Ok r, w')
    /\ lookup_ref r w' = Some B
    /\ shape B = shape A
    /\ (forall idx, in_range (shape A) idx ->
          getitem B idx =
          getitem A (<[Z.to_nat k :=
                        nth (Z.to_nat k) (shape A) 0 - 1 - nth (Z.to_nat k) idx 0]> idx))
    /\ call (flip (Caller i) (Some k) seed) w = call (flip (Caller i) (Some k) None) w
    /\ generator w' = generator w
    /\ entropy_reads w' = entropy_reads w
    /\ take (length (heap w)) (heap w') = heap w.
Proof.
  intros E Hk.
  eexists _, _, _. split; [apply call_flip_axis; eassumption|].
  split; [simpl; apply list_lookup_middle; reflexivity|].
  split; [reflexivity|].
  split.
  - intros idx Hr. rewrite getitem_tabulate by assumption.
    rewrite mirror_insert; [reflexivity|assumption|].
    unfold ndim in Hk. lia.
  - split; [now rewrite !(call_flip_axis i k _ w A)|].
    simpl. rewrite take_app_length. auto.
Qed.

(** ** The random variable generator *)

Section Generator.

Context `{RS : RandomSource} `{LM : Libm}.

Lemma run_seed (seed : option Z) (w : world) :
  (exists w', np_random_seed seed w = (Ok tt, w') /\ heap w' = heap w /\ frame w' = frame w)
  \/ np_random_seed seed w = (Raise (ValueError "Seed must be between 0 and 2**32 - 1"), w).
Proof.
  unfold np_random_seed. destruct seed as [s|].
  - destruct ((0 <=? s)%Z && (s <? 2 ^ 32)%Z); eauto.
  - eauto.
Qed.

Lemma run_uniform (low high : float) (size : nat) (w : world) :
  (exists a w', np_random_uniform low high size w = (Ok a, w')
                /\ shape a = [size] /\ heap w' = heap w /\ frame w' = frame w)
  \/ np_random_uniform low high size w = (Raise (OverflowError "Range exceeds valid bounds"), w).
Proof.
  unfold np_random_uniform. destruct (is_finite (high - low)); [left|now right].
  rewrite run_bind. unfold draw.
  destruct (rk_fill size rk_double (generator w)) as [us g]. simpl. eauto 10.
Qed.

Lemma run_randint (low high : Z) (size : nat) (w : world) :
  (low < high)%Z ->
  exists a w', np_random_randint low high size w = (Ok a, w')
               /\ shape a = [size] /\ heap w' = heap w /\ frame w' = frame w.
Proof.
  intros Hlt. unfold np_random_randint.
  destruct (Z.leb_spec high low); [lia|].
  rewrite run_bind. unfold draw.
  destruct (rk_fill size (rk_bounded (high - 1 - low)) (generator w)) as [vs g].
  simpl. eauto 10.
Qed.

Lemma run_lognormal (mean sigma : float) (size : nat) (w : world) :
  PrimFloat.ltb sigma 0 = false ->
  exists a w', np_random_lognormal mean sigma size w = (Ok a, w')
               /\ shape a = [size] /\ heap w' = heap w /\ frame w' = frame w.
Proof.
  intros Hs. unfold np_random_lognormal. rewrite Hs.
  rewrite run_bind. unfold draw.
  destruct (rk_fill size rk_gauss (generator w)) as [gs g].
  simpl. eauto 10.
Qed.

Lemma random_generator_unsupported (interval : float * float) (size : nat)
  (dist : string) (seed : option Z) (w : world) :
  dist <> "uniform"%string -> dist <> "lognormal"%string ->
  random_generator interval size dist seed w = (Raise UnsupportedDistribution, w).
Proof.
  intros Hu Hl. unfold random_generator.
  destruct (String.eqb_spec dist "uniform"); [contradiction|].
  destruct (String.eqb_spec dist "lognormal"); [contradiction|].
  reflexivity.
Qed.

Lemma random_generator_uniform (interval : float * float) (size : nat)
  (seed : option Z) (w : world) :
  random_generator interval size "uniform" seed w =
  (np_random_seed seed;; np_random_uniform (fst interval) (snd interval) size) w.
Proof. reflexivity. Qed.

Lemma random_generator_supported (interval : float * float) (size : nat)
  (dist : string) (seed : option Z) (w : world) :
  dist = "uniform"%string \/ dist = "lognormal"%string ->
  fst (random_generator interval size dist seed w) <> Raise UnsupportedDistribution.
Proof.
  intros [-> | ->].
  - rewrite random_generator_uniform.
    destruct (run_seed seed w) as [(w1 & E1 & _)|E1];
      [rewrite (run_bind_ok _ _ _ _ _ E1)
      |rewrite (run_bind_raise _ _ _ _ _ E1); discriminate].
    destruct (run_uniform (fst interval) (snd interval) size w1)
      as [(a & w2 & -> & _)| ->]; discriminate.
  - change (random_generator interval size "lognormal" seed)
      with (np_random_seed seed;;
            sign ← np_random_randint 0 2 size;
            np_random_seed seed;;
            random_variables ← np_random_lognormal 0 1 size;
            mret (mk_array (shape (array_map (fun x => x / 12.5)%float random_variables))
                    (zip_with (fun x s => x * (s * snd interval))%float
                       (data (array_map (fun x => x / 12.5)%float random_variables))
                       (data (array_map float_of_Z
                                (array_map (fun z => z * 2 - 1)%Z sign)))))).
    destruct (run_seed seed w) as [(w1 & E1 & _)|E1];
      [rewrite (run_bind_ok _ _ _ _ _ E1)
      |rewrite (run_bind_raise _ _ _ _ _ E1); discriminate].
    destruct (run_randint 0 2 size w1) as (sign & w2 & E2 & _); [lia|].
    rewrite (run_bind_ok _ _ _ _ _ E2).
    destruct (run_seed seed w2) as [(w3 & E3 & _)|E3];
      [rewrite (run_bind_ok _ _ _ _ _ E3)
      |rewrite (run_bind_raise _ _ _ _ _ E3); discriminate].
    destruct (run_lognormal 0 1 size w3) as (rv & w4 & E4 & _); [reflexivity|].
    rewrite (run_bind_ok _ _ _ _ _ E4). discriminate.
Qed.

End Generator.

(** C4. [random_generator] raises the exception of the last branch,
    [ValueError("Unsupported sampling distribution.")], exactly when [dist]
    is neither "uniform" nor "lognormal" -- before the generator is touched
    -- and so for [random_generator((0, 1), 5, "bogus")]; the two supported
    branches never raise it. *)
Theorem random_generator_unsupported_iff `{RS : RandomSource} `{LM : Libm}
  (interval : float * float) (size : nat) (dist : string) (seed : option Z)
  (w : world) :
  (fst (random_generator interval size dist seed w) = Raise UnsupportedDistribution
   <-> dist <> "uniform"%string /\ dist <> "lognormal"%string)
  /\ (dist <> "uniform"%string /\ dist <> "lognormal"%string ->
      snd (random_generator interval size dist seed w) = w)
  /\ random_generator (0%float, 1%float) 5 "bogus" seed w
     = (Raise UnsupportedDistribution, w).
Proof.
  split; [split|split].
  - intros Hr.
    destruct (String.eqb_spec dist "uniform") as [Hu|Hu];
      [exfalso; apply (random_generator_supported _ _ _ _ _ (or_introl Hu) Hr)|].
    destruct (String.eqb_spec dist "lognormal") as [Hl|Hl];
      [exfalso; apply (random_generator_supported _ _ _ _ _ (or_intror Hl) Hr)|].
    auto.
  - intros [Hu Hl]. now rewrite random_generator_unsupported.
  - intros [Hu Hl]. now rewrite random_generator_unsupported.
  - apply random_generator_unsupported; discriminate.
Qed.

(** ** The arrays of the caller are never written *)

Section Preservation.

Context `{RS : RandomSource}.

Lemma hoare_bind {A B} (P : world -> Prop) (m : M A) (f : A -> M B)
  (Q : A -> world -> Prop) (R : B -> world -> Prop) (E : world -> Prop) :
  hoare P m Q E -> (forall a, hoare (Q a) (f a) R E) -> hoare P (m ≫= f) R E.
Proof.
  intros Hm Hf w Hw. rewrite run_bind. specialize (Hm w Hw).
  destruct (m w) as [[a|e] w']; [|exact Hm].
  apply (Hf a w' Hm).
Qed.

Lemma hoare_pure {A} (P : world -> Prop) (phi : Prop) (m : M A)
  (Q : A -> world -> Prop) (E : world -> Prop) :
  (phi -> hoare P m Q E) -> hoare (fun w => P w /\ phi) m Q E.
Proof. intros H w [Hw Hphi]. now apply H. Qed.

Lemma preserves_bind_hoare {A B} h (m : M A) (f : A -> M B) (phi : A -> Prop)
  (R : B -> world -> Prop) :
  preserves h m phi ->
  (forall a, phi a -> hoare (keeps h) (f a) R (keeps h)) ->
  hoare (keeps h) (m ≫= f) R (keeps h).
Proof.
  intros Hm Hf. eapply hoare_bind; [exact Hm|].
  intros a. apply hoare_pure. apply Hf.
Qed.

Lemma preserves_bind {A B} h (m : M A) (f : A -> M B) (phi : A -> Prop)
  (psi : B -> Prop) :
  preserves h m phi -> (forall a, phi a -> preserves h (f a) psi) ->
  preserves h (m ≫= f) psi.
Proof. apply preserves_bind_hoare. Qed.

Lemma preserves_ret {A} h (a : A) (phi : A -> Prop) :
  phi a -> preserves h (mret a) phi.
Proof. intros Ha w Hw. rewrite run_ret. auto. Qed.

Lemma preserves_raise {A} h (e : exn) (phi : A -> Prop) :
  preserves h (raise e) phi.
Proof. intros w Hw. exact Hw. Qed.

Lemma preserves_lift {A} h (r : result A) :
  preserves h (lift r) (fun a => r = Ok a).
Proof. intros w Hw. unfold lift. destruct r; auto. Qed.

Lemma preserves_deref h (r : ref) :
  preserves h (deref r) (fun a => forall i, r = Caller i -> h !! i = Some a).
Proof.
  intros w Hw. unfold deref.
  destruct (lookup_ref r w) as [a|] eqn:E; [|exact Hw].
  split; [exact Hw|]. intros i ->. simpl in E. now rewrite <- Hw.
Qed.

Lemma preserves_new h (r : result (ndarray float)) : preserves h (new r) is_local.
Proof. intros w Hw. destruct r; simpl; auto. Qed.

Lemma preserves_inplace h (r : ref) (f : ndarray float -> result (ndarray float)) :
  is_local r -> preserves h (inplace r f) (fun _ => True).
Proof.
  intros Hr w Hw. destruct r as [i|i]; [destruct Hr|].
  unfold inplace. destruct (lookup_ref (Local i) w); [|exact Hw].
  destruct (f n); [|exact Hw]. simpl. auto.
Qed.

Lemma preserves_draw {A} h (f : rk_state -> A * rk_state) :
  preserves h (draw f) (fun _ => True).
Proof. intros w Hw. unfold draw. destruct (f (generator w)). simpl. auto. Qed.

Lemma preserves_seed h (seed : option Z) :
  preserves h (np_random_seed seed) (fun _ => True).
Proof.
  intros w Hw. unfold np_random_seed. destruct seed as [s|]; simpl; auto.
  destruct ((0 <=? s)%Z && (s <? 2 ^ 32)%Z); simpl; auto.
Qed.

Lemma preserves_uniform h (low high : float) (size : nat) :
  preserves h (np_random_uniform low high size) (fun a => shape a = [size]).
Proof.
  unfold np_random_uniform. destruct (is_finite (high - low));
    [|apply preserves_raise].
  eapply preserves_bind; [apply preserves_draw|].
  intros us _. now apply preserves_ret.
Qed.

Lemma preserves_randint h (low high : Z) (size : nat) :
  preserves h (np_random_randint low high size) (fun a => shape a = [size]).
Proof.
  unfold np_random_randint. destruct (high <=? low)%Z; [apply preserves_raise|].
  eapply preserves_bind; [apply preserves_draw|].
  intros vs _. now apply preserves_ret.
Qed.

Lemma preserves_lognormal `{LM : Libm} h (mean sigma : float) (size : nat) :
  preserves h (np_random_lognormal mean sigma size) (fun a => shape a = [size]).
Proof.
  unfold np_random_lognormal. destruct (PrimFloat.ltb sigma 0);
    [apply preserves_raise|].
  eapply preserves_bind; [apply preserves_draw|].
  intros gs _. now apply preserves_ret.
Qed.

Lemma preserves_random_generator `{LM : Libm} h (interval : float * float)
  (size : nat) (dist : string) (seed : option Z) :
  preserves h (random_generator interval size dist seed) (fun a => shape a = [size]).
Proof.
  unfold random_generator.
  destruct (String.eqb dist "uniform").
  { eapply preserves_bind; [apply preserves_seed|]. intros _ _.
    apply preserves_uniform. }
  destruct (String.eqb dist "lognormal"); [|apply preserves_raise].
  eapply preserves_bind; [apply preserves_seed|]. intros _ _.
  eapply preserves_bind; [apply preserves_randint|]. intros sign _.
  eapply preserves_bind; [apply preserves_seed|]. intros _ _.
  eapply preserves_bind; [apply preserves_lognormal|]. intros rv Hrv.
  apply preserves_ret. exact Hrv.
Qed.

Lemma hoare_new_shaped h (r : result (ndarray float)) (sh : list nat) :
  (forall a, r = Ok a -> shape a = sh) ->
  hoare (keeps h) (new r)
        (fun r w => keeps h w /\ new_with_shape sh r w) (keeps h).
Proof.
  intros Hsh w Hw. destruct r as [a|e]; [|exact Hw].
  rewrite run_new_ok. split; [exact Hw|].
  eexists _, _. split; [reflexivity|].
  split; [simpl; apply list_lookup_middle; reflexivity|now apply Hsh].
Qed.

Lemma hoare_new_reshape h (t : ndarray float) (sh : list nat) :
  hoare (keeps h) (new (np.reshape t sh))
        (fun r w => keeps h w /\ new_with_shape sh r w) (keeps h).
Proof.
  apply hoare_new_shaped. intros a. unfold np.reshape.
  destruct (length (data t) =? prod sh); [|discriminate].
  now intros [= <-].
Qed.

Lemma hoare_flip h (i : nat) (A : ndarray float) (axis seed : option Z) :
  h !! i = Some A ->
  hoare (keeps h) (flip (Caller i) axis seed)
        (fun r w => keeps h w /\ new_with_shape (shape A) r w) (keeps h).
Proof.
  intros HA. unfold flip.
  eapply preserves_bind_hoare with (phi := fun _ => True).
  - destruct axis as [k|]; [now apply preserves_ret|].
    eapply preserves_bind; [apply preserves_seed|]. intros _ _.
    eapply preserves_bind; [apply preserves_deref|]. intros a _.
    eapply preserves_bind; [apply preserves_randint|]. intros draws _.
    now apply preserves_ret.
  - intros axis' _.
    eapply preserves_bind_hoare; [apply preserves_deref|]. intros a Ha.
    specialize (Ha i eq_refl). rewrite HA in Ha. injection Ha as <-.
    apply hoare_new_shaped. intros b. unfold np.flip.
    destruct (np.normalize_axis_index axis' (ndim A)); [|discriminate].
    simpl. now intros [= <-].
Qed.

End Preservation.

Ltac preserve_with lem :=
  eapply preserves_bind; [apply lem|]; intros ? ?.

Ltac preserve_step :=
  first
    [ apply preserves_raise
    | preserve_with preserves_deref
    | preserve_with preserves_lift
    | preserve_with preserves_seed
    | preserve_with preserves_draw
    | preserve_with preserves_new
    | preserve_with preserves_uniform ].

Section PreservationOfPrograms.

Context `{RS : RandomSource} `{LM : Libm} `{SP : Scipy} `{TR : !Transform}.

Lemma preserves_affine_draws h (arr : ref) (rotation translation : magnitude)
  (zoom : float) (dist : string) (seed : option Z) :
  preserves h (affine_draws arr rotation translation zoom dist seed) (fun _ => True).
Proof.
  unfold affine_draws.
  do 3 preserve_step.
  preserve_with (preserves_random_generator (LM := LM)).
  preserve_step.
  preserve_with (preserves_random_generator (LM := LM)).
  do 3 preserve_step.
  now apply preserves_ret.
Qed.

Lemma hoare_affine h (i : nat) (A : ndarray float)
  (rotation translation : magnitude) (zoom : float) (order : Z)
  (dist : string) (seed : option Z) :
  h !! i = Some A ->
  hoare (keeps h)
        (affine (Caller i) rotation translation zoom order dist seed)
        (fun r w => keeps h w /\ new_with_shape (shape A) r w) (keeps h).
Proof.
  intros HA. unfold affine.
  eapply preserves_bind_hoare; [apply preserves_affine_draws|].
  intros [[rr rt] rz] _.
  eapply preserves_bind_hoare; [apply preserves_lift|]. intros rr' _.
  eapply preserves_bind_hoare; [apply preserves_lift|]. intros aff _.
  eapply preserves_bind_hoare; [apply preserves_deref|]. intros a Ha.
  specialize (Ha i eq_refl). rewrite HA in Ha. injection Ha as <-.
  eapply preserves_bind_hoare; [apply preserves_lift|]. intros flow _.
  eapply preserves_bind_hoare; [apply preserves_lift|]. intros locs _.
  eapply preserves_bind_hoare; [apply preserves_deref|]. intros a' _.
  eapply preserves_bind_hoare; [apply preserves_lift|]. intros transformed _.
  apply hoare_new_reshape.
Qed.

Lemma preserves_gaussian_random_field h (sh : list nat) (alpha : float)
  (normalize : bool) (seed : option Z) :
  preserves h (gaussian_random_field sh alpha normalize seed) is_local.
Proof.
  unfold gaussian_random_field. do 2 preserve_step. apply preserves_new.
Qed.

Lemma preserves_axis_flow h (arr : ref) (alpha : float) (seed : option Z) :
  preserves h (axis_flow arr alpha seed) is_local.
Proof.
  unfold axis_flow. preserve_step.
  preserve_with preserves_gaussian_random_field.
  do 2 preserve_step.
  eapply preserves_bind; [apply preserves_inplace; assumption|]. intros _ _.
  do 3 preserve_step.
  apply preserves_new.
Qed.

Lemma preserves_displacement_field h (arr : ref) (alpha : float) (seed : option Z) :
  preserves h (displacement_field arr alpha seed) is_local.
Proof.
  unfold displacement_field.
  do 3 preserve_with preserves_axis_flow.
  do 3 preserve_step.
  apply preserves_new.
Qed.

Lemma preserves_displacement h (arr : ref) (max_displacement alpha : float)
  (seed : option Z) :
  preserves h (displacement arr max_displacement alpha seed) is_local.
Proof.
  unfold displacement.
  eapply preserves_bind; [apply preserves_displacement_field|]. intros flow Hflow.
  eapply preserves_bind; [apply preserves_inplace; assumption|]. intros _ _.
  now apply preserves_ret.
Qed.

Lemma hoare_warp h (i : nat) (A : ndarray float) (flow : ref) (order : Z) :
  h !! i = Some A -> is_local flow ->
  hoare (keeps h) (warp (Caller i) flow order)
        (fun r w => keeps h w /\ new_with_shape (shape A) r w) (keeps h).
Proof.
  intros HA Hflow. unfold warp.
  eapply preserves_bind_hoare; [apply preserves_deref|]. intros a _.
  eapply preserves_bind_hoare; [apply preserves_new|]. intros locs Hlocs.
  eapply preserves_bind_hoare; [apply preserves_deref|]. intros f _.
  eapply preserves_bind_hoare; [apply preserves_inplace; assumption|]. intros _ _.
  eapply preserves_bind_hoare; [apply preserves_deref|]. intros l _.
  eapply preserves_bind_hoare; [apply preserves_lift|]. intros locs2 _.
  eapply preserves_bind_hoare; [apply preserves_deref|]. intros a1 _.
  eapply preserves_bind_hoare; [apply preserves_lift|]. intros transformed _.
  eapply preserves_bind_hoare; [apply preserves_deref|]. intros a2 Ha.
  specialize (Ha i eq_refl). rewrite HA in Ha. injection Ha as <-.
  apply hoare_new_reshape.
Qed.

Lemma hoare_deformation h (i : nat) (A : ndarray float)
  (max_displacement alpha : float) (order : Z) (seed : option Z) :
  h !! i = Some A ->
  hoare (keeps h) (deformation (Caller i) max_displacement alpha order seed)
        (fun r w => keeps h w /\ new_with_shape (shape A) r w) (keeps h).
Proof.
  intros HA. unfold deformation.
  eapply preserves_bind_hoare; [apply preserves_displacement|].
  intros flow Hflow. now apply hoare_warp.
Qed.

(** A call whose body keeps the arrays of the caller and returns a new
    array of shape [sh] hands the caller one more array, of that shape, and
    nothing else of the caller's changes. *)
Lemma call_new_with_shape (body : M ref) (sh : list nat) (w : world) :
  hoare (keeps (heap w)) body
        (fun r w' => keeps (heap w) w' /\ new_with_shape sh r w') (keeps (heap w)) ->
  match call body w with
  | (Ok r, w') =>
      exists out, r = Caller (length (heap w))
                  /\ heap w' = heap w ++ [out]
                  /\ shape out = sh
                  /\ frame w' = frame w
  | (Raise _, w') => heap w' = heap w /\ frame w' = frame w
  end.
Proof.
  intros H. specialize (H (set_frame [] w) eq_refl). unfold call.
  destruct (body (set_frame [] w)) as [[r|e] w']; [|split; [exact H|reflexivity]].
  destruct H as (Hk & j & out & -> & Hj & Hsh). rewrite Hj.
  exists out. unfold keeps in Hk. simpl. rewrite Hk. auto.
Qed.

End PreservationOfPrograms.

(** ** Two runs from the same seed *)

Section Agreement.

Context `{RS : RandomSource}.

Lemma agree_bind {A B} (P Q R : world -> world -> Prop) (m : M A) (f : A -> M B) :
  agree P m Q -> (forall a, agree Q (f a) R) -> agree P (m ≫= f) R.
Proof.
  intros Hm Hf w1 w2 HP. rewrite !run_bind. specialize (Hm w1 w2 HP).
  destruct (m w1) as [[a1|e1] w1'], (m w2) as [[a2|e2] w2']; try contradiction.
  - destruct Hm as [<- HQ]. apply (Hf a1 w1' w2' HQ).
  - exact Hm.
Qed.

Lemma agree_bind_local {B} (P Q R : world -> world -> Prop) (m : M ref)
  (f : ref -> M B) :
  agree P m Q -> (forall h, preserves h m is_local) ->
  (forall r, is_local r -> agree Q (f r) R) -> agree P (m ≫= f) R.
Proof.
  intros Hm Hloc Hf w1 w2 HP. rewrite !run_bind. specialize (Hm w1 w2 HP).
  specialize (Hloc (heap w1) w1 eq_refl).
  destruct (m w1) as [[a1|e1] w1'], (m w2) as [[a2|e2] w2']; try contradiction.
  - destruct Hm as [<- HQ]. destruct Hloc as [_ Hloc]. apply (Hf a1 Hloc w1' w2' HQ).
  - exact Hm.
Qed.

Lemma agree_ret {A} (P : world -> world -> Prop) (a : A) : agree P (mret a) P.
Proof. intros w1 w2 HP. rewrite !run_ret. auto. Qed.

Lemma agree_raise {A} (P Q : world -> world -> Prop) (e : exn) :
  agree P (raise e : M A) Q.
Proof. intros w1 w2 HP. reflexivity. Qed.

Lemma agree_lift {A} (P : world -> world -> Prop) (r : result A) :
  agree P (lift r) P.
Proof. intros w1 w2 HP. unfold lift. destruct r; auto. Qed.

Ltac related_done :=
  try reflexivity;
  unfold related, with_generator, same_arrays in *; simpl;
  repeat split; auto; congruence.

Lemma same_arrays_blind (i : nat) : generator_blind (same_arrays i).
Proof. intros w1 w2 g1 g2 u1 u2 n1 n2 H. exact H. Qed.

Lemma agree_deref_caller (i : nat) (g : bool) :
  agree (related i g) (deref (Caller i)) (related i g).
Proof.
  intros w1 w2 HP. unfold deref. simpl. destruct HP as ((Hi & Hf) & Hg).
  rewrite Hi. destruct (heap w2 !! i) eqn:E; related_done.
Qed.

Lemma agree_deref_local (i : nat) (g : bool) (r : ref) :
  is_local r -> agree (related i g) (deref r) (related i g).
Proof.
  intros Hr w1 w2 HP. destruct r as [j|j]; [destruct Hr|].
  unfold deref. simpl. destruct HP as ((Hi & Hf) & Hg).
  rewrite Hf. destruct (frame w2 !! j); related_done.
Qed.

Lemma agree_new (i : nat) (g : bool) (r : result (ndarray float)) :
  agree (related i g) (new r) (related i g).
Proof.
  intros w1 w2 HP. destruct HP as ((Hi & Hf) & Hg).
  destruct r as [a|e]; [|reflexivity].
  rewrite !run_new_ok, Hf. related_done.
Qed.

Lemma agree_inplace (i : nat) (g : bool) (r : ref)
  (f : ndarray float -> result (ndarray float)) :
  is_local r -> agree (related i g) (inplace r f) (related i g).
Proof.
  intros Hr w1 w2 HP. destruct r as [j|j]; [destruct Hr|].
  unfold inplace. simpl. destruct HP as ((Hi & Hf) & Hg).
  rewrite Hf. destruct (frame w2 !! j) as [a|]; [|reflexivity].
  destruct (f a); related_done.
Qed.

(** The steps of the generator, under any relation on the arrays. *)
Section Draws.

Variable X : world -> world -> Prop.
Hypothesis X_blind : generator_blind X.

Lemma agree_seed (g : bool) (s : Z) :
  agree (with_generator X g) (np_random_seed (Some s)) (with_generator X true).
Proof.
  intros w1 w2 [HX Hg]. unfold np_random_seed.
  destruct ((0 <=? s)%Z && (s <? 2 ^ 32)%Z); [|reflexivity].
  split; [reflexivity|]. split; [apply X_blind, HX|reflexivity].
Qed.

Lemma agree_draw {A} (f : rk_state -> A * rk_state) :
  agree (with_generator X true) (draw f) (with_generator X true).
Proof.
  intros w1 w2 [HX Hg]. unfold draw.
  rewrite (Hg eq_refl). destruct (f (generator w2)) as [x g'].
  split; [reflexivity|]. split; [apply X_blind, HX|reflexivity].
Qed.

Lemma agree_uniform (low high : float) (size : nat) :
  agree (with_generator X true) (np_random_uniform low high size)
        (with_generator X true).
Proof.
  unfold np_random_uniform. destruct (is_finite (high - low)); [|apply agree_raise].
  eapply agree_bind; [apply agree_draw|]. intros us. apply agree_ret.
Qed.

Lemma agree_randint (low high : Z) (size : nat) :
  agree (with_generator X true) (np_random_randint low high size)
        (with_generator X true).
Proof.
  unfold np_random_randint. destruct (high <=? low)%Z; [apply agree_raise|].
  eapply agree_bind; [apply agree_draw|]. intros vs. apply agree_ret.
Qed.

Lemma agree_lognormal `{LM : Libm} (mean sigma : float) (size : nat) :
  agree (with_generator X true) (np_random_lognormal mean sigma size)
        (with_generator X true).
Proof.
  unfold np_random_lognormal. destruct (PrimFloat.ltb sigma 0); [apply agree_raise|].
  eapply agree_bind; [apply agree_draw|]. intros gs. apply agree_ret.
Qed.

(** Seeded, [random_generator] returns the same vector whatever the state
    of the generator before the call. *)
Lemma agree_random_generator `{LM : Libm} (g : bool)
  (interval : float * float) (size : nat) (dist : string) (s : Z) :
  agree (with_generator X g) (random_generator interval size dist (Some s))
        (with_generator X true).
Proof.
  unfold random_generator.
  destruct (String.eqb dist "uniform").
  { eapply agree_bind; [apply agree_seed|]. intros _. apply agree_uniform. }
  destruct (String.eqb dist "lognormal"); [|apply agree_raise].
  eapply agree_bind; [apply agree_seed|]. intros _.
  eapply agree_bind; [apply agree_randint|]. intros sign.
  eapply agree_bind; [apply agree_seed|]. intros _.
  eapply agree_bind; [apply agree_lognormal|]. intros rv.
  apply agree_ret.
Qed.

End Draws.

Section Programs.

Context `{LM : Libm} `{SP : Scipy} `{TR : !Transform}.

Lemma agree_affine_draws (i : nat) (g : bool) (rotation translation : magnitude)
  (zoom : float) (dist : string) (s : Z) :
  agree (related i g)
        (affine_draws (Caller i) rotation translation zoom dist (Some s))
        (related i true).
Proof.
  unfold affine_draws.
  eapply agree_bind; [apply agree_lift|]. intros rot.
  eapply agree_bind; [apply agree_lift|]. intros tr.
  eapply agree_bind; [apply agree_deref_caller|]. intros a.
  eapply agree_bind; [apply agree_random_generator, same_arrays_blind|]. intros rr.
  eapply agree_bind; [apply agree_deref_caller|]. intros a1.
  eapply agree_bind; [apply agree_random_generator, same_arrays_blind|]. intros rt.
  eapply agree_bind; [apply agree_seed, same_arrays_blind|]. intros _.
  eapply agree_bind; [apply agree_deref_caller|]. intros a2.
  eapply agree_bind; [apply agree_uniform, same_arrays_blind|]. intros rz.
  apply agree_ret.
Qed.

Lemma agree_affine (i : nat) (g : bool) (rotation translation : magnitude)
  (zoom : float) (order : Z) (dist : string) (s : Z) :
  agree (related i g)
        (affine (Caller i) rotation translation zoom order dist (Some s))
        (related i true).
Proof.
  unfold affine.
  eapply agree_bind; [apply agree_affine_draws|]. intros [[rr rt] rz].
  eapply agree_bind; [apply agree_lift|]. intros rr'.
  eapply agree_bind; [apply agree_lift|]. intros aff.
  eapply agree_bind; [apply agree_deref_caller|]. intros a.
  eapply agree_bind; [apply agree_lift|]. intros flow.
  eapply agree_bind; [apply agree_lift|]. intros locs.
  eapply agree_bind; [apply agree_deref_caller|]. intros a1.
  eapply agree_bind; [apply agree_lift|]. intros transformed.
  apply agree_new.
Qed.

Lemma agree_flip_axis (i : nat) (g : bool) (k : Z) (seed : option Z) :
  agree (related i g) (flip (Caller i) (Some k) seed) (related i g).
Proof.
  unfold flip.
  eapply agree_bind; [apply agree_ret|]. intros axis.
  eapply agree_bind; [apply agree_deref_caller|]. intros a.
  apply agree_new.
Qed.

Lemma agree_flip_random (i : nat) (g : bool) (s : Z) :
  agree (related i g) (flip (Caller i) None (Some s)) (related i true).
Proof.
  unfold flip.
  eapply agree_bind.
  { eapply agree_bind; [apply agree_seed, same_arrays_blind|]. intros _.
    eapply agree_bind; [apply agree_deref_caller|]. intros a.
    eapply agree_bind; [apply agree_randint, same_arrays_blind|]. intros draws.
    apply agree_ret. }
  intros axis.
  eapply agree_bind; [apply agree_deref_caller|]. intros a.
  apply agree_new.
Qed.

Lemma agree_gaussian_random_field (i : nat) (g : bool) (sh : list nat)
  (alpha : float) (normalize : bool) (s : Z) :
  agree (related i g) (gaussian_random_field sh alpha normalize (Some s))
        (related i true).
Proof.
  unfold gaussian_random_field.
  eapply agree_bind; [apply agree_seed, same_arrays_blind|]. intros _.
  eapply agree_bind; [apply agree_draw, same_arrays_blind|]. intros field.
  apply agree_new.
Qed.

Lemma agree_axis_flow (i : nat) (g : bool) (alpha : float) (s : Z) :
  agree (related i g) (axis_flow (Caller i) alpha (Some s)) (related i true).
Proof.
  unfold axis_flow.
  eapply agree_bind; [apply agree_deref_caller|]. intros a.
  eapply agree_bind_local;
    [apply agree_gaussian_random_field
    |intros h; apply preserves_gaussian_random_field|].
  intros flow_x Hloc.
  eapply agree_bind; [apply agree_deref_local; assumption|]. intros f.
  eapply agree_bind; [apply agree_lift|]. intros maximum.
  eapply agree_bind; [apply agree_inplace; assumption|]. intros _.
  eapply agree_bind; [apply agree_deref_local; assumption|]. intros f1.
  eapply agree_bind; [apply agree_deref_caller|]. intros a1.
  eapply agree_bind; [apply agree_lift|]. intros depth.
  apply agree_new.
Qed.

Lemma agree_displacement_field (i : nat) (g : bool) (alpha : float) (s : Z) :
  agree (related i g) (displacement_field (Caller i) alpha (Some s)) (related i true).
Proof.
  unfold displacement_field.
  eapply agree_bind_local;
    [apply agree_axis_flow|intros h; apply preserves_axis_flow|].
  intros flow_x Hx.
  eapply agree_bind_local;
    [apply agree_axis_flow|intros h; apply preserves_axis_flow|].
  intros flow_y Hy.
  eapply agree_bind_local;
    [apply agree_axis_flow|intros h; apply preserves_axis_flow|].
  intros flow_z Hz.
  eapply agree_bind; [apply agree_deref_local; assumption|]. intros fx.
  eapply agree_bind; [apply agree_deref_local; assumption|]. intros fy.
  eapply agree_bind; [apply agree_deref_local; assumption|]. intros fz.
  apply agree_new.
Qed.

Lemma agree_displacement (i : nat) (g : bool) (max_displacement alpha : float)
  (s : Z) :
  agree (related i g) (displacement (Caller i) max_displacement alpha (Some s))
        (related i true).
Proof.
  unfold displacement.
  eapply agree_bind_local;
    [apply agree_displacement_field|intros h; apply preserves_displacement_field|].
  intros flow Hflow.
  eapply agree_bind; [apply agree_inplace; assumption|]. intros _.
  apply agree_ret.
Qed.

Lemma agree_warp (i : nat) (g : bool) (flow : ref) (order : Z) :
  is_local flow ->
  agree (related i g) (warp (Caller i) flow order) (related i g).
Proof.
  intros Hflow. unfold warp.
  eapply agree_bind; [apply agree_deref_caller|]. intros a.
  eapply agree_bind_local; [apply agree_new|intros h; apply preserves_new|].
  intros locs Hlocs.
  eapply agree_bind; [apply agree_deref_local; assumption|]. intros f.
  eapply agree_bind; [apply agree_inplace; assumption|]. intros _.
  eapply agree_bind; [apply agree_deref_local; assumption|]. intros l.
  eapply agree_bind; [apply agree_lift|]. intros locs2.
  eapply agree_bind; [apply agree_deref_caller|]. intros a1.
  eapply agree_bind; [apply agree_lift|]. intros transformed.
  eapply agree_bind; [apply agree_deref_caller|]. intros a2.
  apply agree_new.
Qed.

Lemma agree_deformation (i : nat) (g : bool) (max_displacement alpha : float)
  (order : Z) (s : Z) :
  agree (related i g)
        (deformation (Caller i) max_displacement alpha order (Some s))
        (related i true).
Proof.
  unfold deformation.
  eapply agree_bind_local;
    [apply agree_displacement|intros h; apply preserves_displacement|].
  intros flow Hflow. now apply agree_warp.
Qed.

End Programs.

End Agreement.

(** ** Calls *)

Section Calls.

Context `{RS : RandomSource} `{LM : Libm} `{SP : Scipy} `{TR : !Transform}.

Lemma call_hands_over (body : M ref) (A : ndarray float) (i : nat) (w : world) :
  heap w !! i = Some A ->
  hoare (keeps (heap w)) body
        (fun r w' => keeps (heap w) w' /\ new_with_shape (shape A) r w')
        (keeps (heap w)) ->
  hands_over_like A i w (call body w).
Proof.
  intros HA H. pose proof (call_new_with_shape body (shape A) w H) as Hc.
  unfold hands_over_like. destruct (call body w) as [[r|e] w']; [|exact Hc].
  destruct Hc as (out & -> & Hh & Hs & Hf). exists out.
  repeat split; auto. rewrite Hh. now apply lookup_app_l_Some.
Qed.

(** Two calls that start from the same input array and whose bodies agree
    show the caller the same thing. *)
Lemma call_outcome_agree (body : M ref) (i : nat) (g : bool) (w1 w2 : world) :
  agree (related i false) body (related i g) ->
  (forall h, preserves h body is_local) ->
  heap w1 !! i = heap w2 !! i ->
  outcome (call body) w1 = outcome (call body) w2.
Proof.
  intros Hag Hloc Hi.
  assert (Hrel : related i false (set_frame [] w1) (set_frame [] w2))
    by (split; [split; [exact Hi|reflexivity]|discriminate]).
  specialize (Hag _ _ Hrel).
  pose proof (Hloc (heap w1) (set_frame [] w1) eq_refl) as Hl.
  unfold outcome, call.
  destruct (body (set_frame [] w1)) as [[r1|e1] w1'],
           (body (set_frame [] w2)) as [[r2|e2] w2']; try contradiction.
  - destruct Hag as (<- & (_ & Hf) & _). destruct Hl as [_ Hl].
    destruct r1 as [j|j]; [destruct Hl|].
    rewrite Hf. destruct (frame w2' !! j) as [out|]; [|reflexivity].
    simpl. now rewrite !list_lookup_middle by reflexivity.
  - now subst.
Qed.

(** The caller sees what the body returned. *)
Lemma outcome_call (body : M ref) (w : world) :
  (forall h, preserves h body is_local) ->
  outcome (call body) w = outcome body (set_frame [] w).
Proof.
  intros Hloc. pose proof (Hloc (heap w) (set_frame [] w) eq_refl) as Hl.
  unfold outcome, call.
  destruct (body (set_frame [] w)) as [[r|e] w']; [|reflexivity].
  destruct Hl as [_ Hl]. destruct r as [j|j]; [destruct Hl|].
  simpl. destruct (frame w' !! j) as [out|]; [|reflexivity].
  simpl. now rewrite list_lookup_middle.
Qed.

(** Made twice in a row, such a call returns twice the same array. *)
Lemma twice_agree (body : M ref) (A : ndarray float) (i : nat) (g : bool)
  (w : world) :
  agree (related i false) body (related i g) ->
  (forall h, preserves h body is_local) ->
  (forall h, h !! i = Some A ->
     hoare (keeps h) body
           (fun r w' => keeps h w' /\ new_with_shape (shape A) r w') (keeps h)) ->
  heap w !! i = Some A ->
  match fst (twice (call body) w) with
  | Ok (a, b) => a = b
  | Raise e => outcome (call body) w = Raise e
  end.
Proof.
  intros Hag Hloc Hh HA.
  pose proof (call_hands_over body A i w HA (Hh _ HA)) as H1.
  unfold hands_over_like in H1.
  assert (Hsame : forall w1, heap w1 !! i = Some A ->
            outcome (call body) w1 = outcome (call body) w).
  { intros w1 H. eapply call_outcome_agree; eauto. congruence. }
  unfold twice. rewrite run_bind.
  destruct (call body w) as [[r1|e1] w1] eqn:E1.
  2:{ unfold outcome. now rewrite E1. }
  destruct H1 as (out1 & -> & Hheap1 & _ & HA1 & _).
  assert (Hout1 : outcome (call body) w = Ok out1).
  { unfold outcome. rewrite E1. simpl. rewrite Hheap1.
    now rewrite list_lookup_middle. }
  pose proof (call_hands_over body A i w1 HA1 (Hh _ HA1)) as H2.
  unfold hands_over_like in H2.
  specialize (Hsame w1 HA1). rewrite Hout1 in Hsame. unfold outcome in Hsame.
  rewrite run_bind.
  destruct (call body w1) as [[r2|e2] w2] eqn:E2; [|discriminate].
  destruct H2 as (out2 & -> & Hheap2 & _ & _ & _).
  simpl in Hsame. rewrite Hheap2, list_lookup_middle in Hsame by reflexivity.
  injection Hsame as ->.
  rewrite (run_bind_ok _ _ w2 w2 out1).
  2:{ apply run_deref. simpl. rewrite Hheap2, Hheap1.
      apply lookup_app_l_Some. now apply list_lookup_middle. }
  rewrite (run_bind_ok _ _ w2 w2 out1).
  2:{ apply run_deref. simpl. rewrite Hheap2. now apply list_lookup_middle. }
  reflexivity.
Qed.

Lemma preserves_flip h (arr : ref) (axis seed : option Z) :
  preserves h (flip arr axis seed) is_local.
Proof.
  unfold flip. eapply preserves_bind with (phi := fun _ => True).
  - destruct axis as [k|]; [now apply preserves_ret|].
    preserve_with preserves_seed. preserve_with preserves_deref.
    preserve_with preserves_randint. now apply preserves_ret.
  - intros axis' _. preserve_with preserves_deref. apply preserves_new.
Qed.

Lemma preserves_affine h (arr : ref) (rotation translation : magnitude)
  (zoom : float) (order : Z) (dist : string) (seed : option Z) :
  preserves h (affine arr rotation translation zoom order dist seed) is_local.
Proof.
  unfold affine.
  preserve_with (preserves_affine_draws (LM := LM)).
  destruct a as [[rr rt] rz].
  do 2 preserve_step. preserve_with preserves_deref.
  do 2 preserve_step. preserve_with preserves_deref.
  preserve_step. apply preserves_new.
Qed.

Lemma preserves_warp h (arr flow : ref) (order : Z) :
  is_local flow -> preserves h (warp arr flow order) is_local.
Proof.
  intros Hflow. unfold warp.
  preserve_with preserves_deref.
  eapply preserves_bind; [apply preserves_new|]. intros locs Hlocs.
  preserve_with preserves_deref.
  eapply preserves_bind; [apply preserves_inplace; assumption|]. intros _ _.
  preserve_with preserves_deref. preserve_step.
  preserve_with preserves_deref. preserve_step.
  preserve_with preserves_deref. apply preserves_new.
Qed.

Lemma preserves_deformation h (arr : ref) (max_displacement alpha : float)
  (order : Z) (seed : option Z) :
  preserves h (deformation arr max_displacement alpha order seed) is_local.
Proof.
  unfold deformation.
  eapply preserves_bind; [apply preserves_displacement|].
  intros flow Hflow. now apply preserves_warp.
Qed.

End Calls.

(** C1. For every input array and every integer seed [s], a transform
    called with a seed shows its caller the same thing -- the same array,
    bit for bit, or the same exception -- whatever the state of the
    process-wide generator and the entropy of the system at the time of the
    call: [affine], [flip] (with or without an axis) and [deformation].
    Called twice in a row with the same arguments, each returns twice the
    same array; so does [affine(A, seed=42)]. *)
Theorem seeded_transforms_deterministic
  `{RS : RandomSource} `{LM : Libm} `{SP : Scipy} `{TR : !Transform}
  (w1 w2 : world) (i : nat) (A : ndarray float) (s : Z)
  (rotation translation : magnitude) (zoom max_displacement alpha : float)
  (order : Z) (dist : string) (axis : option Z) :
  heap w1 !! i = Some A ->
  heap w2 !! i = Some A ->
  (outcome (call (affine (Caller i) rotation translation zoom order dist (Some s))) w1
   = outcome (call (affine (Caller i) rotation translation zoom order dist (Some s))) w2
   /\ outcome (call (flip (Caller i) axis (Some s))) w1
      = outcome (call (flip (Caller i) axis (Some s))) w2
   /\ outcome (call (deformation (Caller i) max_displacement alpha order (Some s))) w1
      = outcome (call (deformation (Caller i) max_displacement alpha order (Some s))) w2)
  /\ repeatable (call (affine (Caller i) rotation translation zoom order dist (Some s))) w1
  /\ repeatable (call (flip (Caller i) axis (Some s))) w1
  /\ repeatable (call (deformation (Caller i) max_displacement alpha order (Some s))) w1
  /\ repeatable (call (affine (Caller i) rotation translation zoom order dist (Some 42%Z))) w1.
Proof.
  intros H1 H2.
  assert (Hi : heap w1 !! i = heap w2 !! i) by congruence.
  assert (Hflip : agree (related i false) (flip (Caller i) axis (Some s))
                        (related i (match axis with Some _ => false | None => true end))).
  { destruct axis; [apply agree_flip_axis|apply agree_flip_random]. }
  split; [split; [|split]|split; [|split; [|split]]].
  - eapply call_outcome_agree;
      [apply agree_affine|intros h; apply preserves_affine|exact Hi].
  - eapply call_outcome_agree;
      [exact Hflip|intros h; apply preserves_flip|exact Hi].
  - eapply call_outcome_agree;
      [apply agree_deformation|intros h; apply preserves_deformation|exact Hi].
  - eapply twice_agree;
      [apply agree_affine|intros h; apply preserves_affine
      |intros h Hh; now apply hoare_affine|exact H1].
  - eapply twice_agree;
      [exact Hflip|intros h; apply preserves_flip
      |intros h Hh; now apply hoare_flip|exact H1].
  - eapply twice_agree;
      [apply agree_deformation|intros h; apply preserves_deformation
      |intros h Hh; now apply hoare_deformation|exact H1].
  - eapply twice_agree;
      [apply agree_affine|intros h; apply preserves_affine
      |intros h Hh; now apply hoare_affine|exact H1].
Qed.

(** ** The parameters of [affine] *)

Section AffineDraws.

Context `{RS : RandomSource} `{LM : Libm} `{SP : Scipy} `{TR : !Transform}.

Lemma anything_blind : generator_blind (fun _ _ => True).
Proof. intros w1 w2 g1 g2 u1 u2 n1 n2 H. exact I. Qed.

(** Seeded, [random_generator] depends on nothing but its arguments. *)
Lemma random_generator_seeded (interval : float * float) (size : nat)
  (dist : string) (s : Z) (w1 w2 w1' w2' : world) (a1 a2 : ndarray float) :
  random_generator interval size dist (Some s) w1 = (Ok a1, w1') ->
  random_generator interval size dist (Some s) w2 = (Ok a2, w2') ->
  a1 = a2.
Proof.
  intros E1 E2.
  pose proof (agree_random_generator _ anything_blind false interval size dist s
                w1 w2 (conj I (fun H => False_ind _ (Bool.diff_false_true H)))) as H.
  rewrite E1, E2 in H. apply H.
Qed.

Lemma affine_draws_inv (w w' : world) (i : nat) (A : ndarray float)
  (rotation translation : magnitude) (zoom : float) (dist : string)
  (seed : option Z) (rr rt rz : ndarray float) :
  heap w !! i = Some A ->
  affine_draws (Caller i) rotation translation zoom dist seed w = (Ok (rr, rt, rz), w') ->
  exists rot tr w1 w2 w3,
    interval rotation = Ok rot /\ interval translation = Ok tr
    /\ random_generator rot (ndim A) dist seed w = (Ok rr, w1)
    /\ random_generator tr (ndim A) dist seed w1 = (Ok rt, w2)
    /\ np_random_seed seed w2 = (Ok tt, w3)
    /\ np_random_uniform (1 - zoom) (1 + zoom) (ndim A) w3 = (Ok rz, w')
    /\ shape rr = [ndim A] /\ shape rt = [ndim A] /\ shape rz = [ndim A]
    /\ heap w' = heap w.
Proof.
  intros HA H. unfold affine_draws in H.
  apply run_bind_inv in H as (rot & w0 & E & H). apply run_lift_inv in E as [Erot ->].
  apply run_bind_inv in H as (tr & w0 & E & H). apply run_lift_inv in E as [Etr ->].
  apply run_bind_inv in H as (a & w0 & E & H). apply run_deref_inv in E as [Ea ->].
  simpl in Ea. rewrite HA in Ea. injection Ea as <-.
  apply run_bind_inv in H as (rr' & w1 & Err & H).
  pose proof (preserves_random_generator (heap w) rot (ndim A) dist seed w eq_refl) as P1.
  rewrite Err in P1. destruct P1 as [K1 S1].
  apply run_bind_inv in H as (a & w0 & E & H). apply run_deref_inv in E as [Ea ->].
  simpl in Ea. rewrite K1, HA in Ea. injection Ea as <-.
  apply run_bind_inv in H as (rt' & w2 & Ert & H).
  pose proof (preserves_random_generator (heap w) tr (ndim A) dist seed w1 K1) as P2.
  rewrite Ert in P2. destruct P2 as [K2 S2].
  apply run_bind_inv in H as ([] & w3 & Eseed & H).
  pose proof (preserves_seed (heap w) seed w2 K2) as P3.
  rewrite Eseed in P3. destruct P3 as [K3 _].
  apply run_bind_inv in H as (a & w0 & E & H). apply run_deref_inv in E as [Ea ->].
  simpl in Ea. rewrite K3, HA in Ea. injection Ea as <-.
  apply run_bind_inv in H as (rz' & w4 & Erz & H).
  pose proof (preserves_uniform (heap w) (1 - zoom) (1 + zoom) (ndim A) w3 K3) as P4.
  rewrite Erz in P4. destruct P4 as [K4 S4].
  rewrite run_ret in H. injection H as <- <- <- <-.
  exists rot, tr, w1, w2, w3. repeat split; auto.
Qed.

Lemma from_euler_xyz_other_width (angles : ndarray float) (n : nat) :
  shape angles = [n] -> n <> 3 -> from_euler_xyz angles = Raise EulerAnglesError.
Proof.
  intros Hs Hn. unfold from_euler_xyz. rewrite Hs.
  destruct n as [|[|[|[|n]]]]; try reflexivity. contradiction.
Qed.

(** An array that is not 3-D never gets past the rotation. *)
Lemma affine_rank_error (w : world) (i : nat) (A : ndarray float)
  (rotation translation : magnitude) (zoom : float) (order : Z)
  (dist : string) (seed : option Z) :
  heap w !! i = Some A ->
  ndim A <> 3 ->
  affine (Caller i) rotation translation zoom order dist seed w =
  match affine_draws (Caller i) rotation translation zoom dist seed w with
  | (Ok _, w') => (Raise EulerAnglesError, w')
  | (Raise e, w') => (Raise e, w')
  end.
Proof.
  intros HA Hn. unfold affine. rewrite run_bind.
  destruct (affine_draws (Caller i) rotation translation zoom dist seed w)
    as [[[[rr rt] rz]|e] w'] eqn:E; [|reflexivity].
  apply (affine_draws_inv _ _ _ A) in E as (rot & tr & w1 & w2 & w3 & H); [|exact HA].
  destruct H as (_ & _ & _ & _ & _ & _ & Hrr & _).
  rewrite run_bind. unfold lift at 1.
  now rewrite (from_euler_xyz_other_width rr (ndim A)).
Qed.

End AffineDraws.

(** C7 (amended). For every input array whose rank is neither 2 nor 3,
    [affine] raises before any affine matrix or coordinate field is built,
    though not on entry: the three parameter vectors are drawn first, and
    then the rotation rejects a vector of angles whose length is the rank
    and not 3, with [ValueError].  An exception raised while the parameters
    are drawn is the one the caller sees. *)
Theorem affine_rejects_other_ranks
  `{RS : RandomSource} `{LM : Libm} `{SP : Scipy} `{TR : !Transform}
  (w : world) (i : nat) (A : ndarray float)
  (rotation translation : magnitude) (zoom : float) (order : Z)
  (dist : string) (seed : option Z) :
  heap w !! i = Some A ->
  ndim A <> 2 ->
  ndim A <> 3 ->
  affine (Caller i) rotation translation zoom order dist seed w =
  match affine_draws (Caller i) rotation translation zoom dist seed w with
  | (Ok _, w') => (Raise EulerAnglesError, w')
  | (Raise e, w') => (Raise e, w')
  end.
Proof. intros HA _ H3. now apply (affine_rank_error w i A). Qed.

Section RanksOnSample.

Import Sample.

(** Against C7 as stated: on a 4-D array the rank is not what [affine]
    looks at first.  With an unsupported distribution the exception is that
    of [random_generator]; with valid arguments the process-wide generator
    has been reseeded and advanced by the time the rotation raises. *)
Lemma affine_rank_not_checked_on_entry :
  outcome (call (affine (Caller 0) (Scalar 10) (Scalar 10) 0.25 3 "bogus" (Some 42%Z)))
          (start [hypercube])
  = Raise UnsupportedDistribution
  /\ UnsupportedDistribution <> EulerAnglesError
  /\ fst (affine (Caller 0) (Scalar 10) (Scalar 10) 0.25 3 "uniform" (Some 42%Z)
                  (start [hypercube]))
     = Raise EulerAnglesError
  /\ generator (snd (affine (Caller 0) (Scalar 10) (Scalar 10) 0.25 3 "uniform"
                             (Some 42%Z) (start [hypercube])))
     <> generator (start [hypercube]).
Proof.
  split; [vm_compute; reflexivity|].
  split; [discriminate|].
  split; [vm_compute; reflexivity|].
  vm_compute. discriminate.
Qed.

End RanksOnSample.

(** C8 (what the code does). With a seed, the rotation angles and the
    translation offsets of [affine] are drawn after reseeding the generator
    with that same seed: when the two intervals are equal, the two vectors
    are the same vector. *)
Theorem affine_draws_share_seed
  `{RS : RandomSource} `{LM : Libm} `{SP : Scipy} `{TR : !Transform}
  (w w' : world) (i : nat) (A : ndarray float)
  (rotation translation : magnitude) (zoom : float) (dist : string) (s : Z)
  (random_rotations random_translations random_zooms : ndarray float) :
  heap w !! i = Some A ->
  interval rotation = interval translation ->
  affine_draws (Caller i) rotation translation zoom dist (Some s) w
  = (Ok (random_rotations, random_translations, random_zooms), w') ->
  random_rotations = random_translations.
Proof.
  intros HA Hint E.
  apply (affine_draws_inv _ _ _ A) in E as (rot & tr & w1 & w2 & w3 & H); [|exact HA].
  destruct H as (Hrot & Htr & Err & Ert & _).
  assert (rot = tr) as <- by congruence.
  eapply random_generator_seeded; eassumption.
Qed.

(** ** Spline orders outside [0, 5] *)

Section Orders.

Context `{RS : RandomSource} `{LM : Libm} `{SP : Scipy} `{TR : !Transform}.

Lemma map_coordinates_bad_order (input coordinates : ndarray float)
  (order : Z) (cval : float) :
  (order < 0 \/ 5 < order)%Z ->
  map_coordinates input coordinates order cval = Raise SplineOrderError.
Proof.
  intros H. unfold map_coordinates.
  destruct (Z.ltb_spec order 0), (Z.ltb_spec 5 order); try reflexivity. lia.
Qed.

End Orders.

Section OrdersOnSample.

Import Sample.

(** Against C6 as stated: on a 2-D array and with order 7, [affine] and
    [deformation] raise, but not on account of the order: [affine] stops at
    the rotation and [deformation] at the transposition of the grid, both
    before the interpolation is reached.  On a 3-D array the order is left
    to the interpolation, whose own error is raised once the generator has
    been reseeded and advanced. *)
Lemma order_error_preempted_by_rank :
  outcome (call (affine (Caller 0) (Scalar 10) (Scalar 10) 0.25 7 "uniform" (Some 42%Z)))
          (Sample.start [Sample.square])
  = Raise EulerAnglesError
  /\ outcome (call (deformation (Caller 0) 4 3 7 (Some 42%Z)))
             (Sample.start [Sample.square])
     = Raise (ValueError "axes don't match array")
  /\ EulerAnglesError <> SplineOrderError
  /\ ValueError "axes don't match array" <> SplineOrderError
  /\ fst (affine (Caller 0) (Scalar 10) (Scalar 10) 0.25 7 "uniform" (Some 42%Z)
                  (Sample.start [Sample.cube]))
     = Raise (RuntimeError "spline order not supported")
  /\ generator (snd (affine (Caller 0) (Scalar 10) (Scalar 10) 0.25 7 "uniform"
                             (Some 42%Z) (Sample.start [Sample.cube])))
     <> generator (Sample.start [Sample.cube]).
Proof.
  split; [vm_compute; reflexivity|].
  split; [vm_compute; reflexivity|].
  split; [discriminate|]. split; [discriminate|].
  split; [vm_compute; reflexivity|].
  vm_compute. discriminate.
Qed.

End OrdersOnSample.

(** ** The displacements of [deformation] *)

Section DisplacementOnSample.

Import Sample.

(** C5 (what the code does). Each field is divided by its maximum, not
    by its largest magnitude: on a field of zero mean and unit variance
    whose minimum is -2 and maximum 0.5, the displacement computed for
    [max_displacement = 4] reaches -16 voxels. *)
Lemma displacement_exceeds_max_displacement :
  exists F,
    outcome (call (displacement (Caller 0) 4 3 (Some 42%Z)))
            (Sample.start [Sample.column]) = Ok F
    /\ In (-16)%float (data F)
    /\ PrimFloat.ltb 4 (PrimFloat.abs (-16)) = true.
Proof.
  eexists. split; [vm_compute; reflexivity|].
  split; [simpl; auto|reflexivity].
Qed.

End DisplacementOnSample.

(** ** No displacement *)

Section Grid.

Lemma array_map_tabulate {A B} (g : A -> B) (sh : list nat) (f : list nat -> A) :
  array_map g (tabulate sh f) = tabulate sh (fun idx => g (f idx)).
Proof. unfold array_map, tabulate. simpl. now rewrite map_map. Qed.

Lemma meshgrid_3d (s0 s1 s2 : nat) :
  np.meshgrid (map np.arange [s0; s1; s2]) =
  map (fun k => tabulate [s1; s0; s2]
                  (fun idx => nth (nth k (np.swap01 idx) 0)
                                  (map Z.of_nat (seq 0 (nth k [s0; s1; s2] 0))) 0%Z))
      [0; 1; 2].
Proof.
  unfold np.meshgrid. simpl. rewrite !length_map, !length_seq. reflexivity.
Qed.

Lemma nth_concat3 {A} (d0 d1 d2 : list A) (n k m : nat) (x : A) :
  length d0 = n -> length d1 = n -> length d2 = n -> k < 3 -> m < n ->
  nth (k * n + m) (concat [d0; d1; d2]) x = nth m (nth k [d0; d1; d2] []) x.
Proof.
  intros H0 H1 H2 Hk Hm. simpl. rewrite app_nil_r.
  destruct k as [|[|[|k]]]; try lia; simpl.
  - rewrite app_nth1 by lia. reflexivity.
  - rewrite app_nth2 by lia. rewrite app_nth1 by lia. f_equal. lia.
  - rewrite app_nth2 by lia. rewrite app_nth2 by lia. f_equal. lia.
Qed.

Lemma nth_arange (s n : nat) :
  n < s -> nth n (map Z.of_nat (seq 0 s)) 0%Z = Z.of_nat n.
Proof.
  intros H. change 0%Z with (Z.of_nat 0). rewrite map_nth. now rewrite seq_nth.
Qed.

(** The identity grid of a 3-D array, as line 148 builds it. *)
Lemma identity_grid (s0 s1 s2 : nat) :
  result_map (array_map float_of_Z)
    (result_bind (np.asarray (np.meshgrid (map np.arange [s0; s1; s2])))
                 (fun grid => np.transpose grid [0; 2; 1; 3]))
  = Ok (tabulate [3; s0; s1; s2]
          (fun idx => float_of_nat (nth (S (nth 0 idx 0)) idx 0))).
Proof.
  rewrite meshgrid_3d. unfold np.asarray. 
  cbn [map forallb shape tabulate].
  rewrite !bool_decide_eq_true_2 by reflexivity.
  cbn [andb result_bind length].
  unfold np.transpose. cbn [ndim shape length Nat.eqb andb].
  change (np.is_permutation [0; 2; 1; 3]) with true.
  cbn [result_map result_bind map nth]. rewrite array_map_tabulate.
  f_equal. apply tabulate_ext. intros idx Hr.
  unfold in_range in Hr.
  apply Forall2_cons_inv_r in Hr as (k & idx1 & Hk & Hr & ->).
  apply Forall2_cons_inv_r in Hr as (a & idx2 & Ha & Hr & ->).
  apply Forall2_cons_inv_r in Hr as (b & idx3 & Hb & Hr & ->).
  apply Forall2_cons_inv_r in Hr as (c & idx4 & Hc & Hr & ->).
  apply Forall2_nil_inv_r in Hr as ->.
  unfold float_of_nat. f_equal.
  unfold getitem. cbn [shape data np.scatter length seq map np.index_of Nat.eqb nth].
  assert (Hin : in_range [s1; s0; s2] [b; a; c]) by (repeat constructor; assumption).
  change (ravel [3; s1; s0; s2] [k; b; a; c])
    with (k * prod [s1; s0; s2] + ravel [s1; s0; s2] [b; a; c]).
  rewrite (nth_concat3 _ _ _ (prod [s1; s0; s2]));
    try apply tabulate_well_formed; try assumption; [|now apply ravel_lt].
  destruct k as [|[|[|k]]]; try lia; cbn [nth];
    rewrite nth_tabulate by (now apply ravel_lt);
    rewrite unravel_ravel by assumption;
    cbn [np.swap01 nth]; now rewrite nth_arange.
Qed.

Lemma float_of_nat_not_neg_zero (n : nat) :
  Prim2SF (float_of_nat n) <> S754_zero true.
Proof.
  unfold float_of_nat, float_of_Z. destruct (Z.of_nat n) eqn:E; try lia.
  - discriminate.
  - rewrite of_uint63_spec.
    pose proof (Uint63.to_Z_bounded (Uint63.of_Z (Z.pos p))) as [Hq _].
    destruct (Uint63.to_Z (Uint63.of_Z (Z.pos p))) as [|q|q];
      [discriminate| |lia].
    simpl. unfold binary_round. destruct (shl_align _ _ _) as [mz ez].
    unfold binary_round_aux.
    destruct (shr_fexp _ _ _ _ _) as [m1 e1].
    destruct (shr_fexp _ _ _ _ _) as [m2 e2].
    destruct (shr_m m2); try discriminate.
    match goal with |- context [if ?c then _ else _] => destruct c end;
      discriminate.
Qed.

Lemma add_mul_zero (x f : float) :
  Prim2SF x <> S754_zero true -> is_finite f = true -> (x + f * 0)%float = x.
Proof.
  intros Hx Hf. apply Prim2SF_inj. rewrite add_spec, mul_spec.
  assert (Hf' : exists s, SF64mul (Prim2SF f) (Prim2SF 0%float) = S754_zero s).
  { unfold is_finite, is_nan, is_infinity in Hf.
    rewrite !FloatAxioms.eqb_spec, abs_spec in Hf.
    change (Prim2SF 0) with (S754_zero false).
    change (Prim2SF infinity) with (S754_infinity false) in Hf.
    destruct (Prim2SF f) as [s|s| |s m e]; simpl in *; try discriminate; eauto.
    all: try (destruct s; discriminate). }
  destruct Hf' as [s ->].
  destruct (Prim2SF x) as [[]|sx| |sx m e]; simpl; try reflexivity.
  - congruence.
  - destruct s; reflexivity.
Qed.

Lemma zip_with_add_zero (gs fs : list float) :
  Forall (fun g => Prim2SF g <> S754_zero true) gs ->
  Forall (fun f => is_finite f = true) fs ->
  length gs = length fs ->
  zip_with PrimFloat.add gs (map (fun v => v * 0)%float fs) = gs.
Proof.
  intros Hg. revert fs. induction Hg as [|g gs Hg _ IH]; intros fs Hf Hlen.
  - reflexivity.
  - destruct Hf as [|f fs Hf Hfs]; [discriminate|]. simpl.
    rewrite add_mul_zero by assumption. f_equal. apply IH; [assumption|].
    simpl in Hlen. lia.
Qed.

Lemma unravel_row (sh : list nat) (k m : nat) :
  m < prod sh ->
  unravel (3 :: sh) (k * prod sh + m) = k :: unravel sh m.
Proof.
  intros Hm. cbn [unravel]. assert (prod sh <> 0) by lia.
  rewrite Nat.div_add_l by assumption. rewrite Nat.div_small by assumption.
  rewrite (Nat.add_comm (k * prod sh) m), Nat.Div0.mod_add.
  rewrite Nat.mod_small by assumption.
  f_equal. lia.
Qed.

(** Sampling a 3-D array at the points of its own grid. *)
Lemma resample_identity `{SP : Scipy} (A : ndarray float) (s0 s1 s2 : nat) (order : Z) :
  shape A = [s0; s1; s2] ->
  (0 <= order <= 5)%Z ->
  let G := tabulate [3; s0; s1; s2]
             (fun idx => float_of_nat (nth (S (nth 0 idx 0)) idx 0)) in
  result_bind (result_bind (len G) (np.reshape_rows G))
    (fun locs => result_bind (map_coordinates A locs order 0)
                   (fun transformed => np.reshape transformed (shape A)))
  = Ok (tabulate (shape A) (fun idx => spline_value A order 0 (map float_of_nat idx))).
Proof.
  intros Hsh Hord G.
  set (N := prod [s0; s1; s2]).
  assert (HL : length (data G) = 3 * N).
  { unfold G, tabulate. cbn [data]. rewrite length_map, length_seq.
    unfold N. cbn [prod fold_right]. lia. }
  cbn [len G tabulate shape result_bind]. fold G.
  unfold np.reshape_rows. rewrite HL.
  replace (3 * N mod 3) with 0 by (rewrite Nat.mul_comm, Nat.Div0.mod_mul; reflexivity).
  replace (3 * N / 3) with N by (rewrite Nat.mul_comm, Nat.div_mul; lia).
  cbn [Nat.eqb orb negb result_bind].
  unfold map_coordinates.
  destruct (Z.ltb_spec order 0); [lia|]. destruct (Z.ltb_spec 5 order); [lia|].
  cbn [orb shape tail hd length]. unfold ndim. rewrite Hsh.
  cbn [length Nat.ltb Nat.leb orb negb Nat.eqb result_bind data].
  unfold np.reshape. cbn [data]. rewrite length_map, length_seq.
  replace (prod [N]) with N by (cbn [prod fold_right]; lia).
  fold N. rewrite Nat.eqb_refl. f_equal.
  unfold tabulate. f_equal. fold N.
  apply map_ext_in. intros m Hm. apply in_seq in Hm. f_equal.
  assert (Hm' : m < prod [s0; s1; s2]) by (fold N; lia).
  pose proof (unravel_in_range _ _ Hm') as Hr.
  apply Forall2_cons_inv_r in Hr as (a & u1 & Ha & Hr & E).
  apply Forall2_cons_inv_r in Hr as (b & u2 & Hb & Hr & ->).
  apply Forall2_cons_inv_r in Hr as (c & u3 & Hc & Hr & ->).
  apply Forall2_nil_inv_r in Hr as ->.
  rewrite E. cbn [seq map].
  assert (Hnth : forall k, k < 3 ->
            nth (k * N + m) (data G) 0%float = float_of_nat (nth k [a; b; c] 0)).
  { intros k Hk. unfold G. rewrite nth_tabulate.
    - unfold N. rewrite unravel_row by assumption. rewrite E. reflexivity.
    - change (prod [3; s0; s1; s2]) with (3 * N). nia. }
  rewrite !Hnth by lia. reflexivity.
Qed.

End Grid.

Section ZeroDisplacement.

Context `{RS : RandomSource} `{LM : Libm} `{SP : Scipy} `{TR : !Transform}.

Lemma run_inplace_local (n : nat) (f : ndarray float -> result (ndarray float))
  (w : world) (a a' : ndarray float) :
  frame w !! n = Some a -> f a = Ok a' ->
  inplace (Local n) f w = (Ok tt, set_frame (<[n := a']> (frame w)) w).
Proof. intros E1 E2. unfold inplace. simpl. now rewrite E1, E2. Qed.

Lemma result_bind_inv {A B} (r : result A) (f : A -> result B) (b : B) :
  result_bind r f = Ok b -> exists a, r = Ok a /\ f a = Ok b.
Proof. destruct r as [a|e]; [eauto|discriminate]. Qed.

Lemma run_warp_identity (w : world) (i j : nat) (A F0 : ndarray float)
  (s0 s1 s2 : nat) (order : Z) :
  heap w !! i = Some A ->
  shape A = [s0; s1; s2] ->
  (0 <= order <= 5)%Z ->
  frame w !! j = Some F0 ->
  shape F0 = [3; s0; s1; s2] ->
  zip_with PrimFloat.add
    (data (tabulate [3; s0; s1; s2]
             (fun idx => float_of_nat (nth (S (nth 0 idx 0)) idx 0))))
    (data F0)
  = data (tabulate [3; s0; s1; s2]
            (fun idx => float_of_nat (nth (S (nth 0 idx 0)) idx 0))) ->
  outcome (warp (Caller i) (Local j) order) w
  = Ok (tabulate (shape A) (fun idx => spline_value A order 0 (map float_of_nat idx))).
Proof.
  intros HA Hsh Hord HF HshF Hzip.
  pose proof (resample_identity A s0 s1 s2 order Hsh Hord) as Hres.
  set (G := tabulate [3; s0; s1; s2]
              (fun idx => float_of_nat (nth (S (nth 0 idx 0)) idx 0))) in *.
  cbv zeta in Hres.
  apply result_bind_inv in Hres as (locs & Hlocs & Hres).
  apply result_bind_inv in Hres as (T & HT & Hout).
  set (w1 := set_frame (frame w ++ [G]) w).
  set (w2 := set_frame (<[length (frame w) := G]> (frame w1)) w1).
  unfold outcome, warp.
  rewrite (run_bind_ok _ _ w w A) by (apply run_deref; exact HA).
  rewrite Hsh, identity_grid. fold G.
  rewrite (run_bind_ok _ _ w w1 (Local (length (frame w)))) by reflexivity.
  rewrite (run_bind_ok _ _ w1 w1 F0)
    by (apply run_deref; simpl; apply lookup_app_l_Some; exact HF).
  rewrite (run_bind_ok _ _ w1 w2 tt).
  2:{ apply (run_inplace_local _ _ _ G).
      - simpl. apply list_lookup_middle. reflexivity.
      - unfold np.add. rewrite HshF. cbn [shape G tabulate].
        rewrite bool_decide_eq_true_2 by reflexivity. fold G.
        unfold G at 1. unfold tabulate at 1. cbn [data]. f_equal.
        unfold G, tabulate in Hzip |- *. cbn [data] in Hzip. rewrite Hzip. reflexivity. }
  rewrite (run_bind_ok _ _ w2 w2 G).
  2:{ apply run_deref. simpl. apply list_lookup_insert_eq.
      rewrite length_app. simpl. lia. }
  rewrite (run_bind_ok _ _ w2 w2 locs) by (unfold lift; now rewrite Hlocs).
  rewrite (run_bind_ok _ _ w2 w2 A) by (apply run_deref; exact HA).
  rewrite (run_bind_ok _ _ w2 w2 T) by (unfold lift; now rewrite HT).
  rewrite (run_bind_ok _ _ w2 w2 A) by (apply run_deref; exact HA).
  rewrite Hout, run_new_ok, lookup_new, Hsh. reflexivity.
Qed.

End ZeroDisplacement.

Lemma run_deformation_zero_displacement
  `{RS : RandomSource} `{LM : Libm} `{SP : Scipy} `{TR : !Transform}
  (w : world) (i : nat) (A F : ndarray float) (s0 s1 s2 : nat)
  (alpha : float) (order : Z) (seed : option Z) :
  heap w !! i = Some A ->
  shape A = [s0; s1; s2] ->
  (0 <= order <= 5)%Z ->
  outcome (displacement_field (Caller i) alpha seed) w = Ok F ->
  shape F = 3 :: shape A ->
  well_formed F ->
  Forall (fun v => PrimFloat.is_finite v = true) (data F) ->
  outcome (deformation (Caller i) 0 alpha order seed) w
  = Ok (tabulate (shape A) (fun idx => spline_value A order 0 (map float_of_nat idx))).
Proof.
  intros HA Hsh Hord HF HshF HwfF Hfin.
  unfold outcome in HF.
  pose proof (preserves_displacement_field (heap w) (Caller i) alpha seed w eq_refl) as Hp.
  destruct (displacement_field (Caller i) alpha seed w) as [[flow|e] w1] eqn:E;
    [|discriminate].
  destruct Hp as [Hk Hloc]. destruct flow as [j|j]; [destruct Hloc|].
  simpl in HF. destruct (frame w1 !! j) as [F'|] eqn:EF; [|discriminate].
  injection HF as ->.
  set (F0 := array_map (fun v => v * 0)%float F).
  set (w2 := set_frame (<[j := F0]> (frame w1)) w1).
  assert (Hwarp : deformation (Caller i) 0 alpha order seed w
                  = warp (Caller i) (Local j) order w2).
  { unfold deformation, displacement.
    rewrite (run_bind_ok _ _ w w2 (Local j)); [reflexivity|].
    rewrite (run_bind_ok _ _ w w1 (Local j)) by exact E.
    rewrite (run_bind_ok _ _ w1 w2 tt); [reflexivity|].
    now apply (run_inplace_local _ _ _ F). }
  unfold outcome. rewrite Hwarp.
  apply (run_warp_identity w2 i j A F0 s0 s1 s2 order); try assumption.
  - simpl. now rewrite Hk.
  - simpl. apply list_lookup_insert_eq. eapply lookup_lt_Some; eassumption.
  - unfold F0. cbn [array_map shape]. now rewrite HshF, Hsh.
  - unfold F0. cbn [array_map data]. apply zip_with_add_zero.
    + unfold tabulate. cbn [data]. apply Forall_map. apply Forall_forall.
      intros n _. apply float_of_nat_not_neg_zero.
    + exact Hfin.
    + rewrite tabulate_well_formed, HwfF, HshF, Hsh. reflexivity.
Qed.

(** ** The statements above, on the sample implementation *)

Section OnSample.

Import Sample.

Example flip_moves_the_voxel :
  outcome (call (flip (Caller 0) (Some 0%Z) None)) (start [voxel [1; 2; 2]])
  = Ok (voxel [2; 2; 2]).
Proof. vm_compute. reflexivity. Qed.

Example flip_last_axis_of_plane :
  outcome (call (flip (Caller 0) (Some (-1)%Z) (Some 0%Z))) (start [plane])
  = Ok (mk_array [2; 3] [2; 1; 0; 5; 4; 3]%float).
Proof. vm_compute. reflexivity. Qed.

Example flip_axis_out_of_bounds :
  outcome (call (flip (Caller 0) (Some 2%Z) None)) (start [plane])
  = Raise (ValueError "axis is out of bounds for array").
Proof. vm_compute. reflexivity. Qed.

Example affine_on_cube :
  outcome (call (affine (Caller 0) (Scalar 10) (Scalar 10) 0.25 3 "uniform" (Some 42%Z)))
          (start [cube])
  = Ok cube.
Proof. vm_compute. reflexivity. Qed.

Example deformation_on_cube :
  outcome (call (deformation (Caller 0) 0 3 3 (Some 42%Z))) (start [cube]) = Ok cube.
Proof. vm_compute. reflexivity. Qed.

Example deformation_negative_seed :
  outcome (call (deformation (Caller 0) 0 3 3 (Some (-1)%Z))) (start [cube])
  = Raise (ValueError "Seed must be between 0 and 2**32 - 1").
Proof. vm_compute. reflexivity. Qed.


Lemma flip_explicit_axis_on_sample :
  (heap (start [plane]) !! 0 = Some plane
   /\ (0 <= 1 < Z.of_nat (ndim plane))%Z)
  /\ exists (r : ref) (w' : world) (B : ndarray float),
       call (flip (Caller 0) (Some 1%Z) None) (start [plane]) = (Ok r, w')
       /\ lookup_ref r w' = Some B
       /\ shape B = shape plane
       /\ (forall idx, in_range (shape plane) idx ->
             getitem B idx =
             getitem plane
               (<[Z.to_nat 1 := nth (Z.to_nat 1) (shape plane) 0 - 1
                                - nth (Z.to_nat 1) idx 0]> idx))
       /\ call (flip (Caller 0) (Some 1%Z) None) (start [plane])
          = call (flip (Caller 0) (Some 1%Z) None) (start [plane])
       /\ generator w' = generator (start [plane])
       /\ entropy_reads w' = entropy_reads (start [plane])
       /\ take (length (heap (start [plane]))) (heap w') = heap (start [plane]).
Proof.
  assert (H1 : heap (start [plane]) !! 0 = Some plane) by reflexivity.
  assert (H3 : (0 <= 1 < Z.of_nat (ndim plane))%Z)
    by (vm_compute; split; [discriminate|reflexivity]).
  split; [auto|].
  exact (flip_explicit_axis (start [plane]) 0 plane 1 None H1 H3).
Defined.

Lemma seeded_transforms_deterministic_on_sample :
  (heap (start [cube]) !! 0 = Some cube
   /\ heap (elsewhere [cube]) !! 0 = Some cube)
  /\ outcome (call (affine (Caller 0) (Scalar 10) (Scalar 10) 0.25 3 "uniform" (Some 42%Z)))
             (start [cube])
     = outcome (call (affine (Caller 0) (Scalar 10) (Scalar 10) 0.25 3 "uniform" (Some 42%Z)))
               (elsewhere [cube]).
Proof.
  assert (H1 : heap (start [cube]) !! 0 = Some cube) by reflexivity.
  assert (H2 : heap (elsewhere [cube]) !! 0 = Some cube)
    by reflexivity.
  split; [auto|].
  exact (proj1 (proj1 (seeded_transforms_deterministic
                         (start [cube]) (elsewhere [cube]) 0
                         cube 42 (Scalar 10) (Scalar 10) 0.25 4 3 3
                         "uniform" None H1 H2))).
Defined.

Lemma affine_rejects_other_ranks_on_sample :
  (heap (start [hypercube]) !! 0 = Some hypercube
   /\ ndim hypercube <> 2
   /\ ndim hypercube <> 3)
  /\ affine (Caller 0) (Scalar 10) (Scalar 10) 0.25 3 "uniform" (Some 42%Z)
            (start [hypercube])
     = match affine_draws (Caller 0) (Scalar 10) (Scalar 10) 0.25 "uniform" (Some 42%Z)
                          (start [hypercube]) with
       | (Ok _, w') => (Raise EulerAnglesError, w')
       | (Raise e, w') => (Raise e, w')
       end.
Proof.
  assert (H1 : heap (start [hypercube]) !! 0 = Some hypercube)
    by reflexivity.
  assert (H2 : ndim hypercube <> 2) by (vm_compute; discriminate).
  assert (H3 : ndim hypercube <> 3) by (vm_compute; discriminate).
  split; [auto|].
  exact (affine_rejects_other_ranks (start [hypercube]) 0 hypercube
           (Scalar 10) (Scalar 10) 0.25 3 "uniform" (Some 42%Z) H1 H2 H3).
Defined.

Lemma affine_draws_share_seed_on_sample :
  exists v z w',
    (heap (start [cube]) !! 0 = Some cube
     /\ interval (Scalar 10) = interval (Scalar 10)
     /\ affine_draws (Caller 0) (Scalar 10) (Scalar 10) 0.25 "uniform" (Some 42%Z)
                     (start [cube])
        = (Ok (mk_array [3] [(-5)%float; 2.5%float; 0%float], v, z), w'))
    /\ mk_array [3] [(-5)%float; 2.5%float; 0%float] = v.
Proof.
  eexists _, _, _.
  assert (H1 : heap (start [cube]) !! 0 = Some cube) by reflexivity.
  assert (H2 : interval (Scalar 10) = interval (Scalar 10)) by reflexivity.
  assert (H3 : affine_draws (Caller 0) (Scalar 10) (Scalar 10) 0.25 "uniform" (Some 42%Z)
                            (start [cube])
               = (Ok (mk_array [3] [(-5)%float; 2.5%float; 0%float],
                      mk_array [3] [(-5)%float; 2.5%float; 0%float],
                      mk_array [3] [0.875%float; 1.0625%float; 1%float]),
                  mk_world 31%Z (fun n => Z.of_nat n) 0 [cube] []))
    by reflexivity.
  split; [exact (conj H1 (conj H2 H3))|].
  exact (affine_draws_share_seed (start [cube]) _ 0 cube
           (Scalar 10) (Scalar 10) 0.25 "uniform" 42 _ _ _ H1 H2 H3).
Defined.

End OnSample.

(** * Further properties *)

(** ** What a step returns *)

Section Inversions.

Context `{RS : RandomSource}.

Lemma run_new_inv (r : result (ndarray float)) (w w' : world) (x : ref) :
  new r w = (Ok x, w') ->
  exists a, r = Ok a /\ x = Local (length (frame w))
            /\ w' = set_frame (frame w ++ [a]) w.
Proof.
  destruct r as [a|e]; [|discriminate].
  rewrite run_new_ok. intros [= <- <-]. eauto.
Qed.

Lemma rk_fill_length {A} (n : nat) (f : rk_state -> A * rk_state) (g : rk_state) :
  length (fst (rk_fill n f g)) = n.
Proof.
  revert g. induction n as [|n IH]; intros g; simpl; [reflexivity|].
  destruct (f g) as [x g1]. specialize (IH g1).
  destruct (rk_fill n f g1) as [xs g2]. simpl in *. now rewrite IH.
Qed.

Lemma run_draw {A} (f : rk_state -> A * rk_state) (w : world) :
  draw f w = (Ok (fst (f (generator w))), set_generator (snd (f (generator w))) w).
Proof. unfold draw. now destruct (f (generator w)). Qed.

Lemma run_seed_some (s : Z) (w : world) :
  (0 <= s < 2 ^ 32)%Z ->
  np_random_seed (Some s) w = (Ok tt, set_generator (rk_seed s) w).
Proof.
  intros Hs. unfold np_random_seed.
  destruct (Z.leb_spec 0 s); [|lia]. destruct (Z.ltb_spec s (2 ^ 32)); [|lia].
  reflexivity.
Qed.

Lemma run_seed_invalid (s : Z) (w : world) :
  (s < 0 \/ 2 ^ 32 <= s)%Z ->
  np_random_seed (Some s) w
  = (Raise (ValueError "Seed must be between 0 and 2**32 - 1"), w).
Proof.
  intros Hs. unfold np_random_seed.
  destruct (Z.leb_spec 0 s), (Z.ltb_spec s (2 ^ 32)); try reflexivity. lia.
Qed.

Lemma run_seed_inv (seed : option Z) (w w' : world) (u : unit) :
  np_random_seed seed w = (Ok u, w') ->
  heap w' = heap w /\ frame w' = frame w
  /\ match seed with
     | Some s => (0 <= s < 2 ^ 32)%Z /\ w' = set_generator (rk_seed s) w
     | None => True
     end.
Proof.
  unfold np_random_seed. destruct seed as [s|].
  - destruct (Z.leb_spec 0 s), (Z.ltb_spec s (2 ^ 32)); try discriminate.
    intros [= <- <-]. repeat split; auto.
  - intros [= <- <-]. auto.
Qed.

Lemma run_uniform_inv (low high : float) (size : nat) (w w' : world)
  (a : ndarray float) :
  np_random_uniform low high size w = (Ok a, w') ->
  a = mk_array [size]
        (map (fun u => low + (high - low) * u)%float
             (fst (rk_fill size rk_double (generator w))))
  /\ w' = set_generator (snd (rk_fill size rk_double (generator w))) w.
Proof.
  unfold np_random_uniform. destruct (is_finite (high - low)); [|discriminate].
  rewrite run_bind, run_draw, run_ret. now intros [= <- <-].
Qed.

Lemma run_randint_inv (low high : Z) (size : nat) (w w' : world)
  (a : ndarray Z) :
  np_random_randint low high size w = (Ok a, w') ->
  (low < high)%Z
  /\ a = mk_array [size]
           (map (fun v => low + v)%Z
                (fst (rk_fill size (rk_bounded (high - 1 - low)) (generator w))))
  /\ w' = set_generator
            (snd (rk_fill size (rk_bounded (high - 1 - low)) (generator w))) w.
Proof.
  unfold np_random_randint. destruct (Z.leb_spec high low); [discriminate|].
  rewrite run_bind, run_draw, run_ret. now intros [= <- <-].
Qed.

Lemma run_lognormal_inv `{LM : Libm} (mean sigma : float) (size : nat)
  (w w' : world) (a : ndarray float) :
  np_random_lognormal mean sigma size w = (Ok a, w') ->
  a = mk_array [size]
        (map (fun g => exp (mean + sigma * g))%float
             (fst (rk_fill size rk_gauss (generator w))))
  /\ w' = set_generator (snd (rk_fill size rk_gauss (generator w))) w.
Proof.
  unfold np_random_lognormal. destruct (PrimFloat.ltb sigma 0); [discriminate|].
  rewrite run_bind, run_draw, run_ret. now intros [= <- <-].
Qed.

Lemma run_randint_ok (low high : Z) (size : nat) (w : world) :
  (low < high)%Z ->
  np_random_randint low high size w
  = (Ok (mk_array [size]
           (map (fun v => low + v)%Z
                (fst (rk_fill size (rk_bounded (high - 1 - low)) (generator w))))),
     set_generator
       (snd (rk_fill size (rk_bounded (high - 1 - low)) (generator w))) w).
Proof.
  intros H. unfold np_random_randint. destruct (Z.leb_spec high low); [lia|].
  now rewrite run_bind, run_draw, run_ret.
Qed.

Lemma run_lognormal_ok `{LM : Libm} (mean sigma : float) (size : nat) (w : world) :
  PrimFloat.ltb sigma 0 = false ->
  np_random_lognormal mean sigma size w
  = (Ok (mk_array [size]
           (map (fun g => exp (mean + sigma * g))%float
                (fst (rk_fill size rk_gauss (generator w))))),
     set_generator (snd (rk_fill size rk_gauss (generator w))) w).
Proof.
  intros H. unfold np_random_lognormal. rewrite H.
  now rewrite run_bind, run_draw, run_ret.
Qed.

Lemma nth_map_seq {A} (f : nat -> A) (len n : nat) (d : A) :
  n < len -> nth n (map f (seq 0 len)) d = f n.
Proof.
  intros H.
  rewrite (nth_indep _ d (f 0)) by (now rewrite length_map, length_seq).
  rewrite (map_nth f). now rewrite seq_nth.
Qed.

Lemma normalize_axis_index_inv (axis : Z) (nd k : nat) :
  np.normalize_axis_index axis nd = Ok k ->
  k < nd /\ (- Z.of_nat nd <= axis < Z.of_nat nd)%Z
  /\ k = Z.to_nat (axis mod Z.of_nat nd).
Proof.
  unfold np.normalize_axis_index.
  destruct (Z.leb_spec (- Z.of_nat nd) axis), (Z.ltb_spec axis (Z.of_nat nd));
    try discriminate.
  simpl. intros [= <-]. split; [|split; [lia|reflexivity]].
  pose proof (Z.mod_pos_bound axis (Z.of_nat nd)). lia.
Qed.

Lemma normalize_axis_index_out_of_bounds (axis : Z) (nd : nat) :
  (axis < - Z.of_nat nd \/ Z.of_nat nd <= axis)%Z ->
  np.normalize_axis_index axis nd
  = Raise (ValueError "axis is out of bounds for array").
Proof.
  intros H. unfold np.normalize_axis_index.
  destruct (Z.leb_spec (- Z.of_nat nd) axis), (Z.ltb_spec axis (Z.of_nat nd));
    try reflexivity. lia.
Qed.

End Inversions.

(** ** What [flip] returns *)

Section Flip.

Context `{RS : RandomSource}.

(** The axis of [flip], lines 95-97: the one given, or one drawn. *)
Lemma run_flip_inv (arr : ref) (axis seed : option Z) (w w' : world) (r : ref) :
  flip arr axis seed w = (Ok r, w') ->
  exists (k : Z) (w1 : world) (a out : ndarray float),
    heap w1 = heap w /\ frame w1 = frame w
    /\ lookup_ref arr w1 = Some a
    /\ np.flip a k = Ok out
    /\ r = Local (length (frame w1))
    /\ w' = set_frame (frame w1 ++ [out]) w1
    /\ match axis with
       | Some k' => k = k' /\ w1 = w
       | None => (0 < ndim a)%nat
       end.
Proof.
  intros H. unfold flip in H.
  apply run_bind_inv in H as (k & w1 & Eaxis & H).
  apply run_bind_inv in H as (a & w0 & E & H). apply run_deref_inv in E as [Ea ->].
  apply run_new_inv in H as (out & Hout & -> & ->).
  exists k, w1, a, out.
  destruct axis as [k'|].
  - rewrite run_ret in Eaxis. injection Eaxis as <- <-. repeat split; auto.
  - apply run_bind_inv in Eaxis as (u & w2 & E & Eaxis).
    apply run_seed_inv in E as (Hh & Hf & _).
    apply run_bind_inv in Eaxis as (a' & w0 & E & Eaxis).
    apply run_deref_inv in E as [Ea' ->].
    apply run_bind_inv in Eaxis as (draws & w3 & E & Eaxis).
    apply run_randint_inv in E as (Hlt & -> & ->).
    rewrite run_ret in Eaxis. injection Eaxis as <- <-.
    assert (a' = a) as ->.
    { destruct arr; simpl in *; congruence. }
    repeat split; auto; simpl; try congruence. unfold ndim in *. lia.
Qed.

End Flip.

Section FlipCalls.

Context `{RS : RandomSource}.

(** Without an axis and with a valid seed, [flip] draws one axis from the
    reseeded generator. *)
Lemma run_flip_seeded (arr : ref) (s : Z) (w : world) (a : ndarray float) :
  lookup_ref arr w = Some a ->
  (0 <= s < 2 ^ 32)%Z ->
  0 < ndim a ->
  flip arr None (Some s) w
  = new (np.flip a (fst (rk_bounded (Z.of_nat (ndim a) - 1) (rk_seed s))))
        (set_generator (snd (rk_bounded (Z.of_nat (ndim a) - 1) (rk_seed s))) w).
Proof.
  intros Ha Hs Hnd. unfold flip.
  set (w1 := set_generator (rk_seed s) w).
  set (d := rk_bounded (Z.of_nat (ndim a) - 1) (rk_seed s)).
  set (w2 := set_generator (snd d) w).
  assert (Ha1 : lookup_ref arr w1 = Some a) by (destruct arr; exact Ha).
  assert (Ha2 : lookup_ref arr w2 = Some a) by (destruct arr; exact Ha).
  rewrite (run_bind_ok _ _ w w2 (fst d)).
  - now rewrite (run_bind_ok _ _ w2 w2 a) by (apply run_deref; exact Ha2).
  - rewrite (run_bind_ok _ _ w w1 tt) by (now apply run_seed_some).
    rewrite (run_bind_ok _ _ w1 w1 a) by (apply run_deref; exact Ha1).
    unfold np_random_randint. destruct (Z.leb_spec (Z.of_nat (ndim a)) 0); [lia|].
    rewrite Z.sub_0_r, !run_bind, run_draw.
    subst w1 w2. cbn [rk_fill generator set_generator]. fold d.
    destruct d as [v g']. reflexivity.
Qed.

Lemma call_flip_seeded (i : nat) (s : Z) (w : world) (A : ndarray float) :
  heap w !! i = Some A ->
  (0 <= s < 2 ^ 32)%Z ->
  (0 <= fst (rk_bounded (Z.of_nat (ndim A) - 1) (rk_seed s)) < Z.of_nat (ndim A))%Z ->
  call (flip (Caller i) None (Some s)) w
  = (Ok (Caller (length (heap w))),
     set_generator (snd (rk_bounded (Z.of_nat (ndim A) - 1) (rk_seed s)))
       (set_heap
          (heap w ++
           [tabulate (shape A)
              (fun idx => getitem A
                 (np.mirror (shape A) idx
                    (Z.to_nat (fst (rk_bounded (Z.of_nat (ndim A) - 1) (rk_seed s))))))])
          w)).
Proof.
  intros HA Hs Hk. unfold call.
  rewrite (run_flip_seeded _ _ _ A) by (try exact HA; try exact Hs; lia).
  rewrite np_flip_ok by exact Hk. reflexivity.
Qed.

End FlipCalls.

(** X1. Whatever [flip] returns, with an axis or without one, seeded or not,
    is the mirror image of its input along one of the axes of the input:
    the cells of the input, none of them changed, the index along that axis
    reversed.  A given axis is counted from the end when it is negative.
    So [flip] returns nothing for a 0-dimensional array. *)
Theorem flip_returns_a_mirror_image `{RS : RandomSource}
  (w : world) (i : nat) (A out : ndarray float) (axis seed : option Z) :
  heap w !! i = Some A ->
  outcome (call (flip (Caller i) axis seed)) w = Ok out ->
  exists k, k < ndim A
    /\ out = tabulate (shape A) (fun idx => getitem A (np.mirror (shape A) idx k))
    /\ match axis with
       | Some a => k = Z.to_nat (a mod Z.of_nat (ndim A))
       | None => True
       end.
Proof.
  intros HA H.
  rewrite outcome_call in H by (intros h; apply preserves_flip).
  unfold outcome in H.
  destruct (flip (Caller i) axis seed (set_frame [] w)) as [[r|e] w'] eqn:E;
    [|discriminate].
  apply run_flip_inv in E as (k & w1 & a & b & Hh & Hf & Ha & Hb & -> & -> & Hax).
  rewrite lookup_new in H. injection H as ->.
  simpl in Ha. rewrite Hh in Ha. simpl in Ha. rewrite HA in Ha. injection Ha as <-.
  unfold np.flip in Hb.
  destruct (np.normalize_axis_index k (ndim A)) as [n|e] eqn:En; [|discriminate].
  injection Hb as <-.
  apply normalize_axis_index_inv in En as (Hn & _ & En).
  exists n. split; [exact Hn|]. split; [reflexivity|].
  destruct axis as [a|]; [|exact I]. destruct Hax as [-> _]. exact En.
Qed.

(** X2. [flip] writes to no array of its caller: whether it returns or
    raises, the input and the other arrays are what they were, and the
    array returned has the shape of the input. *)
Theorem flip_keeps_the_arrays_of_the_caller `{RS : RandomSource}
  (w : world) (i : nat) (A : ndarray float) (axis seed : option Z) :
  heap w !! i = Some A ->
  hands_over_like A i w (call (flip (Caller i) axis seed) w).
Proof.
  intros HA. apply call_hands_over; [exact HA|]. now apply hoare_flip.
Qed.

(** X3. An axis counted from the end: for [-A.ndim <= k < 0], [flip] along
    [k] and along [k + A.ndim] are the same call. *)
Theorem flip_negative_axis `{RS : RandomSource}
  (w : world) (i : nat) (A : ndarray float) (k : Z) (seed : option Z) :
  heap w !! i = Some A ->
  (- Z.of_nat (ndim A) <= k < 0)%Z ->
  call (flip (Caller i) (Some k) seed) w
  = call (flip (Caller i) (Some (k + Z.of_nat (ndim A))%Z) seed) w.
Proof.
  intros HA Hk. unfold call.
  rewrite !(run_flip_axis _ _ _ _ A) by exact HA.
  replace (np.flip A (k + Z.of_nat (ndim A))) with (np.flip A k); [reflexivity|].
  unfold np.flip, np.normalize_axis_index.
  destruct (Z.leb_spec (- Z.of_nat (ndim A)) k); [|lia].
  destruct (Z.ltb_spec k (Z.of_nat (ndim A))); [|lia].
  destruct (Z.leb_spec (- Z.of_nat (ndim A)) (k + Z.of_nat (ndim A))); [|lia].
  destruct (Z.ltb_spec (k + Z.of_nat (ndim A)) (Z.of_nat (ndim A))); [|lia].
  assert (Hm : ((k + Z.of_nat (ndim A)) mod Z.of_nat (ndim A)
                = k mod Z.of_nat (ndim A))%Z).
  { replace (k + Z.of_nat (ndim A))%Z with (k + 1 * Z.of_nat (ndim A))%Z by lia.
    apply Z_mod_plus_full. }
  cbn [andb]. now rewrite Hm.
Qed.

(** X4. An axis outside [-A.ndim, A.ndim) is refused with the [ValueError]
    of [np.flip], whatever the seed, and the call leaves the process as it
    found it: no array is made and the generator is not touched. *)
Theorem flip_rejects_axis_out_of_bounds `{RS : RandomSource}
  (w : world) (i : nat) (A : ndarray float) (k : Z) (seed : option Z) :
  heap w !! i = Some A ->
  (k < - Z.of_nat (ndim A) \/ Z.of_nat (ndim A) <= k)%Z ->
  call (flip (Caller i) (Some k) seed) w
  = (Raise (ValueError "axis is out of bounds for array"), w).
Proof.
  intros HA Hk. unfold call.
  rewrite (run_flip_axis _ _ _ _ A) by exact HA.
  unfold np.flip. rewrite normalize_axis_index_out_of_bounds by exact Hk.
  destruct w. reflexivity.
Qed.

(** X5. Without an axis and with a seed [s] in [0, 2**32), [flip] of an
    array of at least one dimension is [flip] along the axis
    [randint(0, A.ndim)] draws first from the generator seeded with [s]:
    the axis depends on the seed and the rank alone.  The process-wide
    generator is left one draw past its seeded state. *)
Theorem flip_seeded_axis `{RS : RandomSource}
  (w : world) (i : nat) (A : ndarray float) (s : Z) :
  heap w !! i = Some A ->
  (0 <= s < 2 ^ 32)%Z ->
  0 < ndim A ->
  outcome (call (flip (Caller i) None (Some s))) w
  = outcome (call (flip (Caller i)
                     (Some (fst (rk_bounded (Z.of_nat (ndim A) - 1) (rk_seed s))))
                     None)) w
  /\ generator (snd (call (flip (Caller i) None (Some s)) w))
     = snd (rk_bounded (Z.of_nat (ndim A) - 1) (rk_seed s)).
Proof.
  intros HA Hs Hnd.
  unfold outcome, call.
  rewrite (run_flip_seeded _ _ _ A) by (try exact HA; assumption).
  rewrite (run_flip_axis _ _ _ _ A) by exact HA.
  destruct (np.flip A (fst (rk_bounded (Z.of_nat (ndim A) - 1) (rk_seed s))))
    as [out|e]; simpl.
  - rewrite !list_lookup_middle by reflexivity. auto.
  - auto.
Qed.

(** X6. Made twice with the same seed and no axis, [flip] gives back the
    array it started from: the second call draws the axis of the first. *)
Theorem flip_twice_same_seed `{RS : RandomSource}
  (w : world) (i : nat) (A : ndarray float) (s : Z) :
  heap w !! i = Some A ->
  well_formed A ->
  (0 <= s < 2 ^ 32)%Z ->
  (0 <= fst (rk_bounded (Z.of_nat (ndim A) - 1) (rk_seed s)) < Z.of_nat (ndim A))%Z ->
  outcome (once ← call (flip (Caller i) None (Some s));
           call (flip once None (Some s))) w = Ok A.
Proof.
  intros HA Hwf Hs Hk.
  set (k := fst (rk_bounded (Z.of_nat (ndim A) - 1) (rk_seed s))) in *.
  pose proof (np_flip_flip A k Hwf Hk) as Hff.
  rewrite np_flip_ok in Hff by assumption. simpl in Hff.
  rewrite np_flip_ok in Hff by assumption. injection Hff as Hff.
  set (B := tabulate (shape A)
              (fun idx => getitem A (np.mirror (shape A) idx (Z.to_nat k)))) in *.
  unfold outcome. rewrite run_bind.
  rewrite (call_flip_seeded i s w A HA Hs Hk). fold k B.
  rewrite (call_flip_seeded _ s _ B); simpl.
  - change (ndim B) with (ndim A). fold k. rewrite Hff.
    rewrite (list_lookup_middle _ [] A) by (now rewrite length_app). reflexivity.
  - apply list_lookup_middle. reflexivity.
  - exact Hs.
  - exact Hk.
Qed.

(** ** What [random_generator] returns *)

Section Zipping.

Lemma zip_with_map {A B C A' B'} (f : A -> B -> C) (g : A' -> A) (h : B' -> B)
  (l : list A') (k : list B') :
  zip_with f (map g l) (map h k) = zip_with (fun x y => f (g x) (h y)) l k.
Proof.
  revert k. induction l as [|x l IH]; intros [|y k]; simpl; try reflexivity.
  now rewrite IH.
Qed.

Lemma zip_with_length_same {A B C} (f : A -> B -> C) (l : list A) (k : list B) :
  length l = length k -> length (zip_with f l k) = length l.
Proof.
  revert k. induction l as [|x l IH]; intros [|y k] H; simpl in *; try lia.
  now rewrite IH by lia.
Qed.

End Zipping.

(** X7. From a seed [s] in [0, 2**32), [random_generator] with
    [dist="lognormal"] returns [size] values, the k-th being
    [exp(g_k) / 12.5 * (sign_k * interval[1])], where the normal deviates
    [g] and the signs ([2 b - 1] for [b] drawn in {0, 1}) are both drawn
    from the generator seeded with [s]: the sign of a value is not drawn
    independently of its magnitude.  The lower bound [interval[0]] plays no
    part.  The generator is left where the draws of [g] leave it, and
    nothing else of the process changes. *)
Theorem random_generator_lognormal_values `{RS : RandomSource} `{LM : Libm}
  (interval : float * float) (size : nat) (s : Z) (w : world) :
  (0 <= s < 2 ^ 32)%Z ->
  random_generator interval size "lognormal" (Some s) w
  = (Ok (mk_array [size]
           (zip_with
              (fun g b => exp (0 + 1 * g) / 12.5
                          * (float_of_Z (b * 2 - 1) * snd interval))%float
              (fst (rk_fill size rk_gauss (rk_seed s)))
              (fst (rk_fill size (rk_bounded 1) (rk_seed s))))),
     set_generator (snd (rk_fill size rk_gauss (rk_seed s))) w).
Proof.
  intros Hs.
  change (random_generator interval size "lognormal" (Some s))
    with (np_random_seed (Some s);;
          sign ← np_random_randint 0 2 size;
          np_random_seed (Some s);;
          random_variables ← np_random_lognormal 0 1 size;
          mret (mk_array (shape (array_map (fun x => x / 12.5)%float random_variables))
                  (zip_with (fun x s => x * (s * snd interval))%float
                     (data (array_map (fun x => x / 12.5)%float random_variables))
                     (data (array_map float_of_Z
                              (array_map (fun z => z * 2 - 1)%Z sign)))))).
  rewrite (run_bind_ok _ _ w _ tt (run_seed_some s w Hs)).
  erewrite run_bind_ok by (apply run_randint_ok; lia).
  erewrite run_bind_ok by (apply run_seed_some; exact Hs).
  erewrite run_bind_ok by (apply run_lognormal_ok; reflexivity).
  rewrite run_ret.
  cbn [generator set_generator array_map shape data urandom entropy_reads heap frame].
  change (2 - 1 - 0)%Z with 1%Z.
  rewrite !map_map, zip_with_map. destruct w. reflexivity.
Qed.

(** X8. When [random_generator] returns, it returns a 1-D array of exactly
    [size] values, in the uniform and in the lognormal branch, and no array
    of the process has been made or written. *)
Theorem random_generator_returns_size_values `{RS : RandomSource} `{LM : Libm}
  (interval : float * float) (size : nat) (dist : string) (seed : option Z)
  (w w' : world) (a : ndarray float) :
  random_generator interval size dist seed w = (Ok a, w') ->
  shape a = [size] /\ length (data a) = size
  /\ heap w' = heap w /\ frame w' = frame w.
Proof.
  intros H. unfold random_generator in H.
  destruct (String.eqb dist "uniform").
  { apply run_bind_inv in H as (u & w1 & E & H).
    apply run_seed_inv in E as (Hh & Hf & _).
    apply run_uniform_inv in H as [-> ->]. cbn [shape data].
    rewrite length_map, rk_fill_length. auto. }
  destruct (String.eqb dist "lognormal"); [|discriminate].
  apply run_bind_inv in H as (u & w1 & E & H).
  apply run_seed_inv in E as (Hh1 & Hf1 & _).
  apply run_bind_inv in H as (sign & w2 & E & H).
  apply run_randint_inv in E as (_ & -> & ->).
  apply run_bind_inv in H as (u' & w3 & E & H).
  apply run_seed_inv in E as (Hh3 & Hf3 & _).
  apply run_bind_inv in H as (rv & w4 & E & H).
  apply run_lognormal_inv in E as [-> ->].
  rewrite run_ret in H. injection H as <- <-.
  cbn [shape data array_map heap frame set_generator] in *.
  rewrite zip_with_length_same by (now rewrite !length_map, !rk_fill_length).
  rewrite !length_map, rk_fill_length.
  repeat split; congruence.
Qed.

(** X9. With a seed, what [random_generator] returns or raises is the same
    from every state of the process: the state of the generator, the
    entropy of the system and the arrays in memory play no part.  When it
    returns, it leaves the generator in a state that depends on its
    arguments alone. *)
Theorem random_generator_seeded_ignores_the_process
  `{RS : RandomSource} `{LM : Libm}
  (interval : float * float) (size : nat) (dist : string) (s : Z)
  (w1 w2 : world) :
  fst (random_generator interval size dist (Some s) w1)
  = fst (random_generator interval size dist (Some s) w2)
  /\ (forall a, fst (random_generator interval size dist (Some s) w1) = Ok a ->
        generator (snd (random_generator interval size dist (Some s) w1))
        = generator (snd (random_generator interval size dist (Some s) w2))).
Proof.
  pose proof (agree_random_generator _ anything_blind false interval size dist s
                w1 w2 (conj I (fun H => False_ind _ (Bool.diff_false_true H)))) as H.
  destruct (random_generator interval size dist (Some s) w1) as [[a1|e1] w1'],
           (random_generator interval size dist (Some s) w2) as [[a2|e2] w2'];
    try contradiction; simpl.
  - destruct H as (-> & _ & Hg). split; [reflexivity|]. intros _ _. now apply Hg.
  - subst. split; [reflexivity|discriminate].
Qed.

(** X10. A seed outside [0, 2**32) is refused by [np.random.seed] before
    anything is drawn: [random_generator] with a supported distribution and
    [flip] without an axis raise its [ValueError] and leave the process as
    they found it. *)
Theorem seed_out_of_range_rejected `{RS : RandomSource} `{LM : Libm}
  (interval : float * float) (size : nat) (dist : string) (arr : ref)
  (s : Z) (w : world) :
  (s < 0 \/ 2 ^ 32 <= s)%Z ->
  (dist = "uniform"%string \/ dist = "lognormal"%string ->
   random_generator interval size dist (Some s) w
   = (Raise (ValueError "Seed must be between 0 and 2**32 - 1"), w))
  /\ flip arr None (Some s) w
     = (Raise (ValueError "Seed must be between 0 and 2**32 - 1"), w).
Proof.
  intros Hs. pose proof (run_seed_invalid s w Hs) as E. split.
  - intros [-> | ->].
    + rewrite random_generator_uniform. now rewrite (run_bind_raise _ _ _ _ _ E).
    + change (random_generator interval size "lognormal" (Some s))
        with (np_random_seed (Some s);;
              sign ← np_random_randint 0 2 size;
              np_random_seed (Some s);;
              random_variables ← np_random_lognormal 0 1 size;
              mret (mk_array (shape (array_map (fun x => x / 12.5)%float random_variables))
                      (zip_with (fun x s => x * (s * snd interval))%float
                         (data (array_map (fun x => x / 12.5)%float random_variables))
                         (data (array_map float_of_Z
                                  (array_map (fun z => z * 2 - 1)%Z sign)))))).
      now rewrite (run_bind_raise _ _ _ _ _ E).
  - unfold flip. rewrite run_bind.
    now rewrite (run_bind_raise _ _ _ _ _ E).
Qed.

(** ** The generator is reseeded before every draw *)

Section Reseeding.

Context `{RS : RandomSource} `{LM : Libm} `{SP : Scipy} `{TR : !Transform}.

Lemma agree_eq {A} (m : M A) : agree eq m eq.
Proof. intros w1 w2 <-. destruct (m w1) as [[a|e] w']; auto. Qed.

Lemma agree_reseed (seed : option Z) :
  agree but_for_the_generator (np_random_seed seed) eq.
Proof.
  intros w1 w2 [g ->]. unfold np_random_seed. destruct seed as [s|]; simpl.
  - destruct ((0 <=? s)%Z && (s <? 2 ^ 32)%Z); auto.
  - auto.
Qed.

Lemma agree_deref_reseed (r : ref) :
  agree but_for_the_generator (deref r) but_for_the_generator.
Proof.
  intros w1 w2 [g ->]. unfold deref.
  replace (lookup_ref r (set_generator g w1)) with (lookup_ref r w1)
    by (now destruct r).
  destruct (lookup_ref r w1); [|reflexivity].
  split; [reflexivity|now exists g].
Qed.

Lemma agree_random_generator_reseed (interval : float * float) (size : nat)
  (dist : string) (seed : option Z) :
  agree but_for_the_generator (random_generator interval size dist seed) eq.
Proof.
  unfold random_generator.
  destruct (String.eqb dist "uniform").
  { eapply agree_bind; [apply agree_reseed|]. intros _. apply agree_eq. }
  destruct (String.eqb dist "lognormal"); [|apply agree_raise].
  eapply agree_bind; [apply agree_reseed|]. intros _. apply agree_eq.
Qed.

Lemma agree_affine_reseed (arr : ref) (rotation translation : magnitude)
  (zoom : float) (order : Z) (dist : string) (seed : option Z) :
  agree but_for_the_generator
        (affine arr rotation translation zoom order dist seed) eq.
Proof.
  unfold affine, affine_draws.
  eapply agree_bind; [|intros a; apply agree_eq].
  eapply agree_bind; [apply agree_lift|]. intros rot.
  eapply agree_bind; [apply agree_lift|]. intros tr.
  eapply agree_bind; [apply agree_deref_reseed|]. intros a.
  eapply agree_bind; [apply agree_random_generator_reseed|]. intros rr.
  apply agree_eq.
Qed.

Lemma agree_flip_reseed (arr : ref) (seed : option Z) :
  agree but_for_the_generator (flip arr None seed) eq.
Proof.
  unfold flip.
  eapply agree_bind; [|intros a; apply agree_eq].
  eapply agree_bind; [apply agree_reseed|]. intros _. apply agree_eq.
Qed.

Lemma outcome_call_reseed (body : M ref) (g : rk_state) (w : world) :
  agree but_for_the_generator body eq ->
  outcome (call body) (set_generator g w) = outcome (call body) w.
Proof.
  intros H.
  assert (Hw : but_for_the_generator (set_frame [] w) (set_frame [] (set_generator g w)))
    by (now exists g).
  specialize (H _ _ Hw). unfold outcome, call.
  destruct (body (set_frame [] w)) as [[r1|e1] w1'],
           (body (set_frame [] (set_generator g w))) as [[r2|e2] w2'];
    try contradiction.
  - destruct H as [<- <-]. reflexivity.
  - now subst.
Qed.

End Reseeding.

(** X11. The state in which [affine], [flip] without an axis and
    [random_generator] find the process-wide generator has no influence
    on what they return or raise, with a seed or without one: each calls
    [np.random.seed] before it draws.  Without a seed, what they draw comes
    from the entropy of the system alone, so that seeding numpy before the
    call does not make it reproducible. *)
Theorem generator_state_on_entry_ignored
  `{RS : RandomSource} `{LM : Libm} `{SP : Scipy} `{TR : !Transform}
  (w : world) (g : rk_state) (arr : ref) (rotation translation : magnitude)
  (zoom : float) (order : Z) (dist : string) (seed : option Z)
  (interval : float * float) (size : nat) :
  outcome (call (affine arr rotation translation zoom order dist seed))
          (set_generator g w)
  = outcome (call (affine arr rotation translation zoom order dist seed)) w
  /\ outcome (call (flip arr None seed)) (set_generator g w)
     = outcome (call (flip arr None seed)) w
  /\ fst (random_generator interval size dist seed (set_generator g w))
     = fst (random_generator interval size dist seed w)
  /\ (forall a, fst (random_generator interval size dist seed w) = Ok a ->
        snd (random_generator interval size dist seed (set_generator g w))
        = snd (random_generator interval size dist seed w)).
Proof.
  split; [apply outcome_call_reseed, agree_affine_reseed|].
  split; [apply outcome_call_reseed, agree_flip_reseed|].
  assert (Hw : but_for_the_generator w (set_generator g w)) by (now exists g).
  pose proof (agree_random_generator_reseed interval size dist seed _ _ Hw) as H.
  destruct (random_generator interval size dist seed w) as [[a1|e1] w1'],
           (random_generator interval size dist seed (set_generator g w))
             as [[a2|e2] w2'];
    try contradiction; simpl.
  - destruct H as [<- <-]. auto.
  - subst. split; [reflexivity|discriminate].
Qed.

(** ** What [affine] draws and where it samples *)

Section Affine.

Context `{RS : RandomSource} `{LM : Libm} `{SP : Scipy} `{TR : !Transform}.

Lemma run_random_generator_uniform_inv (interval : float * float) (size : nat)
  (s : Z) (w w' : world) (a : ndarray float) :
  random_generator interval size "uniform" (Some s) w = (Ok a, w') ->
  a = mk_array [size]
        (map (fun u => fst interval + (snd interval - fst interval) * u)%float
             (fst (rk_fill size rk_double (rk_seed s))))
  /\ w' = set_generator (snd (rk_fill size rk_double (rk_seed s))) w.
Proof.
  rewrite random_generator_uniform. intros H.
  apply run_bind_inv in H as (u & w1 & E & H).
  apply run_seed_inv in E as (_ & _ & _ & ->).
  apply run_uniform_inv in H as [-> ->]. split; [reflexivity|].
  destruct w. reflexivity.
Qed.

(** Lines 66-74 of [affine], when it returns. *)
Lemma run_affine_inv (w w' : world) (i : nat) (A : ndarray float)
  (rotation translation : magnitude) (zoom : float) (order : Z)
  (dist : string) (seed : option Z) (r : ref) :
  heap w !! i = Some A ->
  affine (Caller i) rotation translation zoom order dist seed w = (Ok r, w') ->
  exists rr rt rz w1 R Mx flow,
    affine_draws (Caller i) rotation translation zoom dist seed w
    = (Ok (rr, rt, rz), w1)
    /\ from_euler_xyz rr = Ok R
    /\ compose rt R rz = Ok Mx
    /\ affine_flow Mx (shape A) = Ok flow
    /\ (0 <= order <= 5)%Z
    /\ r = Local (length (frame w1))
    /\ w' = set_frame
              (frame w1 ++
               [mk_array (shape A)
                  (map (fun m =>
                          spline_value A order 0
                            (map (fun k => nth (k * prod (shape A) + m) (data flow) 0%float)
                                 (seq 0 (ndim A))))
                       (seq 0 (prod (shape A))))])
              w1.
Proof.
  intros HA H. unfold affine in H.
  apply run_bind_inv in H as ([[rr rt] rz] & w1 & Ed & H).
  pose proof (affine_draws_inv _ _ _ A _ _ _ _ _ _ _ _ HA Ed)
    as (_ & _ & _ & _ & _ & _ & _ & _ & _ & _ & _ & _ & _ & _ & Hheap).
  apply run_bind_inv in H as (R & w0 & E & H). apply run_lift_inv in E as [ER ->].
  apply run_bind_inv in H as (Mx & w0 & E & H). apply run_lift_inv in E as [EM ->].
  apply run_bind_inv in H as (a & w0 & E & H). apply run_deref_inv in E as [Ea ->].
  simpl in Ea. rewrite Hheap, HA in Ea. injection Ea as <-.
  cbv zeta in H.
  apply run_bind_inv in H as (flow & w0 & E & H). apply run_lift_inv in E as [Ef ->].
  apply run_bind_inv in H as (locs & w0 & E & H). apply run_lift_inv in E as [El ->].
  apply run_bind_inv in H as (a & w0 & E & H). apply run_deref_inv in E as [Ea ->].
  simpl in Ea. rewrite Hheap, HA in Ea. injection Ea as <-.
  apply run_bind_inv in H as (T & w0 & E & H). apply run_lift_inv in E as [ET ->].
  apply run_new_inv in H as (out & Eout & -> & ->).
  exists rr, rt, rz, w1, R, Mx, flow.
  do 4 (split; [assumption|]).
  unfold np.reshape_rows in El.
  destruct ((length (shape A) =? 0) || negb (length (data flow) mod length (shape A) =? 0));
    [discriminate|].
  injection El as <-.
  unfold map_coordinates in ET.
  destruct (Z.ltb_spec order 0); [discriminate|].
  destruct (Z.ltb_spec 5 order); [discriminate|].
  cbn [orb shape tail hd length] in ET.
  destruct ((ndim A <? 1) || (1 <? 1)); [discriminate|].
  unfold ndim in ET at 1. rewrite Nat.eqb_refl in ET. cbn [negb] in ET.
  injection ET as <-.
  unfold np.reshape in Eout. cbn [data] in Eout.
  rewrite length_map, length_seq in Eout.
  destruct (Nat.eqb_spec (length (data flow) / length (shape A) * 1) (prod (shape A)))
    as [Hp|]; [|discriminate].
  injection Eout as <-. rewrite Hp.
  split; [lia|]. split; reflexivity.
Qed.

End Affine.

(** X12. [affine] returns an array for 3-D inputs only: for every other
    rank, 2 included, it raises, whatever the other arguments. *)
Theorem affine_returns_only_for_3d
  `{RS : RandomSource} `{LM : Libm} `{SP : Scipy} `{TR : !Transform}
  (w : world) (i : nat) (A out : ndarray float)
  (rotation translation : magnitude) (zoom : float) (order : Z)
  (dist : string) (seed : option Z) :
  heap w !! i = Some A ->
  outcome (call (affine (Caller i) rotation translation zoom order dist seed)) w
  = Ok out ->
  ndim A = 3.
Proof.
  intros HA H.
  destruct (Nat.eq_dec (ndim A) 3) as [|Hn]; [assumption|exfalso].
  rewrite outcome_call in H by (intros h; apply preserves_affine).
  unfold outcome in H.
  rewrite (affine_rank_error _ i A) in H by (try exact HA; exact Hn).
  destruct (affine_draws (Caller i) rotation translation zoom dist seed (set_frame [] w))
    as [[x|e] w1]; discriminate.
Qed.

(** X13. The errors of the draws come first and leave the process as it
    was: once the two intervals are read, [affine] with an unsupported
    [dist] raises the [ValueError] of [random_generator], and with a
    supported [dist] and a seed outside [0, 2**32) that of
    [np.random.seed]; nothing has been drawn and no array made. *)
Theorem affine_errors_before_drawing
  `{RS : RandomSource} `{LM : Libm} `{SP : Scipy} `{TR : !Transform}
  (w : world) (i : nat) (A : ndarray float)
  (rotation translation : magnitude) (rot tr : float * float)
  (zoom : float) (order : Z) (dist : string) (seed : option Z) :
  heap w !! i = Some A ->
  interval rotation = Ok rot ->
  interval translation = Ok tr ->
  (dist <> "uniform"%string /\ dist <> "lognormal"%string ->
   affine (Caller i) rotation translation zoom order dist seed w
   = (Raise UnsupportedDistribution, w))
  /\ (forall s, seed = Some s -> (s < 0 \/ 2 ^ 32 <= s)%Z ->
      dist = "uniform"%string \/ dist = "lognormal"%string ->
      affine (Caller i) rotation translation zoom order dist seed w
      = (Raise (ValueError "Seed must be between 0 and 2**32 - 1"), w)).
Proof.
  intros HA Hrot Htr.
  assert (Hstart : forall e,
            random_generator rot (ndim A) dist seed w = (Raise e, w) ->
            affine (Caller i) rotation translation zoom order dist seed w
            = (Raise e, w)).
  { intros e He. unfold affine, affine_draws.
    erewrite run_bind_raise; [reflexivity|].
    rewrite (run_bind_ok _ _ w w rot) by (unfold lift; now rewrite Hrot).
    rewrite (run_bind_ok _ _ w w tr) by (unfold lift; now rewrite Htr).
    rewrite (run_bind_ok _ _ w w A) by (apply run_deref; exact HA).
    now rewrite (run_bind_raise _ _ _ _ _ He). }
  split.
  - intros [Hu Hl]. apply Hstart. now apply random_generator_unsupported.
  - intros s -> Hs Hd. apply Hstart.
    destruct Hd as [-> | ->].
    + rewrite random_generator_uniform.
      now rewrite (run_bind_raise _ _ _ _ _ (run_seed_invalid s w Hs)).
    + change (random_generator rot (ndim A) "lognormal" (Some s))
        with (np_random_seed (Some s);;
              sign ← np_random_randint 0 2 (ndim A);
              np_random_seed (Some s);;
              random_variables ← np_random_lognormal 0 1 (ndim A);
              mret (mk_array (shape (array_map (fun x => x / 12.5)%float random_variables))
                      (zip_with (fun x s => x * (s * snd rot))%float
                         (data (array_map (fun x => x / 12.5)%float random_variables))
                         (data (array_map float_of_Z
                                  (array_map (fun z => z * 2 - 1)%Z sign)))))).
      now rewrite (run_bind_raise _ _ _ _ _ (run_seed_invalid s w Hs)).
Qed.

(** X14. With [dist="uniform"] and a seed [s], the rotation angles, the
    translation offsets and the zoom factors that [affine] draws are three
    affine images of one and the same vector [u] of [arr.ndim] uniform
    deviates, the first draws of the generator seeded with [s]:
    [low + (high - low) * u_k] over the rotation interval, the translation
    interval and [(1 - zoom, 1 + zoom)].  The generator is left [arr.ndim]
    draws past its seeded state and nothing else of the process changes. *)
Theorem affine_uniform_parameters
  `{RS : RandomSource} `{LM : Libm} `{SP : Scipy} `{TR : !Transform}
  (w w' : world) (i : nat) (A : ndarray float)
  (rotation translation : magnitude) (zoom : float) (s : Z)
  (random_rotations random_translations random_zooms : ndarray float) :
  heap w !! i = Some A ->
  affine_draws (Caller i) rotation translation zoom "uniform" (Some s) w
  = (Ok (random_rotations, random_translations, random_zooms), w') ->
  exists rot tr,
    interval rotation = Ok rot /\ interval translation = Ok tr
    /\ let u := fst (rk_fill (ndim A) rk_double (rk_seed s)) in
       let scaled low high :=
         mk_array [ndim A] (map (fun u_k => low + (high - low) * u_k)%float u) in
       random_rotations = scaled (fst rot) (snd rot)
       /\ random_translations = scaled (fst tr) (snd tr)
       /\ random_zooms = scaled (1 - zoom)%float (1 + zoom)%float
       /\ w' = set_generator (snd (rk_fill (ndim A) rk_double (rk_seed s))) w.
Proof.
  intros HA E.
  apply (affine_draws_inv _ _ _ A) in E as (rot & tr & w1 & w2 & w3 & H); [|exact HA].
  destruct H as (Hrot & Htr & Err & Ert & Es & Erz & _).
  exists rot, tr. split; [exact Hrot|]. split; [exact Htr|].
  apply run_random_generator_uniform_inv in Err as [-> ->].
  apply run_random_generator_uniform_inv in Ert as [-> ->].
  apply run_seed_inv in Es as (_ & _ & _ & ->).
  apply run_uniform_inv in Erz as [-> ->].
  cbv zeta. cbn [generator set_generator].
  repeat split.
Qed.

(** X15. What [affine] returns is its input sampled along the coordinate
    field of [affine_flow], built from the matrix that [compose] makes of
    the translations, the rotation matrix and the zooms, in that order:
    cell [idx] of the result is the spline through the input evaluated at
    the point whose k-th coordinate is entry [k * prod(shape) + ravel(idx)]
    of the buffer of the field, its cell [(k, *idx)] when the field has
    shape [(ndim, *shape)].  The order is then in [0, 5] and the result has
    the shape of the input. *)
Theorem affine_samples_along_the_flow
  `{RS : RandomSource} `{LM : Libm} `{SP : Scipy} `{TR : !Transform}
  (w w' : world) (i : nat) (A : ndarray float)
  (rotation translation : magnitude) (zoom : float) (order : Z)
  (dist : string) (seed : option Z) (r : ref) :
  heap w !! i = Some A ->
  affine (Caller i) rotation translation zoom order dist seed w = (Ok r, w') ->
  exists random_rotations random_translations random_zooms R matrix flow out,
    fst (affine_draws (Caller i) rotation translation zoom dist seed w)
    = Ok (random_rotations, random_translations, random_zooms)
    /\ from_euler_xyz random_rotations = Ok R
    /\ compose random_translations R random_zooms = Ok matrix
    /\ affine_flow matrix (shape A) = Ok flow
    /\ (0 <= order <= 5)%Z
    /\ lookup_ref r w' = Some out
    /\ shape out = shape A
    /\ forall idx, in_range (shape A) idx ->
         getitem out idx
         = spline_value A order 0
             (map (fun k => nth (k * prod (shape A) + ravel (shape A) idx)
                                (data flow) 0%float)
                  (seq 0 (ndim A))).
Proof.
  intros HA H.
  apply (run_affine_inv _ _ _ A) in H
    as (rr & rt & rz & w1 & R & Mx & flow & Ed & ER & EM & Ef & Ho & -> & ->);
    [|exact HA].
  eexists rr, rt, rz, R, Mx, flow, _.
  split; [now rewrite Ed|].
  do 4 (split; [assumption|]).
  split; [apply lookup_new|]. split; [reflexivity|].
  intros idx Hr. unfold getitem. cbn [shape data].
  pose proof (ravel_lt _ _ Hr) as Hlt.
  now rewrite nth_map_seq by exact Hlt.
Qed.

(** ** No zoom *)

Section NoZoom.

Lemma one_add_zero_mul (u : float) :
  is_finite u = true -> (1 + 0 * u)%float = 1%float.
Proof.
  intros Hu. apply Prim2SF_inj. rewrite add_spec, mul_spec.
  assert (Hz : exists s, SF64mul (Prim2SF 0%float) (Prim2SF u) = S754_zero s).
  { unfold is_finite, is_nan, is_infinity in Hu.
    rewrite !FloatAxioms.eqb_spec, abs_spec in Hu.
    change (Prim2SF 0) with (S754_zero false).
    change (Prim2SF infinity) with (S754_infinity false) in Hu.
    destruct (Prim2SF u) as [s|s| |s m e]; simpl in *; try discriminate; eauto.
    all: try (destruct s; discriminate). }
  destruct Hz as [s ->]. reflexivity.
Qed.

Lemma map_one_add_zero_mul (us : list float) :
  Forall (fun u => is_finite u = true) us ->
  map (fun u => 1 + 0 * u)%float us = replicate (length us) 1%float.
Proof.
  induction 1 as [|u us Hu _ IH]; simpl; [reflexivity|].
  now rewrite one_add_zero_mul, IH.
Qed.

End NoZoom.

(** X16. With [zoom=0] and a seed, the zoom factors that [affine] draws
    are all exactly 1, for both distributions and whatever the finite
    uniform deviates drawn: the factors are [1 + 0 * u]. *)
Theorem affine_zero_zoom
  `{RS : RandomSource} `{LM : Libm} `{SP : Scipy} `{TR : !Transform}
  (w w' : world) (i : nat) (A : ndarray float)
  (rotation translation : magnitude) (dist : string) (s : Z)
  (random_rotations random_translations random_zooms : ndarray float) :
  heap w !! i = Some A ->
  Forall (fun u => is_finite u = true) (fst (rk_fill (ndim A) rk_double (rk_seed s))) ->
  affine_draws (Caller i) rotation translation 0 dist (Some s) w
  = (Ok (random_rotations, random_translations, random_zooms), w') ->
  random_zooms = mk_array [ndim A] (replicate (ndim A) 1%float).
Proof.
  intros HA Hfin E.
  apply (affine_draws_inv _ _ _ A) in E as (rot & tr & w1 & w2 & w3 & H); [|exact HA].
  destruct H as (_ & _ & _ & _ & Es & Erz & _).
  apply run_seed_inv in Es as (_ & _ & _ & ->).
  apply run_uniform_inv in Erz as [-> _].
  cbn [generator set_generator]. f_equal.
  change (1 - 0)%float with 1%float. change (1 + 0 - 1)%float with 0%float.
  rewrite map_one_add_zero_mul by exact Hfin.
  now rewrite rk_fill_length.
Qed.

(** ** Stacked and transposed arrays *)

Section Stacking.

Lemma length_swap01 {A} (l : list A) : length (np.swap01 l) = length l.
Proof. destruct l as [|x [|y l]]; reflexivity. Qed.

Lemma asarray_inv {A} (l : list (ndarray A)) (a st : ndarray A) :
  np.asarray (a :: l) = Ok st ->
  st = mk_array (S (length l) :: shape a) (concat (map data (a :: l)))
  /\ Forall (fun b => shape b = shape a) l.
Proof.
  unfold np.asarray. destruct (forallb _ (a :: l)) eqn:E; [|discriminate].
  intros [= <-]. split; [reflexivity|].
  cbn [forallb] in E. apply andb_true_iff in E as [_ E].
  apply List.Forall_forall. intros b Hb.
  rewrite forallb_forall in E. specialize (E b Hb).
  now apply bool_decide_eq_true in E.
Qed.

Lemma transpose_inv {A} `{Inhabited A} (a t : ndarray A) (axes : list nat) :
  np.transpose a axes = Ok t ->
  length axes = ndim a
  /\ t = tabulate (map (fun ax => nth ax (shape a) 0) axes)
                  (fun j => getitem a (np.scatter axes j)).
Proof.
  unfold np.transpose.
  destruct (Nat.eqb_spec (length axes) (ndim a)); [|discriminate].
  destruct (np.is_permutation axes); [|discriminate].
  simpl. intros [= <-]. auto.
Qed.

(** The stack of the grids of [n] ranges has [n + 1] axes. *)
Lemma meshgrid_arange_ndim (sh : list nat) (st : ndarray Z) :
  np.asarray (np.meshgrid (map np.arange sh)) = Ok st ->
  ndim st = 4 -> length sh = 3.
Proof.
  destruct sh as [|s0 sh'].
  - cbn. intros [= <-]. discriminate.
  - unfold np.meshgrid. cbn [map length seq combine].
    intros E Hnd. apply asarray_inv in E as [-> _].
    unfold ndim in Hnd. cbn [shape tabulate fst snd length] in Hnd.
    rewrite length_swap01 in Hnd. cbn [length] in Hnd.
    rewrite !length_map in Hnd. cbn [length]. lia.
Qed.

Lemma map_data_replicate {A} (d : nat) (f : ndarray A) :
  map data (replicate d f) = replicate d (data f).
Proof. induction d as [|d IH]; simpl; [reflexivity|now rewrite IH]. Qed.

Lemma nth_concat_replicate {A} (x : list A) (d n l m : nat) (dflt : A) :
  length x = n -> l < d -> m < n ->
  nth (l * n + m) (concat (replicate d x)) dflt = nth m x dflt.
Proof.
  intros Hx. revert l. induction d as [|d IH]; intros l Hl Hm; [lia|].
  cbn [replicate concat]. destruct l as [|l].
  - simpl. rewrite app_nth1 by lia. reflexivity.
  - rewrite app_nth2 by (rewrite Hx; simpl; lia).
    replace (S l * n + m - length x) with (l * n + m) by (rewrite Hx; simpl; lia).
    apply IH; lia.
Qed.

Lemma nth_zip_with {A B C} (f : A -> B -> C) (l : list A) (k : list B)
  (n : nat) (da : A) (db : B) (dc : C) :
  n < length l -> n < length k ->
  nth n (zip_with f l k) dc = f (nth n l da) (nth n k db).
Proof.
  revert k n. induction l as [|x l IH]; intros [|y k] [|n] Hl Hk;
    simpl in *; try lia; [reflexivity|].
  apply IH; lia.
Qed.

Lemma in_range_nil : in_range [] [].
Proof. constructor. Qed.

Lemma in_range_cons (i d : nat) (idx sh : list nat) :
  i < d -> in_range sh idx -> in_range (d :: sh) (i :: idx).
Proof. intros Hi Hr. constructor; assumption. Qed.

End Stacking.

Ltac in_range_by_bounds :=
  repeat (apply in_range_cons; [assumption || lia|]); apply in_range_nil.

(** ** The rank [deformation] asks for *)

Section DeformationRank.

Context `{RS : RandomSource} `{LM : Libm} `{SP : Scipy} `{TR : !Transform}.

(** The transposition of line 148 wants a grid of four axes. *)
Lemma run_warp_rank (w w' : world) (i : nat) (A : ndarray float) (flow r : ref)
  (order : Z) :
  heap w !! i = Some A ->
  warp (Caller i) flow order w = (Ok r, w') ->
  ndim A = 3.
Proof.
  intros HA H. unfold warp in H.
  apply run_bind_inv in H as (a & w0 & E & H). apply run_deref_inv in E as [Ea ->].
  simpl in Ea. rewrite HA in Ea. injection Ea as <-.
  cbv zeta in H.
  apply run_bind_inv in H as (locs & w1 & E & _).
  apply run_new_inv in E as (G & E & _).
  unfold result_map in E.
  apply result_bind_inv in E as (g & E & _).
  apply result_bind_inv in E as (st & Est & Et).
  apply transpose_inv in Et as [Hnd _].
  apply (meshgrid_arange_ndim _ st Est). now rewrite <- Hnd.
Qed.

End DeformationRank.

(** ** The field of unit displacements *)

Section DisplacementField.

Context `{RS : RandomSource} `{LM : Libm} `{SP : Scipy} `{TR : !Transform}.

Lemma getitem_array_map {A B} `{Inhabited A} `{Inhabited B} (h : A -> B)
  (f : ndarray A) (idx : list nat) :
  well_formed f -> in_range (shape f) idx ->
  getitem (array_map h f) idx = h (getitem f idx).
Proof.
  intros Hwf Hr. unfold getitem. cbn [array_map shape data].
  rewrite (nth_indep _ _ (h inhabitant))
    by (rewrite length_map, Hwf; now apply ravel_lt).
  apply map_nth.
Qed.

(** Lines 132, 138 and 144: a 2-D field repeated along a new last axis. *)
Lemma repeat_along_last_axis (f t : ndarray float) (d : nat) :
  result_bind (np.asarray (replicate d f))
              (fun stacked => np.transpose stacked [1; 2; 0]) = Ok t ->
  exists a b,
    shape f = [a; b] /\ 0 < d /\ shape t = [a; b; d] /\ well_formed t
    /\ (well_formed f ->
        forall i j l, i < a -> j < b -> l < d ->
          getitem t [i; j; l] = getitem f [i; j]).
Proof.
  intros H. apply result_bind_inv in H as (st & Est & Et).
  destruct d as [|d].
  - cbn in Est. injection Est as <-. apply transpose_inv in Et as [Hn _].
    discriminate.
  - cbn [replicate] in Est. apply asarray_inv in Est as [-> _].
    apply transpose_inv in Et as [Hn ->].
    unfold ndim in Hn. cbn [shape length] in Hn.
    destruct (shape f) as [|a [|b [|c l]]] eqn:Hs; try discriminate.
    exists a, b. split; [reflexivity|]. split; [lia|].
    cbn [shape map nth tabulate]. rewrite length_replicate.
    split; [reflexivity|]. split; [apply tabulate_well_formed|].
    intros Hwf i j l Hi Hj Hl.
    rewrite getitem_tabulate by in_range_by_bounds.
    unfold getitem.
    cbn [shape data np.scatter length seq map np.index_of Nat.eqb nth].
    change (f :: replicate d f) with (replicate (S d) f).
    rewrite map_data_replicate, Hs.
    change (ravel [S d; a; b] [l; i; j])
      with (l * prod [a; b] + ravel [a; b] [i; j]).
    apply (nth_concat_replicate (data f) (S d));
      [rewrite Hwf, Hs; reflexivity|exact Hl|].
    apply ravel_lt. in_range_by_bounds.
Qed.

Lemma run_gaussian_random_field_inv (sh : list nat) (alpha : float)
  (normalize : bool) (seed : option Z) (w w' : world) (r : ref) :
  gaussian_random_field sh alpha normalize seed w = (Ok r, w') ->
  exists f g,
    fst (power_law_field sh alpha normalize g) = Ok f
    /\ r = Local (length (frame w))
    /\ frame w' = frame w ++ [f] /\ heap w' = heap w.
Proof.
  unfold gaussian_random_field. intros H.
  apply run_bind_inv in H as (u & w1 & E & H).
  apply run_seed_inv in E as (Hh & Hf & _).
  apply run_bind_inv in H as (field & w2 & E & H).
  rewrite run_draw in E. injection E as <- <-.
  apply run_new_inv in H as (f & Ef & -> & ->).
  exists f, (generator w1). simpl. rewrite Hf, Hh. auto.
Qed.

Lemma run_inplace_local_inv (n : nat) (f : ndarray float -> result (ndarray float))
  (w w' : world) (u : unit) :
  inplace (Local n) f w = (Ok u, w') ->
  exists a a', frame w !! n = Some a /\ f a = Ok a'
               /\ w' = set_frame (<[n := a']> (frame w)) w.
Proof.
  unfold inplace. simpl. destruct (frame w !! n) as [a|]; [|discriminate].
  destruct (f a) as [a'|e] eqn:E; [|discriminate].
  intros [= <- <-]. eauto.
Qed.

(** Lines 129-132 of [deformation], when they return. *)
Lemma run_axis_flow_inv (i : nat) (A : ndarray float) (alpha : float)
  (seed : option Z) (w w' : world) (r : ref) :
  heap w !! i = Some A ->
  axis_flow (Caller i) alpha seed w = (Ok r, w') ->
  exists f m d t a b,
    (exists g, fst (power_law_field (take 2 (shape A)) alpha true g) = Ok f)
    /\ np.max f = Ok m
    /\ last (shape A) = Some d /\ 0 < d
    /\ shape f = [a; b] /\ shape t = [a; b; d] /\ well_formed t
    /\ (well_formed f ->
        forall i j l, i < a -> j < b -> l < d ->
          getitem t [i; j; l] = (getitem f [i; j] / m)%float)
    /\ r = Local (S (length (frame w)))
    /\ frame w' = frame w ++ [array_map (fun v => v / m)%float f; t]
    /\ heap w' = heap w.
Proof.
  intros HA H. unfold axis_flow in H.
  apply run_bind_inv in H as (a0 & w0 & E & H). apply run_deref_inv in E as [Ea ->].
  simpl in Ea. rewrite HA in Ea. injection Ea as <-.
  apply run_bind_inv in H as (flow_x & w1 & E & H).
  apply run_gaussian_random_field_inv in E as (f & g & Ef & -> & Hf1 & Hh1).
  apply run_bind_inv in H as (f0 & w0 & E & H). apply run_deref_inv in E as [Ea ->].
  simpl in Ea. rewrite Hf1, list_lookup_middle in Ea by reflexivity.
  injection Ea as <-.
  apply run_bind_inv in H as (m & w0 & E & H). apply run_lift_inv in E as [Em ->].
  apply run_bind_inv in H as (u & w2 & E & H).
  apply run_inplace_local_inv in E as (f0 & f' & Ea & Ef' & ->).
  rewrite Hf1, list_lookup_middle in Ea by reflexivity.
  injection Ea as <-. injection Ef' as <-.
  assert (Hf2 : <[length (frame w) := array_map (fun v => v / m)%float f]> (frame w1)
                = frame w ++ [array_map (fun v => v / m)%float f]).
  { rewrite Hf1. rewrite insert_app_r_alt by lia.
    now rewrite Nat.sub_diag. }
  apply run_bind_inv in H as (f0 & w0 & E & H). apply run_deref_inv in E as [Ea ->].
  cbn [lookup_ref set_frame frame] in Ea.
  rewrite Hf2, list_lookup_middle in Ea by reflexivity.
  injection Ea as <-.
  apply run_bind_inv in H as (a0 & w0 & E & H). apply run_deref_inv in E as [Ea ->].
  cbn [lookup_ref set_frame heap] in Ea. rewrite Hh1, HA in Ea. injection Ea as <-.
  apply run_bind_inv in H as (d & w0 & E & H). apply run_lift_inv in E as [Ed ->].
  apply run_new_inv in H as (t & Et & -> & ->).
  apply repeat_along_last_axis in Et as (a & b & Hs & Hd & Hst & Hwt & Hcells).
  cbn [array_map shape] in Hs.
  unfold last_extent in Ed. destruct (last (shape A)) as [d'|] eqn:El; [|discriminate].
  injection Ed as ->.
  exists f, m, d, t, a, b.
  split; [eauto|]. split; [exact Em|]. split; [reflexivity|]. split; [exact Hd|].
  split; [exact Hs|]. split; [exact Hst|]. split; [exact Hwt|].
  split.
  { intros Hwf i0 j l Hi Hj Hl.
    rewrite Hcells; try assumption.
    - apply (getitem_array_map (fun v => v / m)%float); [exact Hwf|].
      rewrite Hs. in_range_by_bounds.
    - unfold well_formed. cbn [array_map data shape]. now rewrite length_map. }
  cbn [set_frame frame heap]. rewrite Hf2.
  split; [f_equal; rewrite length_app; simpl; lia|].
  split; [now rewrite <- app_assoc|exact Hh1].
Qed.

End DisplacementField.

Section DisplacementFieldLayout.

Context `{RS : RandomSource} `{LM : Libm} `{SP : Scipy} `{TR : !Transform}.

Lemma lookup_app_at {A} (l k : list A) (n : nat) :
  (l ++ k) !! (length l + n) = k !! n.
Proof.
  rewrite lookup_app_r by lia. f_equal. lia.
Qed.

(** Lines 128-145 of [deformation], when they return. *)
Lemma run_displacement_field_inv (i : nat) (A : ndarray float) (alpha : float)
  (seed : option Z) (w w' : world) (r : ref) :
  heap w !! i = Some A ->
  displacement_field (Caller i) alpha seed w = (Ok r, w') ->
  exists F a b d fields maxima,
    lookup_ref r w' = Some F /\ is_local r /\ heap w' = heap w
    /\ last (shape A) = Some d /\ 0 < d
    /\ shape F = [3; a; b; d] /\ well_formed F
    /\ Forall2 (fun f m =>
                  np.max f = Ok m /\ shape f = [a; b]
                  /\ exists g, fst (power_law_field (take 2 (shape A)) alpha true g) = Ok f)
               fields maxima
    /\ length fields = 3
    /\ forall k f m i j l,
         fields !! k = Some f -> maxima !! k = Some m -> well_formed f ->
         i < a -> j < b -> l < d ->
         getitem F [k; i; j; l] = (getitem f [i; j] / m)%float.
Proof.
  intros HA H. unfold displacement_field in H. cbv zeta in H.
  apply run_bind_inv in H as (flow_x & w1 & E & H).
  apply (run_axis_flow_inv i A) in E
    as (f0 & m0 & d & t0 & a & b & Hg0 & Hm0 & Hd & Hdpos & Hs0 & Hst0 & Hwt0 & Hc0
        & -> & Hf1 & Hh1); [|exact HA].
  apply run_bind_inv in H as (flow_y & w2 & E & H).
  apply (run_axis_flow_inv i A) in E
    as (f1 & m1 & d1 & t1 & a1 & b1 & Hg1 & Hm1 & Hd1 & _ & Hs1 & Hst1 & Hwt1 & Hc1
        & -> & Hf2 & Hh2); [|now rewrite Hh1].
  apply run_bind_inv in H as (flow_z & w3 & E & H).
  apply (run_axis_flow_inv i A) in E
    as (f2 & m2 & d2 & t2 & a2 & b2 & Hg2 & Hm2 & Hd2 & _ & Hs2 & Hst2 & Hwt2 & Hc2
        & -> & Hf3 & Hh3); [|now rewrite Hh2, Hh1].
  assert (d1 = d) as -> by congruence. assert (d2 = d) as -> by congruence.
  set (n := length (frame w)) in *.
  assert (Hfr : frame w3
                = frame w ++ [array_map (fun v => v / m0)%float f0; t0;
                              array_map (fun v => v / m1)%float f1; t1;
                              array_map (fun v => v / m2)%float f2; t2]).
  { rewrite Hf3, Hf2, Hf1, <- !app_assoc. reflexivity. }
  assert (Hn1 : length (frame w1) = n + 2)
    by (rewrite Hf1, length_app; reflexivity).
  assert (Hn2 : length (frame w2) = n + 4)
    by (rewrite Hf2, length_app, Hn1; simpl; lia).
  assert (Hn3 : length (frame w3) = n + 6)
    by (rewrite Hf3, length_app, Hn2; simpl; lia).
  apply run_bind_inv in H as (fx & w0 & E & H). apply run_deref_inv in E as [Ea ->].
  cbn [lookup_ref] in Ea.
  replace (S n) with (n + 1) in Ea by lia.
  rewrite Hfr in Ea. unfold n in Ea. rewrite lookup_app_at in Ea.
  injection Ea as <-.
  apply run_bind_inv in H as (fy & w0 & E & H). apply run_deref_inv in E as [Ea ->].
  cbn [lookup_ref] in Ea.
  replace (S (length (frame w1))) with (n + 3) in Ea by lia.
  rewrite Hfr in Ea. unfold n in Ea. rewrite lookup_app_at in Ea.
  injection Ea as <-.
  apply run_bind_inv in H as (fz & w0 & E & H). apply run_deref_inv in E as [Ea ->].
  cbn [lookup_ref] in Ea.
  replace (S (length (frame w2))) with (n + 5) in Ea by lia.
  rewrite Hfr in Ea. unfold n in Ea. rewrite lookup_app_at in Ea.
  injection Ea as <-.
  apply run_new_inv in H as (F & EF & -> & ->).
  apply asarray_inv in EF as [-> Hshapes].
  apply Forall_cons in Hshapes as [Hsh1 Hshapes].
  apply Forall_cons in Hshapes as [Hsh2 _].
  rewrite Hst0, Hst1 in Hsh1. injection Hsh1 as -> ->.
  rewrite Hst0, Hst2 in Hsh2. injection Hsh2 as -> ->.
  assert (Hlen : forall t : ndarray float, shape t = [a; b; d] -> well_formed t ->
                   length (data t) = prod [a; b; d]).
  { intros t Hs Hw. now rewrite Hw, Hs. }
  eexists _, a, b, d, [f0; f1; f2], [m0; m1; m2].
  split; [apply lookup_new|]. split; [exact I|].
  split; [cbn [set_frame heap]; congruence|].
  split; [exact Hd|]. split; [exact Hdpos|].
  split; [cbn [shape length]; now rewrite Hst0|].
  split.
  { unfold well_formed. cbn [shape data map concat length].
    rewrite !length_app, Hst0.
    rewrite (Hlen t0), (Hlen t1), (Hlen t2) by assumption.
    cbn [prod fold_right length]. lia. }
  split; [repeat constructor; assumption|].
  split; [reflexivity|].
  intros k f m i0 j l Hf Hm Hwf Hi Hj Hl.
  assert (Hk : k < 3) by (apply lookup_lt_Some in Hf; simpl in Hf; lia).
  assert (Hr : in_range [a; b; d] [i0; j; l]) by in_range_by_bounds.
  unfold getitem at 1. cbn [shape data map length]. rewrite Hst0.
  change (ravel [3; a; b; d] [k; i0; j; l])
    with (k * prod [a; b; d] + ravel [a; b; d] [i0; j; l]).
  rewrite (nth_concat3 _ _ _ (prod [a; b; d])); try (now apply Hlen);
    [|exact Hk|now apply ravel_lt].
  destruct k as [|[|[|k]]]; try lia; cbn [nth];
    cbn in Hf, Hm; injection Hf as <-; injection Hm as <-.
  - rewrite <- (Hc0 Hwf i0 j l) by assumption. unfold getitem. now rewrite Hst0.
  - rewrite <- (Hc1 Hwf i0 j l) by assumption. unfold getitem. now rewrite Hst1.
  - rewrite <- (Hc2 Hwf i0 j l) by assumption. unfold getitem. now rewrite Hst2.
Qed.

End DisplacementFieldLayout.

(** X17. [deformation] returns an array only for 3-D inputs whose last
    axis is not empty: the grid of coordinates is transposed as an array of
    four axes (line 148), and each field is stacked [arr.shape[-1]] times
    and transposed as an array of three axes (lines 132, 138, 144).  For
    every other input the call raises, whatever the other arguments. *)
Theorem deformation_returns_only_for_3d
  `{RS : RandomSource} `{LM : Libm} `{SP : Scipy} `{TR : !Transform}
  (w : world) (i : nat) (A out : ndarray float)
  (max_displacement alpha : float) (order : Z) (seed : option Z) :
  heap w !! i = Some A ->
  outcome (call (deformation (Caller i) max_displacement alpha order seed)) w
  = Ok out ->
  exists s0 s1 s2, shape A = [s0; s1; s2] /\ 0 < s2.
Proof.
  intros HA H.
  rewrite outcome_call in H by (intros h; apply preserves_deformation).
  unfold outcome in H.
  destruct (deformation (Caller i) max_displacement alpha order seed (set_frame [] w))
    as [[r|e] w'] eqn:E; [|discriminate].
  unfold deformation in E.
  apply run_bind_inv in E as (flow & w1 & Ed & Ew).
  pose proof (preserves_displacement (heap w) (Caller i) max_displacement alpha seed
                (set_frame [] w) eq_refl) as Hp.
  rewrite Ed in Hp. destruct Hp as [Hk _].
  assert (Hnd : ndim A = 3).
  { apply (run_warp_rank w1 w' i A flow r order); [|exact Ew].
    rewrite Hk. exact HA. }
  unfold displacement in Ed.
  apply run_bind_inv in Ed as (flow' & w2 & Edf & _).
  apply (run_displacement_field_inv i A) in Edf
    as (F & a & b & d & fields & maxima & _ & _ & _ & Hd & Hdpos & _); [|exact HA].
  unfold ndim in Hnd.
  destruct (shape A) as [|s0 [|s1 [|s2 [|s3 l]]]]; try discriminate.
  exists s0, s1, s2. split; [reflexivity|].
  cbn in Hd. injection Hd as ->. exact Hdpos.
Qed.

(** X18. The field of unit displacements that [deformation] builds (lines
    128-145) is a well-formed array of shape [(3, a, b, arr.shape[-1])]:
    component [k] is a 2-D field of [gaussian_random_field], asked for the
    extents [arr.shape[:2]], divided by its own maximum and repeated along
    the last axis.  So the displacement along each of the three axes is the
    same in every slice [arr[..., l]]. *)
Theorem displacement_field_layout
  `{RS : RandomSource} `{LM : Libm} `{SP : Scipy} `{TR : !Transform}
  (w : world) (i : nat) (A F : ndarray float) (alpha : float) (seed : option Z) :
  heap w !! i = Some A ->
  outcome (call (displacement_field (Caller i) alpha seed)) w = Ok F ->
  exists a b d fields maxima,
    last (shape A) = Some d
    /\ shape F = [3; a; b; d] /\ well_formed F
    /\ Forall2 (fun f m =>
                  np.max f = Ok m /\ shape f = [a; b]
                  /\ exists g, fst (power_law_field (take 2 (shape A)) alpha true g) = Ok f)
               fields maxima
    /\ length fields = 3
    /\ (forall k f m i j l,
          fields !! k = Some f -> maxima !! k = Some m -> well_formed f ->
          i < a -> j < b -> l < d ->
          getitem F [k; i; j; l] = (getitem f [i; j] / m)%float)
    /\ (forall k i j l,
          Forall well_formed fields ->
          k < 3 -> i < a -> j < b -> l < d ->
          getitem F [k; i; j; l] = getitem F [k; i; j; 0]).
Proof.
  intros HA H.
  rewrite outcome_call in H by (intros h; apply preserves_displacement_field).
  unfold outcome in H.
  destruct (displacement_field (Caller i) alpha seed (set_frame [] w))
    as [[r|e] w'] eqn:E; [|discriminate].
  apply (run_displacement_field_inv i A) in E
    as (F' & a & b & d & fields & maxima & HF & _ & _ & Hd & _ & Hs & Hwf & Hfm & Hlen & Hc);
    [|exact HA].
  rewrite HF in H. injection H as ->.
  exists a, b, d, fields, maxima.
  do 5 (split; [assumption|]). split; [exact Hc|].
  intros k i0 j l Hwfs Hk Hi Hj Hl.
  destruct (fields !! k) as [f|] eqn:Ef;
    [|apply lookup_ge_None in Ef; lia].
  destruct (maxima !! k) as [m|] eqn:Em;
    [|apply lookup_ge_None in Em; apply Forall2_length in Hfm; lia].
  assert (Hwff : well_formed f).
  { eapply Forall_lookup_1; eassumption. }
  rewrite (Hc k f m i0 j l), (Hc k f m i0 j 0) by (assumption || lia).
  reflexivity.
Qed.

(** ** Where [deformation] samples *)

Section DisplacedGrid.

Context `{RS : RandomSource} `{LM : Libm} `{SP : Scipy} `{TR : !Transform}.

(** Lines 150-152: sampling a 3-D array at the points of a field of
    coordinates of shape (3, *A.shape). *)
Lemma resample_at (A L : ndarray float) (s0 s1 s2 : nat) (order : Z) :
  shape A = [s0; s1; s2] ->
  (0 <= order <= 5)%Z ->
  shape L = [3; s0; s1; s2] ->
  well_formed L ->
  result_bind (result_bind (len L) (np.reshape_rows L))
    (fun locs => result_bind (map_coordinates A locs order 0)
                   (fun transformed => np.reshape transformed (shape A)))
  = Ok (tabulate (shape A)
          (fun idx => spline_value A order 0
                        (map (fun k => getitem L (k :: idx)) [0; 1; 2]))).
Proof.
  intros Hsh Hord HshL HwfL.
  set (N := prod [s0; s1; s2]).
  assert (HL : length (data L) = 3 * N).
  { rewrite HwfL, HshL. unfold N. cbn [prod fold_right]. lia. }
  unfold len. rewrite HshL. cbn [result_bind].
  unfold np.reshape_rows. rewrite HL.
  replace (3 * N mod 3) with 0 by (rewrite Nat.mul_comm, Nat.Div0.mod_mul; reflexivity).
  replace (3 * N / 3) with N by (rewrite Nat.mul_comm, Nat.div_mul; lia).
  cbn [Nat.eqb orb negb result_bind].
  unfold map_coordinates.
  destruct (Z.ltb_spec order 0); [lia|]. destruct (Z.ltb_spec 5 order); [lia|].
  cbn [orb shape tail hd length]. unfold ndim. rewrite Hsh.
  cbn [length Nat.ltb Nat.leb orb negb Nat.eqb result_bind data].
  unfold np.reshape. cbn [data]. rewrite length_map, length_seq.
  replace (prod [N]) with N by (cbn [prod fold_right]; lia).
  fold N. rewrite Nat.eqb_refl. f_equal.
  unfold tabulate. f_equal. fold N.
  apply map_ext_in. intros m Hm. apply in_seq in Hm. f_equal.
  assert (Hm' : m < prod [s0; s1; s2]) by (fold N; lia).
  assert (Hnth : forall k,
            nth (k * N + m) (data L) 0%float
            = getitem L (k :: unravel [s0; s1; s2] m)).
  { intros k. unfold getitem. rewrite HshL.
    change (ravel [3; s0; s1; s2] (k :: unravel [s0; s1; s2] m))
      with (k * N + ravel [s0; s1; s2] (unravel [s0; s1; s2] m)).
    now rewrite ravel_unravel by exact Hm'. }
  cbn [seq map]. now rewrite !Hnth.
Qed.

(** Lines 147-152, from a field of displacements of shape (3, *A.shape). *)
Lemma run_warp_displaced (w : world) (i j : nat) (A Fd : ndarray float)
  (s0 s1 s2 : nat) (order : Z) :
  heap w !! i = Some A ->
  shape A = [s0; s1; s2] ->
  (0 <= order <= 5)%Z ->
  frame w !! j = Some Fd ->
  shape Fd = [3; s0; s1; s2] ->
  well_formed Fd ->
  outcome (warp (Caller i) (Local j) order) w
  = Ok (tabulate (shape A)
          (fun idx => spline_value A order 0
                        (map (fun k => float_of_nat (nth k idx 0%nat)
                                       + getitem Fd (k :: idx))%float
                             [0; 1; 2]))).
Proof.
  intros HA Hsh Hord HF HshF HwfF.
  set (G := tabulate [3; s0; s1; s2]
              (fun idx => float_of_nat (nth (S (nth 0 idx 0)) idx 0))).
  set (L := mk_array [3; s0; s1; s2] (zip_with PrimFloat.add (data G) (data Fd))).
  assert (HlenG : length (data G) = prod [3; s0; s1; s2])
    by apply tabulate_well_formed.
  assert (HlenF : length (data Fd) = prod [3; s0; s1; s2])
    by (now rewrite HwfF, HshF).
  assert (HwfL : well_formed L).
  { unfold well_formed, L. cbn [shape data].
    rewrite zip_with_length_same by congruence. exact HlenG. }
  pose proof (resample_at A L s0 s1 s2 order Hsh Hord eq_refl HwfL) as Hres.
  apply result_bind_inv in Hres as (locs & Hlocs & Hres).
  apply result_bind_inv in Hres as (T & HT & Hout).
  set (w1 := set_frame (frame w ++ [G]) w).
  set (w2 := set_frame (<[length (frame w) := L]> (frame w1)) w1).
  unfold outcome, warp.
  rewrite (run_bind_ok _ _ w w A) by (apply run_deref; exact HA).
  rewrite Hsh, identity_grid. fold G.
  rewrite (run_bind_ok _ _ w w1 (Local (length (frame w)))) by reflexivity.
  rewrite (run_bind_ok _ _ w1 w1 Fd)
    by (apply run_deref; simpl; apply lookup_app_l_Some; exact HF).
  rewrite (run_bind_ok _ _ w1 w2 tt).
  2:{ apply (run_inplace_local _ _ _ G).
      - simpl. apply list_lookup_middle. reflexivity.
      - unfold np.add. rewrite HshF. cbn [shape G tabulate].
        rewrite bool_decide_eq_true_2 by reflexivity. reflexivity. }
  rewrite (run_bind_ok _ _ w2 w2 L).
  2:{ apply run_deref. simpl. apply list_lookup_insert_eq.
      rewrite length_app. simpl. lia. }
  rewrite (run_bind_ok _ _ w2 w2 locs) by (unfold lift; now rewrite Hlocs).
  rewrite (run_bind_ok _ _ w2 w2 A) by (apply run_deref; exact HA).
  rewrite (run_bind_ok _ _ w2 w2 T) by (unfold lift; now rewrite HT).
  rewrite (run_bind_ok _ _ w2 w2 A) by (apply run_deref; exact HA).
  rewrite Hout, run_new_ok, lookup_new, Hsh. f_equal.
  apply tabulate_ext. intros idx Hr. f_equal.
  assert (Hcell : forall k, k < 3 ->
            getitem L (k :: idx)
            = (float_of_nat (nth k idx 0%nat) + getitem Fd (k :: idx))%float).
  { intros k Hk.
    assert (Hin : in_range [3; s0; s1; s2] (k :: idx))
      by (apply in_range_cons; [exact Hk|exact Hr]).
    pose proof (ravel_lt _ _ Hin) as Hlt.
    unfold getitem, L. cbn [shape data]. rewrite HshF.
    rewrite (nth_zip_with _ _ _ _ 0%float 0%float) by lia.
    f_equal.
    change (nth (ravel [3; s0; s1; s2] (k :: idx)) (data G) 0%float)
      with (getitem G (k :: idx)).
    unfold G. now rewrite getitem_tabulate by exact Hin. }
  cbn [map]. now rewrite !Hcell by lia.
Qed.

End DisplacedGrid.

(** X19. For a 3-D array, a spline order in [0, 5] and a field [F] of unit
    displacements of shape [(3, *arr.shape)], [deformation] returns its
    input sampled on the displaced grid: cell [idx] of the result is the
    spline through the input evaluated at the point whose k-th coordinate
    is [idx[k] + F[k, *idx] * max_displacement], for every
    [max_displacement].  Component 0 of the field moves along axis 0,
    component 1 along axis 1 and component 2 along axis 2. *)
Theorem deformation_samples_the_displaced_grid
  `{RS : RandomSource} `{LM : Libm} `{SP : Scipy} `{TR : !Transform}
  (w : world) (i : nat) (A F : ndarray float) (s0 s1 s2 : nat)
  (max_displacement alpha : float) (order : Z) (seed : option Z) :
  heap w !! i = Some A ->
  shape A = [s0; s1; s2] ->
  (0 <= order <= 5)%Z ->
  outcome (call (displacement_field (Caller i) alpha seed)) w = Ok F ->
  shape F = 3 :: shape A ->
  exists out,
    outcome (call (deformation (Caller i) max_displacement alpha order seed)) w
    = Ok out
    /\ shape out = shape A
    /\ forall idx, in_range (shape A) idx ->
         getitem out idx
         = spline_value A order 0
             (map (fun k => float_of_nat (nth k idx 0%nat)
                            + getitem F (k :: idx) * max_displacement)%float
                  [0; 1; 2]).
Proof.
  intros HA Hsh Hord HF HshF.
  rewrite outcome_call in HF by (intros h; apply preserves_displacement_field).
  rewrite outcome_call by (intros h; apply preserves_deformation).
  set (w0 := set_frame [] w) in *.
  assert (HA0 : heap w0 !! i = Some A) by exact HA.
  unfold outcome in HF.
  destruct (displacement_field (Caller i) alpha seed w0) as [[flow|e] w1] eqn:E;
    [|discriminate].
  pose proof (run_displacement_field_inv i A alpha seed w0 w1 flow HA0 E)
    as (F' & a & b & d & fields & maxima & HF' & Hloc & Hk & _ & _ & _ & HwfF & _).
  rewrite HF' in HF. injection HF as ->.
  destruct flow as [j|j]; [destruct Hloc|]. cbn [lookup_ref] in HF'.
  set (Fd := array_map (fun v => v * max_displacement)%float F).
  set (w2 := set_frame (<[j := Fd]> (frame w1)) w1).
  assert (Hwarp : deformation (Caller i) max_displacement alpha order seed w0
                  = warp (Caller i) (Local j) order w2).
  { unfold deformation, displacement.
    rewrite (run_bind_ok _ _ w0 w2 (Local j)); [reflexivity|].
    rewrite (run_bind_ok _ _ w0 w1 (Local j)) by exact E.
    rewrite (run_bind_ok _ _ w1 w2 tt); [reflexivity|].
    now apply (run_inplace_local _ _ _ F). }
  eexists. split.
  - unfold outcome. rewrite Hwarp.
    apply (run_warp_displaced w2 i j A Fd s0 s1 s2 order); try assumption.
    + simpl. now rewrite Hk.
    + simpl. apply list_lookup_insert_eq. eapply lookup_lt_Some; eassumption.
    + unfold Fd. cbn [array_map shape]. now rewrite HshF, Hsh.
    + unfold well_formed, Fd. cbn [array_map shape data]. now rewrite length_map.
  - split; [reflexivity|].
    intros idx Hr. rewrite getitem_tabulate by exact Hr. f_equal.
    assert (Hcell : forall k, k < 3 ->
              getitem Fd (k :: idx) = (getitem F (k :: idx) * max_displacement)%float).
    { intros k Hk3. unfold Fd.
      apply (getitem_array_map (fun v => v * max_displacement)%float);
        [exact HwfF|].
      rewrite HshF. now apply in_range_cons. }
    cbn [map]. now rewrite !Hcell by lia.
Qed.

(** ** The further properties, on the sample implementation *)

Section FurtherOnSample.

Import Sample.

Lemma flip_returns_a_mirror_image_on_sample :
  (heap (start [plane]) !! 0 = Some plane
   /\ outcome (call (flip (Caller 0) None (Some 3%Z))) (start [plane])
      = Ok (mk_array [2; 3] [2; 1; 0; 5; 4; 3]%float))
  /\ exists k, k < ndim plane
       /\ mk_array [2; 3] [2; 1; 0; 5; 4; 3]%float
          = tabulate (shape plane)
              (fun idx => getitem plane (np.mirror (shape plane) idx k))
       /\ True.
Proof.
  assert (H1 : heap (start [plane]) !! 0 = Some plane) by reflexivity.
  assert (H2 : outcome (call (flip (Caller 0) None (Some 3%Z))) (start [plane])
               = Ok (mk_array [2; 3] [2; 1; 0; 5; 4; 3]%float))
    by (vm_compute; reflexivity).
  split; [auto|].
  exact (flip_returns_a_mirror_image (start [plane]) 0 plane _ None (Some 3%Z) H1 H2).
Defined.

Lemma flip_keeps_the_arrays_of_the_caller_on_sample :
  heap (start [plane]) !! 0 = Some plane
  /\ hands_over_like plane 0 (start [plane])
       (call (flip (Caller 0) None None) (start [plane])).
Proof.
  assert (H1 : heap (start [plane]) !! 0 = Some plane) by reflexivity.
  split; [exact H1|].
  exact (flip_keeps_the_arrays_of_the_caller (start [plane]) 0 plane None None H1).
Defined.

Lemma flip_negative_axis_on_sample :
  (heap (start [plane]) !! 0 = Some plane
   /\ (- Z.of_nat (ndim plane) <= -1 < 0)%Z)
  /\ call (flip (Caller 0) (Some (-1)%Z) None) (start [plane])
     = call (flip (Caller 0) (Some (-1 + Z.of_nat (ndim plane))%Z) None) (start [plane]).
Proof.
  assert (H1 : heap (start [plane]) !! 0 = Some plane) by reflexivity.
  assert (H2 : (- Z.of_nat (ndim plane) <= -1 < 0)%Z)
    by (vm_compute; split; [discriminate|reflexivity]).
  split; [auto|].
  exact (flip_negative_axis (start [plane]) 0 plane (-1) None H1 H2).
Defined.

Lemma flip_rejects_axis_out_of_bounds_on_sample :
  (heap (start [plane]) !! 0 = Some plane
   /\ (2 < - Z.of_nat (ndim plane) \/ Z.of_nat (ndim plane) <= 2)%Z)
  /\ call (flip (Caller 0) (Some 2%Z) (Some 3%Z)) (start [plane])
     = (Raise (ValueError "axis is out of bounds for array"), start [plane]).
Proof.
  assert (H1 : heap (start [plane]) !! 0 = Some plane) by reflexivity.
  assert (H2 : (2 < - Z.of_nat (ndim plane) \/ Z.of_nat (ndim plane) <= 2)%Z)
    by (right; vm_compute; discriminate).
  split; [auto|].
  exact (flip_rejects_axis_out_of_bounds (start [plane]) 0 plane 2 (Some 3%Z) H1 H2).
Defined.

Lemma flip_seeded_axis_on_sample :
  (heap (start [plane]) !! 0 = Some plane
   /\ (0 <= 3 < 2 ^ 32)%Z
   /\ 0 < ndim plane)
  /\ outcome (call (flip (Caller 0) None (Some 3%Z))) (start [plane])
     = outcome (call (flip (Caller 0)
                        (Some (fst (rk_bounded (Z.of_nat (ndim plane) - 1) (rk_seed 3))))
                        None)) (start [plane])
  /\ generator (snd (call (flip (Caller 0) None (Some 3%Z)) (start [plane])))
     = snd (rk_bounded (Z.of_nat (ndim plane) - 1) (rk_seed 3)).
Proof.
  assert (H1 : heap (start [plane]) !! 0 = Some plane) by reflexivity.
  assert (H2 : (0 <= 3 < 2 ^ 32)%Z) by (vm_compute; split; [discriminate|reflexivity]).
  assert (H3 : 0 < ndim plane) by (vm_compute; lia).
  split; [auto|].
  exact (flip_seeded_axis (start [plane]) 0 plane 3 H1 H2 H3).
Defined.

Lemma flip_twice_same_seed_on_sample :
  (heap (start [plane]) !! 0 = Some plane
   /\ well_formed plane
   /\ (0 <= 3 < 2 ^ 32)%Z
   /\ (0 <= fst (rk_bounded (Z.of_nat (ndim plane) - 1) (rk_seed 3))
       < Z.of_nat (ndim plane))%Z)
  /\ outcome (once ← call (flip (Caller 0) None (Some 3%Z));
              call (flip once None (Some 3%Z))) (start [plane])
     = Ok plane.
Proof.
  assert (H1 : heap (start [plane]) !! 0 = Some plane) by reflexivity.
  assert (H2 : well_formed plane) by reflexivity.
  assert (H3 : (0 <= 3 < 2 ^ 32)%Z) by (vm_compute; split; [discriminate|reflexivity]).
  assert (H4 : (0 <= fst (rk_bounded (Z.of_nat (ndim plane) - 1) (rk_seed 3))
                < Z.of_nat (ndim plane))%Z)
    by (vm_compute; split; [discriminate|reflexivity]).
  split; [auto|].
  exact (flip_twice_same_seed (start [plane]) 0 plane 3 H1 H2 H3 H4).
Defined.

Lemma random_generator_lognormal_values_on_sample :
  (0 <= 42 < 2 ^ 32)%Z
  /\ random_generator (0%float, 10%float) 3 "lognormal" (Some 42%Z) (start [])
     = (Ok (mk_array [3]
              (zip_with
                 (fun g b => exp (0 + 1 * g) / 12.5
                             * (float_of_Z (b * 2 - 1) * snd (0%float, 10%float)))%float
                 (fst (rk_fill 3 rk_gauss (rk_seed 42)))
                 (fst (rk_fill 3 (rk_bounded 1) (rk_seed 42))))),
        set_generator (snd (rk_fill 3 rk_gauss (rk_seed 42))) (start [])).
Proof.
  assert (H : (0 <= 42 < 2 ^ 32)%Z) by (vm_compute; split; [discriminate|reflexivity]).
  split; [exact H|].
  exact (random_generator_lognormal_values (0%float, 10%float) 3 42 (start []) H).
Defined.

Lemma random_generator_returns_size_values_on_sample :
  random_generator (0%float, 1%float) 3 "uniform" (Some 42%Z) (start [])
  = (Ok (mk_array [3] [0.25%float; 0.625%float; 0.5%float]),
     mk_world 31%Z (fun n => Z.of_nat n) 0 [] [])
  /\ shape (mk_array [3] [0.25%float; 0.625%float; 0.5%float]) = [3]
  /\ length (data (mk_array [3] [0.25%float; 0.625%float; 0.5%float])) = 3
  /\ heap (mk_world 31%Z (fun n => Z.of_nat n) 0 [] []) = heap (start [])
  /\ frame (mk_world 31%Z (fun n => Z.of_nat n) 0 [] []) = frame (start []).
Proof.
  assert (H : random_generator (0%float, 1%float) 3 "uniform" (Some 42%Z) (start [])
              = (Ok (mk_array [3] [0.25%float; 0.625%float; 0.5%float]),
                 mk_world 31%Z (fun n => Z.of_nat n) 0 [] []))
    by reflexivity.
  split; [exact H|].
  exact (random_generator_returns_size_values (0%float, 1%float) 3 "uniform"
           (Some 42%Z) (start []) _ _ H).
Defined.

Lemma seed_out_of_range_rejected_on_sample :
  (-1 < 0 \/ 2 ^ 32 <= -1)%Z
  /\ ("lognormal"%string = "uniform"%string \/ "lognormal"%string = "lognormal"%string ->
      random_generator (0%float, 1%float) 3 "lognormal" (Some (-1)%Z) (start [plane])
      = (Raise (ValueError "Seed must be between 0 and 2**32 - 1"), start [plane]))
  /\ flip (Caller 0) None (Some (-1)%Z) (start [plane])
     = (Raise (ValueError "Seed must be between 0 and 2**32 - 1"), start [plane]).
Proof.
  assert (H : (-1 < 0 \/ 2 ^ 32 <= -1)%Z) by (left; reflexivity).
  split; [exact H|].
  exact (seed_out_of_range_rejected (0%float, 1%float) 3 "lognormal" (Caller 0) (-1)
           (start [plane]) H).
Defined.

Lemma affine_returns_only_for_3d_on_sample :
  (heap (start [cube]) !! 0 = Some cube
   /\ outcome (call (affine (Caller 0) (Scalar 10) (Scalar 10) 0.25 3 "uniform"
                       (Some 42%Z))) (start [cube])
      = Ok cube)
  /\ ndim cube = 3.
Proof.
  assert (H1 : heap (start [cube]) !! 0 = Some cube) by reflexivity.
  assert (H2 : outcome (call (affine (Caller 0) (Scalar 10) (Scalar 10) 0.25 3 "uniform"
                                (Some 42%Z))) (start [cube])
               = Ok cube) by (vm_compute; reflexivity).
  split; [auto|].
  exact (affine_returns_only_for_3d (start [cube]) 0 cube cube (Scalar 10) (Scalar 10)
           0.25 3 "uniform" (Some 42%Z) H1 H2).
Defined.

Lemma affine_errors_before_drawing_on_sample :
  (heap (start [cube]) !! 0 = Some cube
   /\ interval (Scalar 10) = Ok ((-10)%float, 10%float)
   /\ interval (Bounds 0 5) = Ok (0%float, 5%float))
  /\ ("bogus"%string <> "uniform"%string /\ "bogus"%string <> "lognormal"%string ->
      affine (Caller 0) (Scalar 10) (Bounds 0 5) 0.25 3 "bogus" (Some (-1)%Z)
             (start [cube])
      = (Raise UnsupportedDistribution, start [cube]))
  /\ (forall s, Some (-1)%Z = Some s -> (s < 0 \/ 2 ^ 32 <= s)%Z ->
      "bogus"%string = "uniform"%string \/ "bogus"%string = "lognormal"%string ->
      affine (Caller 0) (Scalar 10) (Bounds 0 5) 0.25 3 "bogus" (Some (-1)%Z)
             (start [cube])
      = (Raise (ValueError "Seed must be between 0 and 2**32 - 1"), start [cube])).
Proof.
  assert (H1 : heap (start [cube]) !! 0 = Some cube) by reflexivity.
  assert (H2 : interval (Scalar 10) = Ok ((-10)%float, 10%float)) by reflexivity.
  assert (H3 : interval (Bounds 0 5) = Ok (0%float, 5%float)) by reflexivity.
  split; [auto|].
  exact (affine_errors_before_drawing (start [cube]) 0 cube (Scalar 10) (Bounds 0 5)
           _ _ 0.25 3 "bogus" (Some (-1)%Z) H1 H2 H3).
Defined.

Lemma affine_uniform_parameters_on_sample :
  (heap (start [cube]) !! 0 = Some cube
   /\ affine_draws (Caller 0) (Scalar 10) (Bounds 0 5) 0.25 "uniform" (Some 42%Z)
                   (start [cube])
      = (Ok (mk_array [3] [(-5)%float; 2.5%float; 0%float],
             mk_array [3] [1.25%float; 3.125%float; 2.5%float],
             mk_array [3] [0.875%float; 1.0625%float; 1%float]),
         mk_world 31%Z (fun n => Z.of_nat n) 0 [cube] []))
  /\ exists rot tr,
       interval (Scalar 10) = Ok rot /\ interval (Bounds 0 5) = Ok tr
       /\ let u := fst (rk_fill (ndim cube) rk_double (rk_seed 42)) in
          let scaled low high :=
            mk_array [ndim cube] (map (fun u_k => low + (high - low) * u_k)%float u) in
          mk_array [3] [(-5)%float; 2.5%float; 0%float] = scaled (fst rot) (snd rot)
          /\ mk_array [3] [1.25%float; 3.125%float; 2.5%float] = scaled (fst tr) (snd tr)
          /\ mk_array [3] [0.875%float; 1.0625%float; 1%float]
             = scaled (1 - 0.25)%float (1 + 0.25)%float
          /\ mk_world 31%Z (fun n => Z.of_nat n) 0 [cube] []
             = set_generator (snd (rk_fill (ndim cube) rk_double (rk_seed 42)))
                 (start [cube]).
Proof.
  assert (H1 : heap (start [cube]) !! 0 = Some cube) by reflexivity.
  assert (H2 : affine_draws (Caller 0) (Scalar 10) (Bounds 0 5) 0.25 "uniform" (Some 42%Z)
                            (start [cube])
               = (Ok (mk_array [3] [(-5)%float; 2.5%float; 0%float],
                      mk_array [3] [1.25%float; 3.125%float; 2.5%float],
                      mk_array [3] [0.875%float; 1.0625%float; 1%float]),
                  mk_world 31%Z (fun n => Z.of_nat n) 0 [cube] []))
    by reflexivity.
  split; [auto|].
  exact (affine_uniform_parameters (start [cube]) _ 0 cube (Scalar 10) (Bounds 0 5)
           0.25 42 _ _ _ H1 H2).
Defined.

Lemma affine_zero_zoom_on_sample :
  (heap (start [cube]) !! 0 = Some cube
   /\ Forall (fun u => is_finite u = true)
             (fst (rk_fill (ndim cube) rk_double (rk_seed 42)))
   /\ affine_draws (Caller 0) (Scalar 10) (Bounds 0 5) 0 "uniform" (Some 42%Z)
                   (start [cube])
      = (Ok (mk_array [3] [(-5)%float; 2.5%float; 0%float],
             mk_array [3] [1.25%float; 3.125%float; 2.5%float],
             mk_array [3] [1%float; 1%float; 1%float]),
         mk_world 31%Z (fun n => Z.of_nat n) 0 [cube] []))
  /\ mk_array [3] [1%float; 1%float; 1%float]
     = mk_array [ndim cube] (replicate (ndim cube) 1%float).
Proof.
  assert (H1 : heap (start [cube]) !! 0 = Some cube) by reflexivity.
  assert (H2 : Forall (fun u => is_finite u = true)
                      (fst (rk_fill (ndim cube) rk_double (rk_seed 42))))
    by (repeat constructor).
  assert (H3 : affine_draws (Caller 0) (Scalar 10) (Bounds 0 5) 0 "uniform" (Some 42%Z)
                            (start [cube])
               = (Ok (mk_array [3] [(-5)%float; 2.5%float; 0%float],
                      mk_array [3] [1.25%float; 3.125%float; 2.5%float],
                      mk_array [3] [1%float; 1%float; 1%float]),
                  mk_world 31%Z (fun n => Z.of_nat n) 0 [cube] []))
    by reflexivity.
  split; [auto|].
  exact (affine_zero_zoom (start [cube]) _ 0 cube (Scalar 10) (Bounds 0 5)
           "uniform" 42 _ _ _ H1 H2 H3).
Defined.

Lemma affine_samples_along_the_flow_on_sample :
  exists r w',
    (heap (start [cube]) !! 0 = Some cube
     /\ affine (Caller 0) (Scalar 10) (Scalar 10) 0.25 3 "uniform" (Some 42%Z)
               (start [cube])
        = (Ok r, w'))
    /\ exists random_rotations random_translations random_zooms R matrix flow out,
         fst (affine_draws (Caller 0) (Scalar 10) (Scalar 10) 0.25 "uniform" (Some 42%Z)
                (start [cube]))
         = Ok (random_rotations, random_translations, random_zooms)
         /\ from_euler_xyz random_rotations = Ok R
         /\ compose random_translations R random_zooms = Ok matrix
         /\ affine_flow matrix (shape cube) = Ok flow
         /\ (0 <= 3 <= 5)%Z
         /\ lookup_ref r w' = Some out
         /\ shape out = shape cube
         /\ forall idx, in_range (shape cube) idx ->
              getitem out idx
              = spline_value cube 3 0
                  (map (fun k => nth (k * prod (shape cube) + ravel (shape cube) idx)
                                     (data flow) 0%float)
                       (seq 0 (ndim cube))).
Proof.
  assert (H1 : heap (start [cube]) !! 0 = Some cube) by reflexivity.
  assert (H2 : exists r w',
             affine (Caller 0) (Scalar 10) (Scalar 10) 0.25 3 "uniform" (Some 42%Z)
                    (start [cube])
             = (Ok r, w'))
    by (vm_compute; eexists _, _; reflexivity).
  destruct H2 as (r & w' & H2). exists r, w'.
  split; [auto|].
  exact (affine_samples_along_the_flow (start [cube]) w' 0 cube (Scalar 10) (Scalar 10)
           0.25 3 "uniform" (Some 42%Z) r H1 H2).
Defined.

Lemma deformation_returns_only_for_3d_on_sample :
  (heap (start [cube]) !! 0 = Some cube
   /\ outcome (call (deformation (Caller 0) 0 3 3 (Some 42%Z))) (start [cube])
      = Ok cube)
  /\ exists s0 s1 s2, shape cube = [s0; s1; s2] /\ 0 < s2.
Proof.
  assert (H1 : heap (start [cube]) !! 0 = Some cube) by reflexivity.
  assert (H2 : outcome (call (deformation (Caller 0) 0 3 3 (Some 42%Z))) (start [cube])
               = Ok cube)
    by (vm_compute; reflexivity).
  split; [auto|].
  exact (deformation_returns_only_for_3d (start [cube]) 0 cube _ 0 3 3 (Some 42%Z) H1 H2).
Defined.

Lemma displacement_field_layout_on_sample :
  (heap (start [cube]) !! 0 = Some cube
   /\ outcome (call (displacement_field (Caller 0) 3 (Some 42%Z))) (start [cube])
      = Ok cube_field)
  /\ exists a b d fields maxima,
       last (shape cube) = Some d
       /\ shape cube_field = [3; a; b; d] /\ well_formed cube_field
       /\ Forall2 (fun f m =>
                     np.max f = Ok m /\ shape f = [a; b]
                     /\ exists g,
                          fst (power_law_field (take 2 (shape cube)) 3 true g) = Ok f)
                  fields maxima
       /\ length fields = 3
       /\ (forall k f m i j l,
             fields !! k = Some f -> maxima !! k = Some m -> well_formed f ->
             i < a -> j < b -> l < d ->
             getitem cube_field [k; i; j; l] = (getitem f [i; j] / m)%float)
       /\ (forall k i j l,
             Forall well_formed fields ->
             k < 3 -> i < a -> j < b -> l < d ->
             getitem cube_field [k; i; j; l] = getitem cube_field [k; i; j; 0]).
Proof.
  assert (H1 : heap (start [cube]) !! 0 = Some cube) by reflexivity.
  assert (H2 : outcome (call (displacement_field (Caller 0) 3 (Some 42%Z))) (start [cube])
               = Ok cube_field) by (vm_compute; reflexivity).
  split; [auto|].
  exact (displacement_field_layout (start [cube]) 0 cube cube_field 3 (Some 42%Z) H1 H2).
Defined.

Lemma deformation_samples_the_displaced_grid_on_sample :
  (heap (start [cube]) !! 0 = Some cube
   /\ shape cube = [2; 2; 2]
   /\ (0 <= 3 <= 5)%Z
   /\ outcome (call (displacement_field (Caller 0) 3 (Some 42%Z))) (start [cube])
      = Ok cube_field
   /\ shape cube_field = 3 :: shape cube)
  /\ exists out,
       outcome (call (deformation (Caller 0) 4 3 3 (Some 42%Z))) (start [cube]) = Ok out
       /\ shape out = shape cube
       /\ forall idx, in_range (shape cube) idx ->
            getitem out idx
            = spline_value cube 3 0
                (map (fun k => float_of_nat (nth k idx 0%nat)
                               + getitem cube_field (k :: idx) * 4)%float
                     [0; 1; 2]).
Proof.
  assert (H1 : heap (start [cube]) !! 0 = Some cube) by reflexivity.
  assert (H2 : shape cube = [2; 2; 2]) by reflexivity.
  assert (H3 : (0 <= 3 <= 5)%Z) by (split; discriminate).
  assert (H4 : outcome (call (displacement_field (Caller 0) 3 (Some 42%Z))) (start [cube])
               = Ok cube_field) by (vm_compute; reflexivity).
  assert (H5 : shape cube_field = 3 :: shape cube) by reflexivity.
  split; [auto 10|].
  exact (deformation_samples_the_displaced_grid (start [cube]) 0 cube cube_field 2 2 2
           4 3 3 (Some 42%Z) H1 H2 H3 H4 H5).
Defined.

End FurtherOnSample.

(** * Before and after the interpolation *)

(** ** What precedes the call of [map_coordinates] *)

Section Factoring.

Context `{RS : RandomSource} `{LM : Libm} `{SP : Scipy} `{TR : !Transform}.

Lemma run_bind_assoc {A B C} (m : M A) (f : A -> M B) (g : B -> M C) (w : world) :
  ((m ≫= f) ≫= g) w = (m ≫= (fun a => f a ≫= g)) w.
Proof. rewrite !run_bind. destruct (m w) as [[a|e] w']; reflexivity. Qed.

Lemma run_bind_ext {A B} (m : M A) (f g : A -> M B) (w : world) :
  (forall a w1, m w = (Ok a, w1) -> f a w1 = g a w1) ->
  (m ≫= f) w = (m ≫= g) w.
Proof.
  intros H. rewrite !run_bind.
  destruct (m w) as [[a|e] w1]; [now apply H|reflexivity].
Qed.

Lemma run_deref_twice {B} (arr : ref) (k : ndarray float -> M B)
  (a : ndarray float) (w w1 : world) :
  deref arr w = (Ok a, w1) -> (deref arr ≫= k) w1 = k a w1.
Proof.
  intros E. apply run_deref_inv in E as [E ->].
  now rewrite (run_bind_ok _ _ w w a) by (now apply run_deref).
Qed.

(** [affine] is [affine_sampling], then the interpolation and the reshape
    of lines 73-74. *)
Lemma affine_factored (arr : ref) (rotation translation : magnitude)
  (zoom : float) (order : Z) (dist : string) (seed : option Z) (w : world) :
  affine arr rotation translation zoom order dist seed w
  = ('(a, locs) ← affine_sampling arr rotation translation zoom dist seed;
     transformed ← lift (map_coordinates a locs order 0);
     new (np.reshape transformed (shape a))) w.
Proof.
  symmetry. unfold affine, affine_sampling.
  rewrite run_bind_assoc. apply run_bind_ext. intros [[rr rt] rz] w1 _.
  rewrite run_bind_assoc. apply run_bind_ext. intros R w2 _.
  rewrite run_bind_assoc. apply run_bind_ext. intros Mx w3 _.
  rewrite run_bind_assoc. apply run_bind_ext. intros a w4 Ea. cbv zeta.
  rewrite run_bind_assoc. apply run_bind_ext. intros flow w5 Ef.
  apply run_lift_inv in Ef as [_ ->].
  rewrite run_bind_assoc. apply run_bind_ext. intros locs w6 El.
  apply run_lift_inv in El as [_ ->].
  rewrite run_bind_assoc.
  rewrite !(run_deref_twice arr _ a w3 w4 Ea).
  rewrite run_bind, run_ret. reflexivity.
Qed.

(** [warp] is [warp_sampling], then the interpolation and the reshape of
    lines 151-152. *)
Lemma warp_factored (arr flow : ref) (order : Z) (w : world) :
  warp arr flow order w
  = ('(a, locs) ← warp_sampling arr flow;
     transformed ← lift (map_coordinates a locs order 0);
     a ← deref arr;
     new (np.reshape transformed (shape a))) w.
Proof.
  symmetry. unfold warp, warp_sampling.
  rewrite run_bind_assoc. apply run_bind_ext. intros a w1 _. cbv zeta.
  rewrite run_bind_assoc. apply run_bind_ext. intros locs w2 _.
  rewrite run_bind_assoc. apply run_bind_ext. intros f w3 _.
  rewrite run_bind_assoc. apply run_bind_ext. intros u w4 _.
  rewrite run_bind_assoc. apply run_bind_ext. intros l w5 _.
  rewrite run_bind_assoc. apply run_bind_ext. intros locs' w6 _.
  rewrite run_bind_assoc. apply run_bind_ext. intros a' w7 _.
  rewrite run_bind, run_ret. reflexivity.
Qed.

Lemma deformation_factored (arr : ref) (max_displacement alpha : float)
  (order : Z) (seed : option Z) (w : world) :
  deformation arr max_displacement alpha order seed w
  = ('(a, locs) ← deformation_sampling arr max_displacement alpha seed;
     transformed ← lift (map_coordinates a locs order 0);
     a ← deref arr;
     new (np.reshape transformed (shape a))) w.
Proof.
  symmetry. unfold deformation, deformation_sampling.
  rewrite run_bind_assoc. apply run_bind_ext. intros flow w1 _.
  symmetry. apply warp_factored.
Qed.

End Factoring.

(** C6 (amended). With a spline order outside [0, 5], [affine] and
    [deformation] never return an array and never clamp the order, and they
    do not check it themselves.  They first do all that precedes the
    interpolation: the draws from the process-wide generator and the
    computation of the sampling coordinates (lines 57-72, lines 128-150).
    If that raises, the caller sees that exception, as it does for every
    order.  If not, [map_coordinates] raises
    [RuntimeError("spline order not supported")], and the process is left in
    the state in which the coordinates were computed. *)
Theorem order_out_of_range_rejected
  `{RS : RandomSource} `{LM : Libm} `{SP : Scipy} `{TR : !Transform}
  (w : world) (arr : ref) (rotation translation : magnitude)
  (zoom max_displacement alpha : float) (order : Z)
  (dist : string) (seed : option Z) :
  (order < 0 \/ 5 < order)%Z ->
  affine arr rotation translation zoom order dist seed w
  = match affine_sampling arr rotation translation zoom dist seed w with
    | (Ok _, w') => (Raise SplineOrderError, w')
    | (Raise e, w') => (Raise e, w')
    end
  /\ deformation arr max_displacement alpha order seed w
     = match deformation_sampling arr max_displacement alpha seed w with
       | (Ok _, w') => (Raise SplineOrderError, w')
       | (Raise e, w') => (Raise e, w')
       end
  /\ (forall any_order e w',
        affine_sampling arr rotation translation zoom dist seed w = (Raise e, w') ->
        affine arr rotation translation zoom any_order dist seed w = (Raise e, w'))
  /\ (forall any_order e w',
        deformation_sampling arr max_displacement alpha seed w = (Raise e, w') ->
        deformation arr max_displacement alpha any_order seed w = (Raise e, w')).
Proof.
  intros H. split; [|split; [|split]].
  - rewrite affine_factored, run_bind.
    destruct (affine_sampling arr rotation translation zoom dist seed w)
      as [[[a locs]|e] w']; [|reflexivity].
    rewrite run_bind. unfold lift.
    now rewrite map_coordinates_bad_order.
  - rewrite deformation_factored, run_bind.
    destruct (deformation_sampling arr max_displacement alpha seed w)
      as [[[a locs]|e] w']; [|reflexivity].
    rewrite run_bind. unfold lift.
    now rewrite map_coordinates_bad_order.
  - intros any_order e w' E. now rewrite affine_factored, run_bind, E.
  - intros any_order e w' E. now rewrite deformation_factored, run_bind, E.
Qed.

(** ** The array handed over *)

Section ArraysHandedOver.

Context `{RS : RandomSource} `{LM : Libm} `{SP : Scipy} `{TR : !Transform}.

Lemma hoare_new_reshape_array h (t : ndarray float) (sh : list nat) :
  hoare (keeps h) (new (np.reshape t sh))
        (fun r w => keeps h w /\ new_array_with_shape sh r w) (keeps h).
Proof.
  intros w Hw. unfold np.reshape.
  destruct (Nat.eqb_spec (length (data t)) (prod sh)) as [E|]; [|exact Hw].
  rewrite run_new_ok. split; [exact Hw|].
  eexists _, _. split; [reflexivity|].
  split; [simpl; apply list_lookup_middle; reflexivity|].
  split; [reflexivity|exact E].
Qed.

Lemma hoare_affine_array h (i : nat) (A : ndarray float)
  (rotation translation : magnitude) (zoom : float) (order : Z)
  (dist : string) (seed : option Z) :
  h !! i = Some A ->
  hoare (keeps h)
        (affine (Caller i) rotation translation zoom order dist seed)
        (fun r w => keeps h w /\ new_array_with_shape (shape A) r w) (keeps h).
Proof.
  intros HA. unfold affine.
  eapply preserves_bind_hoare; [apply preserves_affine_draws|].
  intros [[rr rt] rz] _.
  eapply preserves_bind_hoare; [apply preserves_lift|]. intros rr' _.
  eapply preserves_bind_hoare; [apply preserves_lift|]. intros aff _.
  eapply preserves_bind_hoare; [apply preserves_deref|]. intros a Ha.
  specialize (Ha i eq_refl). rewrite HA in Ha. injection Ha as <-.
  eapply preserves_bind_hoare; [apply preserves_lift|]. intros flow _.
  eapply preserves_bind_hoare; [apply preserves_lift|]. intros locs _.
  eapply preserves_bind_hoare; [apply preserves_deref|]. intros a' _.
  eapply preserves_bind_hoare; [apply preserves_lift|]. intros transformed _.
  apply hoare_new_reshape_array.
Qed.

Lemma hoare_warp_array h (i : nat) (A : ndarray float) (flow : ref) (order : Z) :
  h !! i = Some A -> is_local flow ->
  hoare (keeps h) (warp (Caller i) flow order)
        (fun r w => keeps h w /\ new_array_with_shape (shape A) r w) (keeps h).
Proof.
  intros HA Hflow. unfold warp.
  eapply preserves_bind_hoare; [apply preserves_deref|]. intros a _.
  eapply preserves_bind_hoare; [apply preserves_new|]. intros locs Hlocs.
  eapply preserves_bind_hoare; [apply preserves_deref|]. intros f _.
  eapply preserves_bind_hoare; [apply preserves_inplace; assumption|]. intros _ _.
  eapply preserves_bind_hoare; [apply preserves_deref|]. intros l _.
  eapply preserves_bind_hoare; [apply preserves_lift|]. intros locs2 _.
  eapply preserves_bind_hoare; [apply preserves_deref|]. intros a1 _.
  eapply preserves_bind_hoare; [apply preserves_lift|]. intros transformed _.
  eapply preserves_bind_hoare; [apply preserves_deref|]. intros a2 Ha.
  specialize (Ha i eq_refl). rewrite HA in Ha. injection Ha as <-.
  apply hoare_new_reshape_array.
Qed.

Lemma hoare_deformation_array h (i : nat) (A : ndarray float)
  (max_displacement alpha : float) (order : Z) (seed : option Z) :
  h !! i = Some A ->
  hoare (keeps h) (deformation (Caller i) max_displacement alpha order seed)
        (fun r w => keeps h w /\ new_array_with_shape (shape A) r w) (keeps h).
Proof.
  intros HA. unfold deformation.
  eapply preserves_bind_hoare; [apply preserves_displacement|].
  intros flow Hflow. now apply hoare_warp_array.
Qed.

Lemma call_hands_over_array (body : M ref) (A : ndarray float) (i : nat) (w : world) :
  heap w !! i = Some A ->
  hoare (keeps (heap w)) body
        (fun r w' => keeps (heap w) w' /\ new_array_with_shape (shape A) r w')
        (keeps (heap w)) ->
  hands_over_array_like A i w (call body w).
Proof.
  intros HA H. specialize (H (set_frame [] w) eq_refl).
  unfold hands_over_array_like, call.
  destruct (body (set_frame [] w)) as [[r|e] w']; [|split; [exact H|reflexivity]].
  destruct H as (Hk & j & out & -> & Hj & Hsh & Hwf). rewrite Hj.
  exists out. unfold keeps in Hk. cbn [heap frame set_frame set_heap].
  rewrite Hk. repeat split; auto. now apply lookup_app_l_Some.
Qed.

(** Line 72 of [affine]: the coordinates, one row per axis. *)
Lemma run_affine_sampling_inv (w w1 : world) (i : nat) (A a locs : ndarray float)
  (rotation translation : magnitude) (zoom : float) (dist : string)
  (seed : option Z) :
  heap w !! i = Some A ->
  affine_sampling (Caller i) rotation translation zoom dist seed w
  = (Ok (a, locs), w1) ->
  a = A /\ ndim A <> 0
  /\ shape locs = [ndim A; length (data locs) / ndim A].
Proof.
  intros HA H. unfold affine_sampling in H.
  apply run_bind_inv in H as ([[rr rt] rz] & w2 & Ed & H).
  pose proof (affine_draws_inv _ _ _ A _ _ _ _ _ _ _ _ HA Ed)
    as (_ & _ & _ & _ & _ & _ & _ & _ & _ & _ & _ & _ & _ & _ & Hheap).
  apply run_bind_inv in H as (R & w0 & E & H). apply run_lift_inv in E as [_ ->].
  apply run_bind_inv in H as (Mx & w0 & E & H). apply run_lift_inv in E as [_ ->].
  apply run_bind_inv in H as (a0 & w0 & E & H). apply run_deref_inv in E as [Ea ->].
  simpl in Ea. rewrite Hheap, HA in Ea. injection Ea as <-.
  cbv zeta in H.
  apply run_bind_inv in H as (flow & w0 & E & H). apply run_lift_inv in E as [_ ->].
  apply run_bind_inv in H as (locs0 & w0 & E & H). apply run_lift_inv in E as [El ->].
  apply run_bind_inv in H as (a0 & w0 & E & H). apply run_deref_inv in E as [Ea ->].
  simpl in Ea. rewrite Hheap, HA in Ea. injection Ea as <-.
  rewrite run_ret in H. injection H as <- <- <-.
  unfold np.reshape_rows in El.
  destruct (Nat.eqb_spec (length (shape A)) 0) as [|Hn]; [discriminate|].
  destruct (negb (length (data flow) mod length (shape A) =? 0)); [discriminate|].
  injection El as <-. auto.
Qed.

(** Lines 73-74 of [affine], with an order in [0, 5] and one point of
    coordinates per cell of the input. *)
Lemma run_affine_returns (w w1 : world) (i : nat) (A a locs : ndarray float)
  (rotation translation : magnitude) (zoom : float) (order : Z)
  (dist : string) (seed : option Z) :
  heap w !! i = Some A ->
  (0 <= order <= 5)%Z ->
  affine_sampling (Caller i) rotation translation zoom dist seed w
  = (Ok (a, locs), w1) ->
  length (data locs) = ndim A * prod (shape A) ->
  exists out,
    affine (Caller i) rotation translation zoom order dist seed w
    = (Ok (Local (length (frame w1))), set_frame (frame w1 ++ [out]) w1).
Proof.
  intros HA Hord E Hlen.
  destruct (run_affine_sampling_inv _ _ _ A _ _ _ _ _ _ _ HA E) as (-> & Hn & Hsh).
  rewrite affine_factored, run_bind, E.
  assert (Hdiv : length (data locs) / ndim A = prod (shape A)).
  { rewrite Hlen, Nat.mul_comm. now apply Nat.div_mul. }
  rewrite Hdiv in Hsh.
  unfold map_coordinates.
  destruct (Z.ltb_spec order 0); [lia|]. destruct (Z.ltb_spec 5 order); [lia|].
  rewrite Hsh. cbn [orb tail hd length].
  destruct (Nat.ltb_spec (ndim A) 1); [lia|]. rewrite Nat.eqb_refl.
  cbn [Nat.ltb Nat.leb orb negb].
  rewrite run_bind. unfold lift. unfold np.reshape. cbn [data].
  rewrite length_map, length_seq.
  replace (prod [prod (shape A)]) with (prod (shape A))
    by (cbn [prod fold_right]; lia).
  rewrite Nat.eqb_refl, run_new_ok. eauto.
Qed.

End ArraysHandedOver.

Section DeformationReturns.

Context `{RS : RandomSource} `{LM : Libm} `{SP : Scipy} `{TR : !Transform}.

(** Lines 128-146 of [deformation], when they return: the displacements
    are an array of the running call, one cell per index. *)
Lemma run_displacement_inv (i : nat) (A : ndarray float)
  (max_displacement alpha : float) (seed : option Z) (w w' : world) (r : ref) :
  heap w !! i = Some A ->
  displacement (Caller i) max_displacement alpha seed w = (Ok r, w') ->
  exists j Fd, r = Local j /\ frame w' !! j = Some Fd /\ well_formed Fd
               /\ heap w' = heap w.
Proof.
  intros HA H. unfold displacement in H.
  apply run_bind_inv in H as (flow & w1 & E & H).
  apply (run_displacement_field_inv i A) in E
    as (F & a & b & d & fields & maxima & HF & Hloc & Hk & _ & _ & _ & HwfF & _);
    [|exact HA].
  destruct flow as [j|j]; [destruct Hloc|]. cbn [lookup_ref] in HF.
  apply run_bind_inv in H as (u & w2 & E & H).
  apply run_inplace_local_inv in E as (F0 & F' & EF0 & EF' & ->).
  rewrite HF in EF0. injection EF0 as <-. injection EF' as <-.
  rewrite run_ret in H. injection H as <- <-.
  eexists j, _. split; [reflexivity|]. split.
  - cbn [frame set_frame]. apply list_lookup_insert_eq.
    eapply lookup_lt_Some; eassumption.
  - split; [|exact Hk].
    unfold well_formed. cbn [array_map shape data]. rewrite length_map. exact HwfF.
Qed.

(** Lines 147-149 of [deformation], when they return: the input has three
    axes and the displacements the shape of the grid. *)
Lemma run_warp_sampling_inv (w w1 : world) (i j : nat)
  (A Fd a locs : ndarray float) :
  heap w !! i = Some A ->
  frame w !! j = Some Fd ->
  warp_sampling (Caller i) (Local j) w = (Ok (a, locs), w1) ->
  exists s0 s1 s2, shape A = [s0; s1; s2] /\ shape Fd = [3; s0; s1; s2].
Proof.
  intros HA HF H. unfold warp_sampling in H.
  apply run_bind_inv in H as (a0 & w0 & E & H). apply run_deref_inv in E as [Ea ->].
  simpl in Ea. rewrite HA in Ea. injection Ea as <-. cbv zeta in H.
  apply run_bind_inv in H as (locs0 & w2 & E & H).
  apply run_new_inv in E as (G & EG & -> & ->).
  assert (Hnd : length (shape A) = 3).
  { unfold result_map in EG. apply result_bind_inv in EG as (g & EG & _).
    apply result_bind_inv in EG as (st & Est & Et).
    apply transpose_inv in Et as [Hn _].
    apply (meshgrid_arange_ndim _ st Est). now rewrite <- Hn. }
  destruct (shape A) as [|s0 [|s1 [|s2 [|s3 l]]]] eqn:Hsh; try discriminate.
  rewrite identity_grid in EG. injection EG as <-.
  apply run_bind_inv in H as (f & w0 & E & H). apply run_deref_inv in E as [Ef ->].
  cbn [lookup_ref frame set_frame] in Ef.
  rewrite (lookup_app_l_Some _ _ _ _ HF) in Ef. injection Ef as <-.
  apply run_bind_inv in H as (u & w3 & E & _).
  apply run_inplace_local_inv in E as (G0 & L & EG0 & EL & _).
  cbn [frame set_frame] in EG0.
  rewrite list_lookup_middle in EG0 by reflexivity. injection EG0 as <-.
  unfold np.add in EL.
  destruct (bool_decide _) eqn:Eb; [|discriminate].
  apply bool_decide_eq_true in Eb.
  exists s0, s1, s2. split; [reflexivity|]. now rewrite <- Eb.
Qed.

(** Lines 151-152 of [deformation], with an order in [0, 5]. *)
Lemma run_deformation_returns (w w1 : world) (i : nat) (A a locs : ndarray float)
  (max_displacement alpha : float) (order : Z) (seed : option Z) :
  heap w !! i = Some A ->
  (0 <= order <= 5)%Z ->
  deformation_sampling (Caller i) max_displacement alpha seed w
  = (Ok (a, locs), w1) ->
  exists out,
    outcome (deformation (Caller i) max_displacement alpha order seed) w = Ok out.
Proof.
  intros HA Hord H. unfold deformation_sampling in H.
  apply run_bind_inv in H as (flow & w2 & Ed & H).
  destruct (run_displacement_inv i A _ _ _ _ _ _ HA Ed)
    as (j & Fd & -> & HF & HwfF & Hk).
  assert (HA2 : heap w2 !! i = Some A) by (now rewrite Hk).
  destruct (run_warp_sampling_inv _ _ _ _ _ _ _ _ HA2 HF H)
    as (s0 & s1 & s2 & Hsh & HshF).
  eexists. unfold outcome, deformation.
  rewrite (run_bind_ok _ _ w w2 (Local j)) by exact Ed.
  apply (run_warp_displaced w2 i j A Fd s0 s1 s2 order); assumption.
Qed.

End DeformationReturns.

Section CallsReturn.

Context `{RS : RandomSource} `{LM : Libm} `{SP : Scipy} `{TR : !Transform}.

(** What the caller gets is the array handed over. *)
Lemma outcome_handed_over (body : M ref) (A out : ndarray float) (i : nat)
  (w : world) :
  hands_over_array_like A i w (call body w) ->
  outcome (call body) w = Ok out ->
  shape out = shape A /\ well_formed out.
Proof.
  unfold hands_over_array_like, outcome.
  destruct (call body w) as [[r|e] w']; [|discriminate].
  intros (out' & -> & Hh & Hs & Hwf & _) H.
  cbn [lookup_ref] in H. rewrite Hh, list_lookup_middle in H by reflexivity.
  injection H as <-. auto.
Qed.

End CallsReturn.

(** C3 (amended). [affine] and [deformation] never write to the input or to
    any other array of their caller, whether they return or raise; and
    whenever they return, what they return is a new array, with one cell per
    index, whose shape is exactly the shape of the input.  With an order in
    [0, 5] they return such an array once all that precedes the
    interpolation has been computed (lines 57-72, lines 128-150), for
    [affine] with one point of coordinates per cell of the input. *)
Theorem shape_preserved_input_untouched
  `{RS : RandomSource} `{LM : Libm} `{SP : Scipy} `{TR : !Transform}
  (w : world) (i : nat) (A : ndarray float)
  (rotation translation : magnitude) (zoom max_displacement alpha : float)
  (order : Z) (dist : string) (seed : option Z) :
  heap w !! i = Some A ->
  hands_over_array_like A i w
    (call (affine (Caller i) rotation translation zoom order dist seed) w)
  /\ hands_over_array_like A i w
       (call (deformation (Caller i) max_displacement alpha order seed) w)
  /\ ((0 <= order <= 5)%Z ->
      (forall a locs w1,
         affine_sampling (Caller i) rotation translation zoom dist seed
                         (set_frame [] w)
         = (Ok (a, locs), w1) ->
         length (data locs) = ndim A * prod (shape A) ->
         exists out,
           outcome (call (affine (Caller i) rotation translation zoom order dist seed)) w
           = Ok out
           /\ shape out = shape A /\ well_formed out)
      /\ (forall a locs w1,
            deformation_sampling (Caller i) max_displacement alpha seed
                                 (set_frame [] w)
            = (Ok (a, locs), w1) ->
            exists out,
              outcome (call (deformation (Caller i) max_displacement alpha order seed)) w
              = Ok out
              /\ shape out = shape A /\ well_formed out)).
Proof.
  intros HA.
  assert (Haff : hands_over_array_like A i w
            (call (affine (Caller i) rotation translation zoom order dist seed) w))
    by (apply call_hands_over_array; [exact HA|now apply hoare_affine_array]).
  assert (Hdef : hands_over_array_like A i w
            (call (deformation (Caller i) max_displacement alpha order seed) w))
    by (apply call_hands_over_array; [exact HA|now apply hoare_deformation_array]).
  split; [exact Haff|]. split; [exact Hdef|].
  intros Hord. split.
  - intros a locs w1 E Hlen.
    destruct (run_affine_returns (set_frame [] w) w1 i A a locs rotation translation
                zoom order dist seed HA Hord E Hlen) as [out Hout].
    exists out.
    assert (Ho : outcome (call (affine (Caller i) rotation translation zoom order
                                  dist seed)) w = Ok out).
    { rewrite outcome_call by (intros h; apply preserves_affine).
      unfold outcome. now rewrite Hout, lookup_new. }
    split; [exact Ho|]. exact (outcome_handed_over _ A out i w Haff Ho).
  - intros a locs w1 E.
    destruct (run_deformation_returns (set_frame [] w) w1 i A a locs max_displacement
                alpha order seed HA Hord E) as [out Hout].
    exists out.
    assert (Ho : outcome (call (deformation (Caller i) max_displacement alpha order
                                  seed)) w = Ok out).
    { rewrite outcome_call by (intros h; apply preserves_deformation). exact Hout. }
    split; [exact Ho|]. exact (outcome_handed_over _ A out i w Hdef Ho).
Qed.

(** C9 (amended). For a 3-D array [A], a spline order in [0, 5] and any
    seed, when the unit displacement field of lines 128-145 is built, has
    the shape (3, *A.shape) and holds finite numbers only, [deformation]
    with [max_displacement = 0] samples [A] exactly at the nodes of its own
    grid: cell [idx] of the result is the spline through [A] evaluated at
    [idx].  So the result equals [A] within whatever tolerance the
    interpolation has at the nodes. *)
Theorem deformation_zero_displacement
  `{RS : RandomSource} `{LM : Libm} `{SP : Scipy} `{TR : !Transform}
  (w : world) (i : nat) (A F : ndarray float) (s0 s1 s2 : nat)
  (alpha : float) (order : Z) (seed : option Z) :
  heap w !! i = Some A ->
  shape A = [s0; s1; s2] ->
  (0 <= order <= 5)%Z ->
  outcome (call (displacement_field (Caller i) alpha seed)) w = Ok F ->
  shape F = 3 :: shape A ->
  Forall (fun v => PrimFloat.is_finite v = true) (data F) ->
  exists out,
    outcome (call (deformation (Caller i) 0 alpha order seed)) w = Ok out
    /\ shape out = shape A
    /\ (forall idx, in_range (shape A) idx ->
          getitem out idx = spline_value A order 0 (map float_of_nat idx))
    /\ (forall tol,
          (forall idx, in_range (shape A) idx ->
             within tol (spline_value A order 0 (map float_of_nat idx)) (getitem A idx)) ->
          forall idx, in_range (shape A) idx ->
            within tol (getitem out idx) (getitem A idx)).
Proof.
  intros HA Hsh Hord HF HshF Hfin.
  exists (tabulate (shape A) (fun idx => spline_value A order 0 (map float_of_nat idx))).
  assert (Hget : forall idx, in_range (shape A) idx ->
            getitem (tabulate (shape A)
                       (fun idx => spline_value A order 0 (map float_of_nat idx))) idx
            = spline_value A order 0 (map float_of_nat idx))
    by (intros idx Hr; now rewrite getitem_tabulate).
  split; [|split; [reflexivity|split; [exact Hget|]]].
  2:{ intros tol Htol idx Hr. rewrite Hget by assumption. now apply Htol. }
  rewrite outcome_call in HF by (intros h; apply preserves_displacement_field).
  rewrite outcome_call by (intros h; apply preserves_deformation).
  assert (HwfF : well_formed F).
  { unfold outcome in HF.
    destruct (displacement_field (Caller i) alpha seed (set_frame [] w))
      as [[r|e] w'] eqn:E; [|discriminate].
    apply (run_displacement_field_inv i A) in E
      as (F' & a & b & d & fields & maxima & HF' & _ & _ & _ & _ & _ & Hwf & _);
      [|exact HA].
    rewrite HF' in HF. now injection HF as <-. }
  now apply (run_deformation_zero_displacement (set_frame [] w) i A F s0 s1 s2).
Qed.

(** ** The amended statements, on the sample implementation *)

Section AmendedOnSample.

Import Sample.

(** Against C3 as stated: with order 7 on a 2x2x2 array, and with order 3
    on a 2x2 array, [affine] and [deformation] raise: no array is
    returned. *)
Lemma no_array_for_some_orders_and_ranks :
  outcome (call (affine (Caller 0) (Scalar 10) (Scalar 10) 0.25 7 "uniform" (Some 42%Z)))
          (start [cube])
  = Raise SplineOrderError
  /\ outcome (call (deformation (Caller 0) 4 3 7 (Some 42%Z))) (start [cube])
     = Raise SplineOrderError
  /\ outcome (call (affine (Caller 0) (Scalar 10) (Scalar 10) 0.25 3 "uniform" (Some 42%Z)))
             (start [square])
     = Raise EulerAnglesError
  /\ outcome (call (deformation (Caller 0) 4 3 3 (Some 42%Z))) (start [square])
     = Raise (ValueError "axes don't match array").
Proof. repeat split; vm_compute; reflexivity. Qed.

(** Against C9 as stated: with [max_displacement = 0] on a 2x2x2 array,
    order 7 raises; and with order 3, where the field generated is zero
    everywhere, each field divided by its maximum is NaN everywhere, so are
    the coordinates, and the array returned is not the input, which the
    same call returns exactly for another field. *)
Lemma zero_displacement_is_not_always_the_identity :
  outcome (call (deformation (Caller 0) 0 3 7 (Some 42%Z))) (start [cube])
  = Raise SplineOrderError
  /\ (exists F,
        outcome (call (displacement_field (TR := flat) (Caller 0) 3 (Some 42%Z)))
                (start [cube]) = Ok F
        /\ Forall (fun v => PrimFloat.is_nan v = true) (data F))
  /\ outcome (call (deformation (TR := flat) (Caller 0) 0 3 3 (Some 42%Z)))
             (start [cube])
     = Ok (mk_array [2; 2; 2] [0; 0; 0; 0; 0; 0; 0; 0]%float)
  /\ outcome (call (deformation (Caller 0) 0 3 3 (Some 42%Z))) (start [cube])
     = Ok cube
  /\ getitem cube [1; 1; 1] = 7%float
  /\ ~ within 1 0 7.
Proof.
  split; [vm_compute; reflexivity|].
  split.
  { eexists. split; [vm_compute; reflexivity|]. repeat constructor. }
  split; [vm_compute; reflexivity|].
  split; [vm_compute; reflexivity|].
  split; [vm_compute; reflexivity|].
  unfold within. vm_compute. discriminate.
Qed.

Lemma shape_preserved_input_untouched_on_sample :
  heap (start [cube]) !! 0 = Some cube
  /\ hands_over_array_like cube 0 (start [cube])
       (call (affine (Caller 0) (Scalar 10) (Scalar 10) 0.25 3 "uniform" (Some 42%Z))
             (start [cube]))
  /\ hands_over_array_like cube 0 (start [cube])
       (call (deformation (Caller 0) 4 3 3 (Some 42%Z)) (start [cube]))
  /\ (0 <= 3 <= 5)%Z
  /\ (exists a locs w1,
        affine_sampling (Caller 0) (Scalar 10) (Scalar 10) 0.25 "uniform" (Some 42%Z)
                        (set_frame [] (start [cube]))
        = (Ok (a, locs), w1)
        /\ length (data locs) = ndim cube * prod (shape cube))
  /\ (exists a locs w1,
        deformation_sampling (Caller 0) 4 3 (Some 42%Z) (set_frame [] (start [cube]))
        = (Ok (a, locs), w1))
  /\ (exists out,
        outcome (call (affine (Caller 0) (Scalar 10) (Scalar 10) 0.25 3 "uniform"
                         (Some 42%Z))) (start [cube]) = Ok out
        /\ shape out = shape cube /\ well_formed out)
  /\ (exists out,
        outcome (call (deformation (Caller 0) 4 3 3 (Some 42%Z))) (start [cube]) = Ok out
        /\ shape out = shape cube /\ well_formed out).
Proof.
  assert (H1 : heap (start [cube]) !! 0 = Some cube) by reflexivity.
  assert (H2 : (0 <= 3 <= 5)%Z) by (split; discriminate).
  assert (H3 : exists a locs w1,
             affine_sampling (Caller 0) (Scalar 10) (Scalar 10) 0.25 "uniform" (Some 42%Z)
                             (set_frame [] (start [cube]))
             = (Ok (a, locs), w1)
             /\ length (data locs) = ndim cube * prod (shape cube))
    by (vm_compute; eexists _, _, _; split; reflexivity).
  assert (H4 : exists a locs w1,
             deformation_sampling (Caller 0) 4 3 (Some 42%Z) (set_frame [] (start [cube]))
             = (Ok (a, locs), w1))
    by (vm_compute; eexists _, _, _; reflexivity).
  destruct (shape_preserved_input_untouched (start [cube]) 0 cube
              (Scalar 10) (Scalar 10) 0.25 4 3 3 "uniform" (Some 42%Z) H1)
    as (Ha & Hd & Hpos).
  destruct (Hpos H2) as [Pa Pd].
  split; [exact H1|]. split; [exact Ha|]. split; [exact Hd|]. split; [exact H2|].
  split; [exact H3|]. split; [exact H4|].
  destruct H3 as (a & locs & w1 & E & Hlen).
  destruct H4 as (a' & locs' & w1' & E').
  split; [exact (Pa a locs w1 E Hlen)|exact (Pd a' locs' w1' E')].
Defined.

Lemma order_out_of_range_rejected_on_sample :
  (7 < 0 \/ 5 < 7)%Z
  /\ affine (Caller 0) (Scalar 10) (Scalar 10) 0.25 7 "uniform" (Some 42%Z) (start [cube])
     = match affine_sampling (Caller 0) (Scalar 10) (Scalar 10) 0.25 "uniform" (Some 42%Z)
                             (start [cube]) with
       | (Ok _, w') => (Raise SplineOrderError, w')
       | (Raise e, w') => (Raise e, w')
       end
  /\ deformation (Caller 0) 4 3 7 (Some 42%Z) (start [cube])
     = match deformation_sampling (Caller 0) 4 3 (Some 42%Z) (start [cube]) with
       | (Ok _, w') => (Raise SplineOrderError, w')
       | (Raise e, w') => (Raise e, w')
       end
  /\ (forall any_order e w',
        affine_sampling (Caller 0) (Scalar 10) (Scalar 10) 0.25 "uniform" (Some 42%Z)
                        (start [cube]) = (Raise e, w') ->
        affine (Caller 0) (Scalar 10) (Scalar 10) 0.25 any_order "uniform" (Some 42%Z)
               (start [cube]) = (Raise e, w'))
  /\ (forall any_order e w',
        deformation_sampling (Caller 0) 4 3 (Some 42%Z) (start [cube]) = (Raise e, w') ->
        deformation (Caller 0) 4 3 any_order (Some 42%Z) (start [cube]) = (Raise e, w')).
Proof.
  assert (H : (7 < 0 \/ 5 < 7)%Z) by (right; reflexivity).
  split; [exact H|].
  exact (order_out_of_range_rejected (start [cube]) (Caller 0)
           (Scalar 10) (Scalar 10) 0.25 4 3 7 "uniform" (Some 42%Z) H).
Defined.

Lemma deformation_zero_displacement_on_sample :
  (heap (start [cube]) !! 0 = Some cube
   /\ shape cube = [2; 2; 2]
   /\ (0 <= 3 <= 5)%Z
   /\ outcome (call (displacement_field (Caller 0) 3 (Some 42%Z))) (start [cube])
      = Ok cube_field
   /\ shape cube_field = 3 :: shape cube
   /\ Forall (fun v => PrimFloat.is_finite v = true) (data cube_field))
  /\ exists out,
       outcome (call (deformation (Caller 0) 0 3 3 (Some 42%Z))) (start [cube]) = Ok out
       /\ shape out = shape cube
       /\ (forall idx, in_range (shape cube) idx ->
             getitem out idx = spline_value cube 3 0 (map float_of_nat idx))
       /\ (forall tol,
             (forall idx, in_range (shape cube) idx ->
                within tol (spline_value cube 3 0 (map float_of_nat idx)) (getitem cube idx)) ->
             forall idx, in_range (shape cube) idx ->
               within tol (getitem out idx) (getitem cube idx)).
Proof.
  assert (H1 : heap (start [cube]) !! 0 = Some cube) by reflexivity.
  assert (H2 : shape cube = [2; 2; 2]) by reflexivity.
  assert (H3 : (0 <= 3 <= 5)%Z) by (split; discriminate).
  assert (H4 : outcome (call (displacement_field (Caller 0) 3 (Some 42%Z))) (start [cube])
               = Ok cube_field) by (vm_compute; reflexivity).
  assert (H5 : shape cube_field = 3 :: shape cube) by reflexivity.
  assert (H7 : Forall (fun v => PrimFloat.is_finite v = true) (data cube_field))
    by (repeat constructor).
  split; [auto 10|].
  exact (deformation_zero_displacement (start [cube]) 0 cube cube_field 2 2 2 3 3
           (Some 42%Z) H1 H2 H3 H4 H5 H7).
Defined.

End AmendedOnSample.
